(** * SweepFS: scanner, cache store and actions engine

    A shallow embedding of [internal/services] (fs_scanner.go, cache.go,
    fs_actions.go) and of [internal/domain], with the properties of the
    engine's specification stated and settled over it.

    Conventions.
    - Go [int] and [int64] are 64-bit two's-complement integers: they are
      [Z] values and every addition goes through [wrap64].
    - A Go [map[string]T] is a [gmap string T].  The order in which
      [range] yields the keys of a map is chosen by the Go runtime; it is
      supplied to the model by a [Runtime] (a ranking of the keys for
      every loop), so that every order the runtime may choose is covered.
    - Errors are values of [error]; a function that returns [(T, error)]
      returns a sum or a pair with an [option error].
    - Paths are strings, handled by [Filepath], which follows the Unix
      implementation of Go's [path/filepath]. *)

From Stdlib Require Import ZArith Lia Ascii String List Permutation Sorted.
From stdpp Require Import gmap strings list fin_maps option.

Open Scope string_scope.
Open Scope Z_scope.

(* ===================================================================== *)
(** * Machine integers *)
(* ===================================================================== *)

Definition wrap64 (z : Z) : Z := (z + 2 ^ 63) mod 2 ^ 64 - 2 ^ 63.

Definition add64 (a b : Z) : Z := wrap64 (a + b).

Definition inInt64 (z : Z) : Prop := - 2 ^ 63 <= z < 2 ^ 63.

Lemma wrap64_id z : inInt64 z -> wrap64 z = z.
Proof.
  unfold inInt64, wrap64. intros H.
  rewrite Z.mod_small; lia.
Qed.

Lemma wrap64_range z : inInt64 (wrap64 z).
Proof.
  unfold inInt64, wrap64.
  pose proof (Z.mod_pos_bound (z + 2 ^ 63) (2 ^ 64) ltac:(lia)). lia.
Qed.

(* ===================================================================== *)
(** * path/filepath and strings (Unix) *)
(* ===================================================================== *)

Module Filepath.

(** [strings.Split(s, "/")]. *)
Fixpoint split (s : string) : list string :=
  match s with
  | EmptyString => [EmptyString]
  | String c rest =>
      if Ascii.eqb c "/" then EmptyString :: split rest
      else match split rest with
           | x :: xs => String c x :: xs
           | [] => [String c EmptyString]
           end
  end.

(** [strings.Join(elems, "/")]. *)
Fixpoint joinSep (elems : list string) : string :=
  match elems with
  | [] => ""
  | [x] => x
  | x :: rest => x ++ "/" ++ joinSep rest
  end.

(** [strings.Count(s, "/")]. *)
Fixpoint countSep (s : string) : Z :=
  match s with
  | EmptyString => 0
  | String c rest => (if Ascii.eqb c "/" then 1 else 0) + countSep rest
  end.

(** [strings.HasPrefix(s, prefix)]. *)
Definition HasPrefix (s pre : string) : bool := String.prefix pre s.

(** [strings.HasSuffix(s, suffix)]. *)
Definition HasSuffix (s suf : string) : bool :=
  let n := String.length s in
  let k := String.length suf in
  (k <=? n)%nat && String.eqb (substring (n - k) k s) suf.

Definition IsAbs (path : string) : bool := HasPrefix path "/".

(** One step of the element loop of [Clean]: [out] is the stack of the
    elements written so far, innermost first. *)
Definition cleanStep (rooted : bool) (out : list string) (e : string)
  : list string :=
  if String.eqb e "" then out
  else if String.eqb e "." then out
  else if String.eqb e ".." then
    match out with
    | top :: rest => if String.eqb top ".." then ".." :: out else rest
    | [] => if rooted then [] else [".."]
    end
  else e :: out.

(** [filepath.Clean]. *)
Definition Clean (path : string) : string :=
  let rooted := IsAbs path in
  let out := rev (fold_left (cleanStep rooted) (split path) []) in
  if rooted then "/" ++ joinSep out
  else match out with
       | [] => "."
       | _ => joinSep out
       end.

(** [filepath.Join(elem...)]: empty leading elements are ignored. *)
Fixpoint JoinList (elems : list string) : string :=
  match elems with
  | [] => ""
  | e :: rest =>
      if String.eqb e "" then JoinList rest else Clean (joinSep elems)
  end.

(** [filepath.Join(a, b)]. *)
Definition Join (a b : string) : string :=
  if negb (String.eqb a "") then Clean (a ++ "/" ++ b)
  else if negb (String.eqb b "") then Clean b
  else "".

(** The elements of [split path] before the last one. *)
Definition initElems (elems : list string) : list string := removelast elems.

(** [filepath.Dir]: everything up to and including the last separator,
    cleaned. *)
Definition Dir (path : string) : string :=
  match initElems (split path) with
  | [] => Clean ""
  | front => Clean (joinSep front ++ "/")
  end.

Fixpoint dropTrailingEmpty (elems : list string) : list string :=
  match elems with
  | [] => []
  | x :: rest =>
      match dropTrailingEmpty rest with
      | [] => if String.eqb x "" then [] else [x]
      | rest' => x :: rest'
      end
  end.

(** [filepath.Base]. *)
Definition Base (path : string) : string :=
  if String.eqb path "" then "."
  else match dropTrailingEmpty (split path) with
       | [] => "/"
       | elems => List.last elems ""
       end.

(** Skip the common leading elements of two element lists. *)
Fixpoint dropCommon (base targ : list string) : list string * list string :=
  match base, targ with
  | b :: bs, t :: ts =>
      if String.eqb b t then dropCommon bs ts else (base, targ)
  | _, _ => (base, targ)
  end.

(** [filepath.Rel(basepath, targpath)]. *)
Definition Rel (basepath targpath : string) : option string :=
  let base := Clean basepath in
  let targ := Clean targpath in
  if String.eqb targ base then Some "."
  else
    let base := if String.eqb base "." then "" else base in
    if negb (Bool.eqb (IsAbs base) (IsAbs targ)) then None
    else
      let elems s := if String.eqb s "" then [] else
                     if String.eqb s "/" then [""] else split s in
      let '(b, t) := dropCommon (elems base) (elems targ) in
      match b with
      | [] => Some (joinSep t)
      | b0 :: _ =>
          if String.eqb b0 ".." then None
          else Some (joinSep (map (fun _ => "..") b ++ t))
      end.

End Filepath.

(* ===================================================================== *)
(** * Errors *)
(* ===================================================================== *)

(** The error values the engine tells apart: [os.ErrPermission],
    [os.ErrNotExist], [os.ErrExist], [syscall.EXDEV], the two context
    errors, and errors made with [fmt.Errorf]. *)
Inductive error :=
| ErrPermission
| ErrNotExist
| ErrExist
| ErrNotEmpty
| ErrNotDir
| EXDEV
| Canceled
| DeadlineExceeded
| Errorf (msg : string).

Global Instance error_eq_dec : EqDecision error.
Proof. solve_decision. Defined.

(** [err.Error()]. *)
Definition errorText (e : error) : string :=
  match e with
  | ErrPermission => "permission denied"
  | ErrNotExist => "no such file or directory"
  | ErrExist => "file exists"
  | ErrNotEmpty => "directory not empty"
  | ErrNotDir => "not a directory"
  | EXDEV => "invalid cross-device link"
  | Canceled => "context canceled"
  | DeadlineExceeded => "context deadline exceeded"
  | Errorf msg => msg
  end.

(** [errors.Is(err, os.ErrPermission)]. *)
Definition isPermissionErr (e : error) : bool :=
  match e with ErrPermission => true | _ => false end.

(* ===================================================================== *)
(** * internal/domain *)
(* ===================================================================== *)

Inductive NodeType := NodeFile | NodeDir.

Global Instance NodeType_eq_dec : EqDecision NodeType.
Proof. solve_decision. Defined.

(** [time.Time] as the engine uses it: the zero value, or an instant
    given in nanoseconds since the Unix epoch. *)
Inductive Time := TimeZero | TimeUnix (nsec : Z).

Global Instance Time_eq_dec : EqDecision Time.
Proof. solve_decision. Defined.

Record Node := mkNode {
  ID : string;
  Name : string;
  Path : string;
  Type_ : NodeType;
  SizeBytes : Z;
  AccumBytes : Z;
  ModTime : Time;
  ParentID : string;
  ChildrenIDs : list string;
  ChildCount : Z;
  FileCount : Z;
  DirCount : Z;
  Scanned : bool
}.

Global Instance Node_eq_dec : EqDecision Node.
Proof. solve_decision. Defined.

Record TreeIndex := mkTreeIndex {
  Nodes : gmap string Node;
  RootID : string
}.

(** Field updates ([node.F = v] through the node's pointer). *)
Definition setSizeBytes (v : Z) (n : Node) : Node :=
  mkNode (ID n) (Name n) (Path n) (Type_ n) v (AccumBytes n) (ModTime n)
         (ParentID n) (ChildrenIDs n) (ChildCount n) (FileCount n)
         (DirCount n) (Scanned n).
Definition setAccumBytes (v : Z) (n : Node) : Node :=
  mkNode (ID n) (Name n) (Path n) (Type_ n) (SizeBytes n) v (ModTime n)
         (ParentID n) (ChildrenIDs n) (ChildCount n) (FileCount n)
         (DirCount n) (Scanned n).
Definition setChildrenIDs (v : list string) (n : Node) : Node :=
  mkNode (ID n) (Name n) (Path n) (Type_ n) (SizeBytes n) (AccumBytes n)
         (ModTime n) (ParentID n) v (ChildCount n) (FileCount n)
         (DirCount n) (Scanned n).
Definition setChildCount (v : Z) (n : Node) : Node :=
  mkNode (ID n) (Name n) (Path n) (Type_ n) (SizeBytes n) (AccumBytes n)
         (ModTime n) (ParentID n) (ChildrenIDs n) v (FileCount n)
         (DirCount n) (Scanned n).
Definition setFileCount (v : Z) (n : Node) : Node :=
  mkNode (ID n) (Name n) (Path n) (Type_ n) (SizeBytes n) (AccumBytes n)
         (ModTime n) (ParentID n) (ChildrenIDs n) (ChildCount n) v
         (DirCount n) (Scanned n).
Definition setDirCount (v : Z) (n : Node) : Node :=
  mkNode (ID n) (Name n) (Path n) (Type_ n) (SizeBytes n) (AccumBytes n)
         (ModTime n) (ParentID n) (ChildrenIDs n) (ChildCount n)
         (FileCount n) v (Scanned n).

(* ===================================================================== *)
(** * The Go runtime: sorting and map iteration order *)
(* ===================================================================== *)

Section InsertionSort.
Context {A : Type}.
Variable less : A -> A -> bool.

(** The inner loop of the insertion sort behind [sort.Slice] on short
    slices: the new element moves left while it is [less] than its left
    neighbour.  [revPrefix] is the sorted prefix, last element first. *)
Fixpoint sink (x : A) (revPrefix : list A) : list A :=
  match revPrefix with
  | y :: rest => if less x y then y :: sink x rest else x :: y :: rest
  | [] => [x]
  end.

Definition insertionSort (l : list A) : list A :=
  rev (fold_left (fun acc x => sink x acc) l []).
End InsertionSort.

(** What the runtime decides: for the [loop]-th [range] over a map, the
    rank of every key; keys are yielded by increasing rank.  Every
    iteration order is the order of some ranking. *)
Record Runtime := mkRuntime {
  rangeRank : nat -> string -> nat
}.

(** The keys of [m] in the order the [loop]-th [range] yields them. *)
Definition rangeKeys {A : Type} (rt : Runtime) (loop : nat)
    (m : gmap string A) : list string :=
  insertionSort (fun a b => (rangeRank rt loop a <? rangeRank rt loop b)%nat)
                (map_to_list m).*1.

(* ===================================================================== *)
(** * Channels *)
(* ===================================================================== *)

(** A buffered channel as its sender sees it: the buffered messages, the
    capacity, and whether it has been closed.  A [nil] channel is [None].
    The receiver, when there is one, is taken at its slowest: it receives
    a message only when the sender is blocked on the full channel. *)
Record Chan (A : Type) := mkChan {
  chBuf : list A;
  chCap : nat;
  chClosed : bool
}.
Arguments mkChan {A} _ _ _.
Arguments chBuf {A} _.
Arguments chCap {A} _.
Arguments chClosed {A} _.

Definition makeChan {A : Type} (cap : nat) : Chan A := mkChan [] cap false.

Definition chanFull {A : Type} (ch : Chan A) : bool :=
  (chCap ch <=? length (chBuf ch))%nat.

Definition chanPush {A : Type} (msg : A) (ch : Chan A) : Chan A :=
  mkChan (chBuf ch ++ [msg]) (chCap ch) (chClosed ch).

Definition closeChan {A : Type} (ch : Chan A) : Chan A :=
  mkChan (chBuf ch) (chCap ch) true.

(** How a call ends: it returns, it stays blocked on a channel send for
    as long as nothing is received, or it panics. *)
Inductive Outcome (A : Type) :=
| Returned (a : A)
| Blocked
| Panicked.
Arguments Returned {A} _.
Arguments Blocked {A}.
Arguments Panicked {A}.

(** [select { case ch <- msg: default: }] on an open channel. *)
Definition sendNonBlocking {A : Type} (ch : Chan A) (msg : A) : Chan A :=
  if chanFull ch then ch else chanPush msg ch.

(** [ch <- msg] on an open channel.  On a full channel the send waits
    for the receiver to take the oldest message; with nobody [receiving]
    it blocks for ever ([None]). *)
Definition sendBlocking {A : Type} (receiving : bool) (ch : Chan A) (msg : A)
  : option (Chan A) :=
  if chanFull ch then
    if receiving
    then Some (chanPush msg (mkChan (tail (chBuf ch)) (chCap ch) (chClosed ch)))
    else None
  else Some (chanPush msg ch).

(* ===================================================================== *)
(** * internal/services: requests, results, progress *)
(* ===================================================================== *)

Record ScanRequest := mkScanRequest {
  RootPath : string;
  ShowHidden : bool
}.

Record ScanResult := mkScanResult {
  srRootPath : string;
  srDuration : Z
}.

Record ScanProgress := mkScanProgress {
  spPath : string;
  spScanned : Z;
  spCompleted : bool;
  spErrMessage : string;
  spCurrent : string
}.

(** [progressNonBlocking]. *)
Definition progressNonBlocking (ch : Chan ScanProgress) (msg : ScanProgress)
  : Chan ScanProgress :=
  sendNonBlocking ch msg.

(* ===================================================================== *)
(** * Path helpers of fs_scanner.go and cache.go *)
(* ===================================================================== *)

Definition isHidden (name : string) : bool := Filepath.HasPrefix name ".".

Definition isWithin (root path : string) : bool :=
  if String.eqb root path then true
  else Filepath.HasPrefix path (root ++ "/").

Definition hasPathPrefix (root path : string) : bool :=
  if String.eqb root path then true
  else Filepath.HasPrefix path (root ++ "/").

Definition parentPath (root path : string) : string :=
  if String.eqb path root then "" else Filepath.Dir path.

Definition depth (path : string) : Z :=
  Filepath.countSep (Filepath.Clean path).

Definition depthFrom (root path : string) : Z :=
  wrap64 (depth path - depth root).

Fixpoint containsID (ids : list string) (target : string) : bool :=
  match ids with
  | [] => false
  | id :: rest => if String.eqb id target then true else containsID rest target
  end.

Definition maxInt (a b : Z) : Z := if a >? b then a else b.

(* ===================================================================== *)
(** * The four aggregation passes *)
(* ===================================================================== *)

Abbreviation NodeMap := (gmap string Node).

(** The [range] loops of one aggregation, numbered. *)
Definition loopHierarchy : nat := 0.
Definition loopAccumulation : nat := 1.
Definition loopFileCounts : nat := 2.
Definition loopDirCounts : nat := 3.
Definition loopSnapshot : nat := 4.

(** The body of the loop of [applyHierarchy], for the node under [key]. *)
Definition hierarchyStep (nodes : NodeMap) (key : string) : NodeMap :=
  match nodes !! key with
  | None => nodes
  | Some node =>
      if String.eqb (ParentID node) "" then nodes
      else match nodes !! ParentID node with
           | None => nodes
           | Some parent =>
               let parent1 :=
                 setChildrenIDs (ChildrenIDs parent ++ [ID node]) parent in
               let parent2 :=
                 match Type_ node with
                 | NodeDir => setChildCount (add64 (ChildCount parent1) 1) parent1
                 | NodeFile => parent1
                 end in
               <[ParentID node := parent2]> nodes
           end
  end.

Definition applyHierarchy (rt : Runtime) (nodes : NodeMap) : NodeMap :=
  fold_left hierarchyStep (rangeKeys rt loopHierarchy nodes) nodes.

(** [paths], collected by a [range] over the map and sorted with
    [sort.Slice] by decreasing [depth]. *)
Definition sortedPaths (rt : Runtime) (loop : nat) (nodes : NodeMap)
  : list string :=
  insertionSort (fun a b => depth a >? depth b) (rangeKeys rt loop nodes).

(** [total] over the children that the index holds. *)
Definition sumChildren (f : Node -> Z) (nodes : NodeMap) (ids : list string)
  : Z :=
  fold_left (fun total childID =>
               match nodes !! childID with
               | Some child => add64 total (f child)
               | None => total
               end) ids 0.

Definition accumulationStep (nodes : NodeMap) (path : string) : NodeMap :=
  match nodes !! path with
  | None => nodes
  | Some node =>
      match Type_ node with
      | NodeFile =>
          if AccumBytes node =? 0
          then <[path := setAccumBytes (SizeBytes node) node]> nodes
          else nodes
      | NodeDir =>
          <[path := setAccumBytes
                      (sumChildren AccumBytes nodes (ChildrenIDs node)) node]>
            nodes
      end
  end.

Definition applyAccumulation (rt : Runtime) (nodes : NodeMap) : NodeMap :=
  fold_left accumulationStep (sortedPaths rt loopAccumulation nodes) nodes.

Definition fileCountsStep (nodes : NodeMap) (path : string) : NodeMap :=
  match nodes !! path with
  | None => nodes
  | Some node =>
      match Type_ node with
      | NodeFile => <[path := setFileCount 1 node]> nodes
      | NodeDir =>
          <[path := setFileCount
                      (sumChildren FileCount nodes (ChildrenIDs node)) node]>
            nodes
      end
  end.

Definition applyFileCounts (rt : Runtime) (nodes : NodeMap) : NodeMap :=
  fold_left fileCountsStep (sortedPaths rt loopFileCounts nodes) nodes.

(** [count] of [applyDirCounts]: one for every directory child, plus the
    child's own [DirCount]. *)
Definition sumDirCounts (nodes : NodeMap) (ids : list string) : Z :=
  fold_left (fun count childID =>
               match nodes !! childID with
               | Some child =>
                   let count1 :=
                     match Type_ child with
                     | NodeDir => add64 count 1
                     | NodeFile => count
                     end in
                   add64 count1 (DirCount child)
               | None => count
               end) ids 0.

Definition dirCountsStep (nodes : NodeMap) (path : string) : NodeMap :=
  match nodes !! path with
  | None => nodes
  | Some node =>
      match Type_ node with
      | NodeFile => <[path := setDirCount 0 node]> nodes
      | NodeDir =>
          <[path := setDirCount (sumDirCounts nodes (ChildrenIDs node)) node]>
            nodes
      end
  end.

Definition applyDirCounts (rt : Runtime) (nodes : NodeMap) : NodeMap :=
  fold_left dirCountsStep (sortedPaths rt loopDirCounts nodes) nodes.

(** The four passes, in the order [Scan] runs them. *)
Definition aggregate (rt : Runtime) (nodes : NodeMap) : NodeMap :=
  applyDirCounts rt (applyFileCounts rt (applyAccumulation rt (applyHierarchy rt nodes))).

(* ===================================================================== *)
(** * cache.go: the persisted cache *)
(* ===================================================================== *)

Definition cacheVersion : Z := 1.
Definition maxCacheBytes : Z := 50 * 1024 * 1024.

Record cacheEntry := mkCacheEntry {
  cePath : string;
  ceName : string;
  ceType : NodeType;
  ceModTime : Z;
  ceSizeBytes : Z;
  ceAccumBytes : Z;
  ceFileCount : Z;
  ceDirCount : Z;
  ceChildCount : Z;
  ceChildren : list string;
  ceParentID : string
}.

Record cacheFile := mkCacheFile {
  cfVersion : Z;
  cfShowHidden : bool;
  cfEntries : option (gmap string cacheEntry)
}.

(** [t.UnixNano()].  For the zero [time.Time] the implementation
    multiplies the seconds of year 1 by 10^9 in [int64]. *)
Definition UnixNano (t : Time) : Z :=
  match t with
  | TimeZero => wrap64 (-62135596800 * 1000000000)
  | TimeUnix nsec => nsec
  end.

Definition timeFrom (value : Z) : Time :=
  if value =? 0 then TimeZero else TimeUnix value.

Definition toNode (entry : cacheEntry) : Node :=
  {| ID := cePath entry;
     Name := ceName entry;
     Path := cePath entry;
     Type_ := ceType entry;
     SizeBytes := ceSizeBytes entry;
     AccumBytes := ceAccumBytes entry;
     ModTime := timeFrom (ceModTime entry);
     ParentID := ceParentID entry;
     ChildrenIDs := ceChildren entry;
     ChildCount := ceChildCount entry;
     FileCount := ceFileCount entry;
     DirCount := ceDirCount entry;
     Scanned := bool_decide (ceType entry = NodeDir) |}.

(** The entry [saveCache] writes for a node. *)
Definition toEntry (node : Node) : cacheEntry :=
  {| cePath := Path node;
     ceName := Name node;
     ceType := Type_ node;
     ceModTime := UnixNano (ModTime node);
     ceSizeBytes := SizeBytes node;
     ceAccumBytes := AccumBytes node;
     ceFileCount := FileCount node;
     ceDirCount := DirCount node;
     ceChildCount := ChildCount node;
     ceChildren := ChildrenIDs node;
     ceParentID := ParentID node |}.

(* ===================================================================== *)
(** * The scanner's view of the operating system *)
(* ===================================================================== *)

(** A file tree as a scan meets it.  A file carries its modification
    time and the outcome of the [os.Lstat] a worker runs on it later (an
    error when the file has vanished meanwhile, its size otherwise).  A
    directory carries the outcome of [entry.Info()] (its modification
    time), the error of [os.ReadDir] if any, and the entries [os.ReadDir]
    returns, in its order. *)
Inductive FsEntry :=
| FsFile (name : string) (mtime : Z) (lstat : error + Z)
| FsDir (name : string) (info : error + Z) (readDir : option error)
        (entries : list FsEntry).

(** The cache file on disk, as [loadCache] finds it. *)
Inductive CacheDisk :=
| DiskMissing
| DiskStatError (e : error)
| DiskTooLarge
| DiskReadError (e : error)
| DiskBadJSON (e : error)
| DiskFile (f : cacheFile).

Record World := mkWorld {
  cwd : error + string;                  (* os.Getwd *)
  userCacheDir : error + string;         (* os.UserCacheDir *)
  lstatTree : string -> error + FsEntry; (* os.Lstat of a path, with the tree below *)
  disk : CacheDisk;
  diskWritable : cacheFile -> bool;      (* marshalled under the cap and written *)
  elapsed : Z;                           (* time.Since(start) *)
  receiving : bool                       (* somebody receives from Progress() *)
}.

Definition setDisk (d : CacheDisk) (w : World) : World :=
  mkWorld (cwd w) (userCacheDir w) (lstatTree w) d (diskWritable w) (elapsed w)
          (receiving w).

(** [filepath.Abs]. *)
Definition Abs (w : World) (path : string) : error + string :=
  if Filepath.IsAbs path then inr (Filepath.Clean path)
  else match cwd w with
       | inl e => inl e
       | inr wd => inr (Filepath.Join wd path)
       end.

Definition cleanPath (w : World) (path : string) : string :=
  if String.eqb path "" then path
  else
    let clean := Filepath.Clean path in
    match Abs w clean with
    | inl _ => clean
    | inr abs => abs
    end.

(** [os.Stat(path)], of which the scanner reads the modification time. *)
Definition statModTime (w : World) (path : string) : error + Z :=
  match lstatTree w path with
  | inl e => inl e
  | inr (FsFile _ mtime _) => inr mtime
  | inr (FsDir _ info _ _) => info
  end.

(** [fs.DirEntry]: name, [IsDir()], and the outcome of [Info()] (the
    modification time).  The model adds, for a file, the outcome of the
    [os.Lstat] a worker runs on it later. *)
Record DirEntry := mkDirEntry {
  deName : string;
  deIsDir : bool;
  deInfo : error + Z;
  deLstat : error + Z
}.

Definition entryOf (d : FsEntry) : DirEntry :=
  match d with
  | FsFile name mtime lstat => mkDirEntry name false (inr mtime) lstat
  | FsDir name info _ _ => mkDirEntry name true info (inr 0)
  end.

(* ===================================================================== *)
(** * filepath.WalkDir *)
(* ===================================================================== *)

(** What the walk function returns: [nil], [filepath.SkipDir], or another
    error. *)
Inductive WalkResult :=
| WalkOk
| WalkSkipDir
| WalkErr (e : error).

(** The two ways [WalkDir] calls its function: for an entry, or to report
    an error ([os.Lstat] of the root, in which case there is no entry, or
    [os.ReadDir] of a directory). *)
Inductive WalkCall (E : Type) :=
| VisitEntry (d : E)
| VisitError (d : option E) (e : error).
Arguments VisitEntry {E} _.
Arguments VisitError {E} _ _.

Section WalkDir.
Context {S : Type}.
Variable fn : string -> WalkCall DirEntry -> S -> WalkResult * S.

Fixpoint walkDir (path : string) (d : FsEntry) (st : S) : WalkResult * S :=
  match d with
  | FsFile _ _ _ => fn path (VisitEntry (entryOf d)) st
  | FsDir _ _ readDir entries =>
      match fn path (VisitEntry (entryOf d)) st with
      | (WalkSkipDir, st1) => (WalkOk, st1)
      | (WalkErr e, st1) => (WalkErr e, st1)
      | (WalkOk, st1) =>
          let '(r2, st2) :=
            match readDir with
            | Some e => fn path (VisitError (Some (entryOf d)) e) st1
            | None => (WalkOk, st1)
            end in
          match r2 with
          | WalkSkipDir => (WalkOk, st2)
          | WalkErr e => (WalkErr e, st2)
          | WalkOk =>
              (fix walkEntries (ds : list FsEntry) (st : S) : WalkResult * S :=
                 match ds with
                 | [] => (WalkOk, st)
                 | d1 :: rest =>
                     match walkDir (Filepath.Join path (deName (entryOf d1))) d1 st with
                     | (WalkOk, st') => walkEntries rest st'
                     | (WalkSkipDir, st') => (WalkOk, st')
                     | (WalkErr e, st') => (WalkErr e, st')
                     end
                 end) entries st2
          end
      end
  end.

(** [filepath.WalkDir(root, fn)]: [None] is a [nil] error. *)
Definition WalkDir (w : World) (root : string) (st : S) : option error * S :=
  let '(r, st') :=
    match lstatTree w root with
    | inl e => fn root (VisitError None e) st
    | inr d => walkDir root d st
    end in
  match r with
  | WalkErr e => (Some e, st')
  | _ => (None, st')
  end.
End WalkDir.

(* ===================================================================== *)
(** * fs_scanner.go: the scanner *)
(* ===================================================================== *)

Record FSScanner := mkFSScanner {
  cache : gmap string Node;
  scannedDirs : gmap string bool;
  progress : option (Chan ScanProgress);
  exclusions : gset string;
  maxDepth : Z;
  root : string;
  cacheEntries : option (gmap string cacheEntry);
  cacheLoaded : bool;
  cachePath : string;
  cacheHiddenFlag : bool
}.

Definition setCaches (c : gmap string Node) (d : gmap string bool)
    (s : FSScanner) : FSScanner :=
  mkFSScanner c d (progress s) (exclusions s) (maxDepth s) (root s)
              (cacheEntries s) (cacheLoaded s) (cachePath s) (cacheHiddenFlag s).

Definition setRoot (r : string) (s : FSScanner) : FSScanner :=
  mkFSScanner (cache s) (scannedDirs s) (progress s) (exclusions s)
              (maxDepth s) r (cacheEntries s) (cacheLoaded s) (cachePath s)
              (cacheHiddenFlag s).

Definition setLoaded (entries : option (gmap string cacheEntry))
    (hidden loaded : bool) (s : FSScanner) : FSScanner :=
  mkFSScanner (cache s) (scannedDirs s) (progress s) (exclusions s)
              (maxDepth s) (root s) entries loaded (cachePath s) hidden.

(** [setProgress]. *)
Definition setProgress (ch : option (Chan ScanProgress)) (s : FSScanner)
  : FSScanner :=
  mkFSScanner (cache s) (scannedDirs s) ch (exclusions s) (maxDepth s)
              (root s) (cacheEntries s) (cacheLoaded s) (cachePath s)
              (cacheHiddenFlag s).

(** [cacheFilePath]. *)
Definition cacheFilePath (w : World) : error + string :=
  match userCacheDir w with
  | inl e => inl e
  | inr base => inr (Filepath.JoinList [base; "sweepfs"; "cache.json"])
  end.

Definition NewFSScanner (w : World) : FSScanner :=
  {| cache := ∅;
     scannedDirs := ∅;
     progress := None;
     exclusions := {[ ".git"; "node_modules"; ".cache" ]};
     maxDepth := 0;
     root := "";
     cacheEntries := None;
     cacheLoaded := false;
     cachePath := match cacheFilePath w with inl _ => "" | inr p => p end;
     cacheHiddenFlag := false |}.

Definition isExcluded (s : FSScanner) (name : string) : bool :=
  bool_decide (name ∈ exclusions s).

Definition isCached (s : FSScanner) (root : string) : bool :=
  default false (scannedDirs s !! root).

(** The loop [for key := range m { if isWithin(root, key) { delete(m, key) } }]. *)
Definition deleteWithin {A : Type} (root : string) (m : gmap string A)
  : gmap string A :=
  filter (fun kv => isWithin root kv.1 = false) m.

Definition Invalidate (w : World) (path : string) (s : FSScanner) : FSScanner :=
  let root := cleanPath w path in
  setCaches (deleteWithin root (cache s)) (deleteWithin root (scannedDirs s)) s.

(** [Snapshot]: every node is copied, so the index is the cache's value. *)
Definition Snapshot (rt : Runtime) (s : FSScanner) : TreeIndex :=
  let copyMap := cache s in
  let rootID :=
    if String.eqb (root s) "" then
      match filter (fun id => match copyMap !! id with
                              | Some node => String.eqb (ParentID node) ""
                              | None => false
                              end = true)
                   (rangeKeys rt loopSnapshot copyMap) with
      | id :: _ => id
      | [] => ""
      end
    else root s in
  {| Nodes := copyMap; RootID := rootID |}.

(** [replaceCache]. *)
Definition replaceCache (root : string) (nodes : NodeMap) (s : FSScanner)
  : FSScanner :=
  let cache1 := nodes ∪ deleteWithin root (cache s) in
  let dirs1 :=
    ((fun _ => true) <$> filter (fun kv => Type_ kv.2 = NodeDir) nodes)
      ∪ scannedDirs s in
  let parent := Filepath.Dir root in
  let cache2 :=
    if String.eqb parent root then cache1
    else match cache1 !! parent with
         | Some parentNode =>
             if containsID (ChildrenIDs parentNode) root then cache1
             else <[parent :=
                      setChildCount (add64 (ChildCount parentNode) 1)
                        (setChildrenIDs (ChildrenIDs parentNode ++ [root])
                                        parentNode)]> cache1
         | None => cache1
         end in
  setRoot root (setCaches cache2 dirs1 s).

(** [loadCache]. *)
Definition loadCache (w : World) (s : FSScanner) : FSScanner * option error :=
  if cacheLoaded s || String.eqb (cachePath s) "" then
    (setLoaded (cacheEntries s) (cacheHiddenFlag s) true s, None)
  else
    match disk w with
    | DiskMissing => (setLoaded (cacheEntries s) (cacheHiddenFlag s) true s, None)
    | DiskStatError e => (s, Some e)
    | DiskTooLarge => (s, Some (Errorf "cache too large"))
    | DiskReadError e => (s, Some e)
    | DiskBadJSON e => (s, Some e)
    | DiskFile cached =>
        if negb (cfVersion cached =? cacheVersion) then (s, None)
        else (setLoaded (cfEntries cached) (cfShowHidden cached) true s, None)
    end.

(** [saveCache]: the file is replaced when the entries marshal under the
    size cap and the write succeeds; every failure is ignored. *)
Definition saveCache (w : World) (s : FSScanner) (nodes : NodeMap)
    (showHidden : bool) : World :=
  if String.eqb (cachePath s) "" then w
  else
    let file := mkCacheFile cacheVersion showHidden (Some (toEntry <$> nodes)) in
    if diskWritable w file then setDisk (DiskFile file) w else w.

Definition cacheShowHidden (s : FSScanner) (showHidden : bool) : bool :=
  match cacheEntries s with
  | None => false
  | Some _ => Bool.eqb (cacheHiddenFlag s) showHidden
  end.

Definition canReuseRoot (w : World) (s : FSScanner) (path : string)
    (showHidden : bool) : bool :=
  match cacheEntries s with
  | None => false
  | Some entries =>
      match entries !! path with
      | None => false
      | Some entry =>
          if negb (bool_decide (ceType entry = NodeDir)) then false
          else if negb (cacheShowHidden s showHidden) then false
          else match statModTime w path with
               | inl _ => false
               | inr mtime => ceModTime entry =? mtime
               end
      end
  end.

Definition canReuseDir (s : FSScanner) (path : string) (entry : DirEntry)
    (showHidden : bool) : bool :=
  match cacheEntries s with
  | None => false
  | Some entries =>
      if negb (cacheShowHidden s showHidden) then false
      else match deInfo entry with
           | inl _ => false
           | inr mtime =>
               match entries !! path with
               | None => false
               | Some cached =>
                   if negb (bool_decide (ceType cached = NodeDir)) then false
                   else ceModTime cached =? mtime
               end
           end
  end.

(** The cached entries at or under [root], as nodes. *)
Definition cachedUnder (root : string) (entries : gmap string cacheEntry)
  : NodeMap :=
  toNode <$> filter (fun kv => hasPathPrefix root kv.1 = true) entries.

Definition cachedTree (s : FSScanner) (root : string) : NodeMap :=
  match cacheEntries s with
  | None => ∅
  | Some entries => cachedUnder root entries
  end.

Definition mergeCachedSubtree (s : FSScanner) (root : string)
    (nodes : NodeMap) : NodeMap :=
  match cacheEntries s with
  | None => nodes
  | Some entries => cachedUnder root entries ∪ nodes
  end.

(** ** The walk, the workers and the collector *)

(** [context.Context] as [Scan] polls it: what [ctx.Err()] returns at the
    n-th visit of the walk that reaches the check, and what it returns
    when a worker takes the n-th job. *)
Record Context := mkContext {
  errAtVisit : nat -> option error;
  errAtJob : nat -> option error
}.

Definition background : Context :=
  mkContext (fun _ => None) (fun _ => None).

(** A job carries its path; the model adds the outcome that the worker's
    [os.Lstat(job.path)] will have. *)
Record fileJob := mkFileJob {
  jobPath : string;
  jobLstat : error + Z
}.

Record fileResult := mkFileResult {
  frPath : string;
  frSize : Z;
  frErr : option error
}.

(** The variables the walk function of [Scan] closes over. *)
Record WalkState := mkWalkState {
  wsNodes : NodeMap;
  wsJobs : list fileJob;
  wsScanned : Z;
  wsProgress : Chan ScanProgress;
  wsPolls : nat
}.

Definition skipOf (entry : DirEntry) : WalkResult :=
  if deIsDir entry then WalkSkipDir else WalkOk.

(** The tail of the walk function: count the entry and report every 50th. *)
Definition countEntry (path : string) (nodes : NodeMap) (jobs : list fileJob)
    (st : WalkState) : WalkResult * WalkState :=
  let scannedCount := add64 (wsScanned st) 1 in
  let progress :=
    if Z.rem scannedCount 50 =? 0
    then progressNonBlocking (wsProgress st)
           (mkScanProgress path scannedCount false "" path)
    else wsProgress st in
  (WalkOk, mkWalkState nodes jobs scannedCount progress (wsPolls st)).

(** The function [Scan] passes to [filepath.WalkDir]. *)
Definition scanVisit (s : FSScanner) (ctx : Context) (req : ScanRequest)
    (root : string) (path : string) (call : WalkCall DirEntry) (st : WalkState)
  : WalkResult * WalkState :=
  match call with
  | VisitError _ err =>
      if isPermissionErr err then
        (WalkOk,
         mkWalkState (wsNodes st) (wsJobs st) (wsScanned st)
           (progressNonBlocking (wsProgress st)
              (mkScanProgress path (wsScanned st) false (errorText err) ""))
           (wsPolls st))
      else (WalkErr err, st)
  | VisitEntry entry =>
      let polls := wsPolls st in
      let st := mkWalkState (wsNodes st) (wsJobs st) (wsScanned st)
                            (wsProgress st) (Datatypes.S polls) in
      match errAtVisit ctx polls with
      | Some e => (WalkErr e, st)
      | None =>
          if negb (String.eqb path root)
             && (negb (ShowHidden req) && isHidden (deName entry))
          then (skipOf entry, st)
          else if negb (String.eqb path root)
                  && (negb (ShowHidden req) && isExcluded s (deName entry))
          then (skipOf entry, st)
          else if negb (String.eqb path root)
                  && ((maxDepth s >? 0) && (depthFrom root path >? maxDepth s))
          then (skipOf entry, st)
          else if deIsDir entry then
            if canReuseDir s path entry (ShowHidden req) then
              (WalkSkipDir,
               mkWalkState (mergeCachedSubtree s path (wsNodes st)) (wsJobs st)
                 (wsScanned st)
                 (progressNonBlocking (wsProgress st)
                    (mkScanProgress path (wsScanned st) false "" path))
                 (wsPolls st))
            else
              countEntry path
                (<[path := {| ID := path; Name := deName entry; Path := path;
                              Type_ := NodeDir; SizeBytes := 0; AccumBytes := 0;
                              ModTime := TimeZero;
                              ParentID := parentPath root path;
                              ChildrenIDs := []; ChildCount := 0;
                              FileCount := 0; DirCount := 0;
                              Scanned := true |}]> (wsNodes st))
                (wsJobs st) st
          else
            countEntry path
              (<[path := {| ID := path; Name := deName entry; Path := path;
                            Type_ := NodeFile; SizeBytes := 0; AccumBytes := 0;
                            ModTime := TimeZero;
                            ParentID := parentPath root path;
                            ChildrenIDs := []; ChildCount := 0;
                            FileCount := 0; DirCount := 0;
                            Scanned := false |}]> (wsNodes st))
              (wsJobs st ++ [mkFileJob path (deLstat entry)]) st
      end
  end.

(** [worker], for the whole pool: the job taken n-th is dropped when the
    worker that takes it finds the context done (and returns), and is
    answered with the outcome of [os.Lstat] otherwise. *)
Fixpoint worker (ctx : Context) (n : nat) (jobs : list fileJob)
  : list fileResult :=
  match jobs with
  | [] => []
  | job :: rest =>
      match errAtJob ctx n with
      | Some _ => worker ctx (Datatypes.S n) rest
      | None =>
          match jobLstat job with
          | inl err => mkFileResult (jobPath job) 0 (Some err)
          | inr size => mkFileResult (jobPath job) size None
          end :: worker ctx (Datatypes.S n) rest
      end
  end.

(** The collector goroutine's state: the nodes, the progress channel and
    [processed]. *)
Record Collector := mkCollector {
  coNodes : NodeMap;
  coProgress : Chan ScanProgress;
  coProcessed : Z
}.

(** The body of [for result := range results]. *)
Definition collectResult (root : string) (co : Collector) (result : fileResult)
  : Collector :=
  let processed := add64 (coProcessed co) 1 in
  let nodes :=
    match coNodes co !! frPath result, frErr result with
    | Some node, None =>
        <[frPath result :=
            setAccumBytes (frSize result) (setSizeBytes (frSize result) node)]>
          (coNodes co)
    | _, _ => coNodes co
    end in
  let progress :=
    if Z.rem processed 200 =? 0
    then progressNonBlocking (coProgress co)
           (mkScanProgress root processed false "" (frPath result))
    else coProgress co in
  mkCollector nodes progress processed.

Definition collect (root : string) (results : list fileResult)
    (nodes : NodeMap) (progress : Chan ScanProgress) : Collector :=
  fold_left (collectResult root) results (mkCollector nodes progress 0).

(** The root node [Scan] starts from. *)
Definition rootNodeOf (root : string) : Node :=
  let name := Filepath.Base root in
  {| ID := root;
     Name := if String.eqb name "." || String.eqb name "/" then root else name;
     Path := root; Type_ := NodeDir; SizeBytes := 0; AccumBytes := 0;
     ModTime := TimeZero; ParentID := ""; ChildrenIDs := []; ChildCount := 0;
     FileCount := 0; DirCount := 0; Scanned := true |}.

(** The walk phase of [Scan] with the file-size jobs answered: the walk's
    error, and the state collected. *)
Definition scanWalk (w : World) (ctx : Context) (req : ScanRequest)
    (s : FSScanner) (root : string) (progress : Chan ScanProgress)
  : option error * WalkState :=
  WalkDir (scanVisit s ctx req root) w root
          (mkWalkState {[ root := rootNodeOf root ]} [] 0 progress 0).

(** The nodes a pointer map shares with the cache, read again through the
    cache. *)
Definition sharedWith (c : NodeMap) (nodes : NodeMap) : NodeMap :=
  map_imap (fun key node => Some (default node (c !! key))) nodes.

(** The scanner with the progress channel closed ([defer close(progress)]). *)
Definition finish (ch : Chan ScanProgress) (s : FSScanner) : FSScanner :=
  setProgress (Some (closeChan ch)) s.

(** [Scan] from the walk on: what it does when neither the persisted nor
    the in-memory cache answers for the root. *)
Definition scanFull (rt : Runtime) (w : World) (ctx : Context)
    (req : ScanRequest) (s1 : FSScanner) (root : string)
  : Outcome (ScanResult * option error) * FSScanner * World :=
  let result := mkScanResult root (elapsed w) in
  let '(walkErr, st) := scanWalk w ctx req s1 root (makeChan 64) in
  let co := collect root (worker ctx 0 (wsJobs st)) (wsNodes st)
                    (wsProgress st) in
  match walkErr with
  | Some err => (Returned (result, Some err), finish (coProgress co) s1, w)
  | None =>
      let nodes := aggregate rt (coNodes co) in
      let s2 := replaceCache root nodes s1 in
      let w2 := saveCache w s2 (sharedWith (cache s2) nodes) (ShowHidden req) in
      match sendBlocking (receiving w) (coProgress co)
              (mkScanProgress root (wsScanned st) true "" "") with
      | None => (Blocked, setProgress (Some (coProgress co)) s2, w2)
      | Some ch => (Returned (result, None), finish ch s2, w2)
      end
  end.

(** [Scan]. *)
Definition Scan (rt : Runtime) (w : World) (ctx : Context) (req : ScanRequest)
    (s : FSScanner)
  : Outcome (ScanResult * option error) * FSScanner * World :=
  let root := cleanPath w (RootPath req) in
  let '(s1, loadErr) := loadCache w s in
  (* a load error is reported on the previous scan's channel *)
  let reported :=
    match loadErr, progress s1 with
    | Some _, Some ch => negb (chClosed ch)
    | _, _ => true
    end in
  if negb reported then (Panicked, s1, w)
  else
    let s1 :=
      match loadErr, progress s1 with
      | Some err, Some ch =>
          setProgress
            (Some (progressNonBlocking ch
                     (mkScanProgress root 0 false (errorText err) ""))) s1
      | _, _ => s1
      end in
    let result := mkScanResult root (elapsed w) in
    let sentinel :=
      progressNonBlocking (makeChan 64) (mkScanProgress root 0 true "" "") in
    if canReuseRoot w s1 root (ShowHidden req) then
      let nodes := cachedTree s1 root in
      (Returned (result, None), finish sentinel (replaceCache root nodes s1), w)
    else if isCached s1 root then
      (Returned (result, None), finish sentinel (setRoot root s1), w)
    else scanFull rt w ctx req s1 root.

(* ===================================================================== *)
(** * fs_actions.go: the file system the actions work on *)
(* ===================================================================== *)

(** What a regular file holds: bytes, or the members of a tar+gzip
    archive written by [backupCompressed]. *)
Inductive Content :=
| Bytes (data : string)
| TarGz (members : list (string * bool * Content)).

(** An object of the file system: a regular file or a directory, with its
    permission bits and modification time. *)
Inductive FsObject :=
| ObjFile (content : Content) (mode : Z) (mtime : Z)
| ObjDir (mode : Z) (mtime : Z).

Abbreviation Objects := (gmap string FsObject).

Definition isDirObj (o : FsObject) : bool :=
  match o with ObjDir _ _ => true | ObjFile _ _ _ => false end.

Definition modeOf (o : FsObject) : Z :=
  match o with ObjDir mode _ => mode | ObjFile _ mode _ => mode end.

Definition mtimeOf (o : FsObject) : Z :=
  match o with ObjDir _ mtime => mtime | ObjFile _ _ mtime => mtime end.

(** [os.Lstat] and [os.Stat] (there are no symbolic links). *)
Definition osLstat (fs : Objects) (path : string) : error + FsObject :=
  match fs !! path with
  | Some o => inr o
  | None => inl ErrNotExist
  end.

(** [exists]. *)
Definition exists_ (fs : Objects) (path : string) : bool :=
  match osLstat fs path with inr _ => true | inl _ => false end.

(** The paths directly inside [dir]. *)
Definition childPaths (fs : Objects) (dir : string) : list string :=
  filter (fun k => Filepath.Dir k = dir /\ k <> dir) (map_to_list fs).*1.

(** [fs.DirEntry] as the actions use it: the name and [IsDir()]. *)
Record ActionEntry := mkActionEntry {
  aeName : string;
  aeIsDir : bool
}.

(** [os.ReadDir]: the entries of [dir], sorted by name. *)
Definition osReadDir (fs : Objects) (dir : string) : error + list ActionEntry :=
  match fs !! dir with
  | None => inl ErrNotExist
  | Some (ObjFile _ _ _) => inl ErrNotDir
  | Some (ObjDir _ _) =>
      inr ((fun name =>
              mkActionEntry name
                (match fs !! Filepath.Join dir name with
                 | Some o => isDirObj o
                 | None => false
                 end))
             <$> insertionSort String.ltb (Filepath.Base <$> childPaths fs dir))
  end.

(** [os.Remove]. *)
Definition osRemove (fs : Objects) (path : string) : error + Objects :=
  match fs !! path with
  | None => inl ErrNotExist
  | Some (ObjFile _ _ _) => inr (delete path fs)
  | Some (ObjDir _ _) =>
      match childPaths fs path with
      | [] => inr (delete path fs)
      | _ => inl ErrNotEmpty
      end
  end.

(** The path and its ancestors, outermost first. *)
Definition prefixesOf (path : string) : list string :=
  let elems := filter (fun e => e <> "") (Filepath.split path) in
  let start := if Filepath.IsAbs path then "/" else "" in
  (if Filepath.IsAbs path then [start] else [])
    ++ (fix go (dir : string) (es : list string) : list string :=
          match es with
          | [] => []
          | e :: rest =>
              let p := Filepath.Join dir e in p :: go p rest
          end) start elems.

(** [os.MkdirAll]. *)
Definition osMkdirAll (now : Z) (fs : Objects) (path : string) (mode : Z)
  : error + Objects :=
  fold_left (fun acc p =>
               match acc with
               | inl e => inl e
               | inr fs1 =>
                   match fs1 !! p with
                   | Some (ObjDir _ _) => inr fs1
                   | Some (ObjFile _ _ _) => inl ErrNotDir
                   | None => inr (<[p := ObjDir mode now]> fs1)
                   end
               end) (prefixesOf path) (inr fs).

(** Whether a new entry can be made at [path]: its directory exists. *)
Definition parentReady (fs : Objects) (path : string) : option error :=
  match fs !! Filepath.Dir path with
  | Some (ObjDir _ _) => None
  | Some (ObjFile _ _ _) => Some ErrNotDir
  | None => Some ErrNotExist
  end.

(** [os.OpenFile(path, O_CREATE|O_WRONLY|O_EXCL, mode)], the copy of
    [content] into it, and [Close]. *)
Definition osCreateExcl (now : Z) (fs : Objects) (path : string)
    (content : Content) (mode : Z) : error + Objects :=
  match fs !! path with
  | Some _ => inl ErrExist
  | None =>
      match parentReady fs path with
      | Some e => inl e
      | None => inr (<[path := ObjFile content mode now]> fs)
      end
  end.

(** [os.Create]: the file is created or truncated. *)
Definition osCreate (now : Z) (fs : Objects) (path : string) : error + Objects :=
  match fs !! path with
  | Some (ObjDir _ _) => inl (Errorf "is a directory")
  | Some (ObjFile _ mode _) => inr (<[path := ObjFile (Bytes "") mode now]> fs)
  | None =>
      match parentReady fs path with
      | Some e => inl e
      | None => inr (<[path := ObjFile (Bytes "") 438 now]> fs)
      end
  end.

(** [os.Chtimes(path, _, mtime)]. *)
Definition osChtimes (fs : Objects) (path : string) (mtime : Z) : Objects :=
  match fs !! path with
  | Some (ObjFile c mode _) => <[path := ObjFile c mode mtime]> fs
  | Some (ObjDir mode _) => <[path := ObjDir mode mtime]> fs
  | None => fs
  end.

(** The new name, under [target], of a path at or under [source]. *)
Definition rebase (source target path : string) : string :=
  target ++ substring (String.length source)
                      (String.length path - String.length source) path.

(** [os.Rename]: a rename across devices fails with [EXDEV]; otherwise
    the object and everything under it move to [target]. *)
Definition osRename (crossDevice : string -> string -> bool) (fs : Objects)
    (source target : string) : error + Objects :=
  if crossDevice source target then inl EXDEV
  else
    match fs !! source with
    | None => inl ErrNotExist
    | Some _ =>
        match fs !! target with
        | Some _ => inl ErrExist
        | None =>
            match parentReady fs target with
            | Some e => inl e
            | None =>
                let moved := filter (fun kv => isWithin source kv.1 = true) fs in
                let kept := filter (fun kv => isWithin source kv.1 = false) fs in
                inr (list_to_map
                       (prod_map (rebase source target) id <$> map_to_list moved)
                       ∪ kept)
            end
        end
    end.

(* ===================================================================== *)
(** * fs_actions.go: requests, results and the engine's state *)
(* ===================================================================== *)

(** [ActionType] is a string type: the four declared operations, or any
    other string. *)
Inductive ActionType :=
| ActionDelete
| ActionMove
| ActionCopy
| ActionBackup
| ActionUnknown (name : string).

Global Instance ActionType_eq_dec : EqDecision ActionType.
Proof. solve_decision. Defined.

Record ActionRequest := mkActionRequest {
  reqType : ActionType;
  SourcePaths : list string;
  Destination : string;
  SafeMode : bool;
  ConfirmToken : string
}.

Record ActionResult := mkActionResult {
  resType : ActionType;
  SuccessCount : Z;
  FailureCount : Z;
  Duration : Z;
  Message : string;
  Errors : list string;
  Skipped : Z
}.

Record ActionProgress := mkActionProgress {
  apType : ActionType;
  apCurrent : string;
  apProcessed : Z;
  apTotal : Z;
  apCompleted : bool;
  apErrMessage : string
}.

Record FSActions := mkFSActions {
  actionsProgress : option (Chan ActionProgress)
}.

Definition NewFSActions : FSActions := mkFSActions None.

(** The operating system as the actions meet it. *)
Record ActionWorld := mkActionWorld {
  awCwd : error + string;                     (* os.Getwd *)
  awHome : error + string;                    (* os.UserHomeDir *)
  awCrossDevice : string -> string -> bool;   (* a rename between them is EXDEV *)
  awNow : Z;                                  (* time.Now *)
  awElapsed : Z;                              (* time.Since(start) *)
  awReceiving : bool;                         (* somebody receives from ActionProgress() *)
  awFs : Objects
}.

(** [ctx.Err()] at the n-th place an action polls it. *)
Record ActionContext := mkActionContext {
  ctxErrAt : nat -> option error
}.

Definition actionBackground : ActionContext := mkActionContext (fun _ => None).

(** What an operation works on: the file system, the progress channel
    and the number of context polls so far. *)
Record Env := mkEnv {
  envFs : Objects;
  envProgress : Chan ActionProgress;
  envPolls : nat
}.

Definition setFs (fs : Objects) (env : Env) : Env :=
  mkEnv fs (envProgress env) (envPolls env).

Definition pollCtx (ctx : ActionContext) (env : Env) : option error * Env :=
  (ctxErrAt ctx (envPolls env),
   mkEnv (envFs env) (envProgress env) (Datatypes.S (envPolls env))).

(** [actionProgressNonBlocking]. *)
Definition actionProgressNonBlocking (msg : ActionProgress) (env : Env) : Env :=
  mkEnv (envFs env) (sendNonBlocking (envProgress env) msg) (envPolls env).

Definition emptyResult (t : ActionType) : ActionResult :=
  mkActionResult t 0 0 0 "" [] 0.

(** [result.FailureCount++]. *)
Definition failed (r : ActionResult) : ActionResult :=
  mkActionResult (resType r) (SuccessCount r) (add64 (FailureCount r) 1)
                 (Duration r) (Message r) (Errors r) (Skipped r).

(** [result.SuccessCount++]. *)
Definition succeeded (r : ActionResult) : ActionResult :=
  mkActionResult (resType r) (add64 (SuccessCount r) 1) (FailureCount r)
                 (Duration r) (Message r) (Errors r) (Skipped r).

(** [result.Errors = append(result.Errors, msg)]. *)
Definition addError (msg : string) (r : ActionResult) : ActionResult :=
  mkActionResult (resType r) (SuccessCount r) (FailureCount r) (Duration r)
                 (Message r) (Errors r ++ [msg]) (Skipped r).

Definition withMessage (msg : string) (r : ActionResult) : ActionResult :=
  mkActionResult (resType r) (SuccessCount r) (FailureCount r) (Duration r)
                 msg (Errors r) (Skipped r).

Definition withDuration (d : Z) (r : ActionResult) : ActionResult :=
  mkActionResult (resType r) (SuccessCount r) (FailureCount r) d
                 (Message r) (Errors r) (Skipped r).

Definition processedOf (r : ActionResult) : Z :=
  add64 (SuccessCount r) (FailureCount r).

(** Progress after an item: [Processed] is the two counters' sum. *)
Definition reportItem (t : ActionType) (current : string) (r : ActionResult)
    (env : Env) : Env :=
  actionProgressNonBlocking
    (mkActionProgress t current (processedOf r) 0 false "") env.

(** [filepath.Abs] in the actions' world. *)
Definition actionAbs (w : ActionWorld) (path : string) : error + string :=
  if Filepath.IsAbs path then inr (Filepath.Clean path)
  else match awCwd w with
       | inl e => inl e
       | inr wd => inr (Filepath.Join wd path)
       end.

(** [normalizePaths]. *)
Definition normalizePaths (w : ActionWorld) (paths : list string)
  : error + list string :=
  (fix loop (paths : list string) (seen : gset string) (result : list string)
     : error + list string :=
     match paths with
     | [] => inr result
     | path :: rest =>
         if String.eqb path "" then loop rest seen result
         else match actionAbs w path with
              | inl err => inl err
              | inr abs =>
                  let clean := Filepath.Clean abs in
                  if bool_decide (clean ∈ seen) then loop rest seen result
                  else loop rest ({[ clean ]} ∪ seen) (result ++ [clean])%list
              end
     end) paths ∅ [].

(** [isCriticalPath]. *)
Definition isCriticalPath (w : ActionWorld) (path : string) : bool :=
  let path := Filepath.Clean path in
  let critical :=
    (["/"; "/etc"; "/usr"; "/var"]
       ++ match awHome w with inr home => [home] | inl _ => [] end)%list in
  existsb (fun root =>
             let root := Filepath.Clean root in
             String.eqb path root || Filepath.HasPrefix path (root ++ "/"))
          critical.

(** [validateRequest]. *)
Definition validateRequest (w : ActionWorld) (req : ActionRequest)
    (paths : list string) : option error :=
  match paths with
  | [] => Some (Errorf "no sources provided")
  | _ =>
      if (bool_decide (reqType req = ActionMove)
          || bool_decide (reqType req = ActionCopy)
          || bool_decide (reqType req = ActionBackup))
         && String.eqb (Destination req) ""
      then Some (Errorf "destination required")
      else if SafeMode req && bool_decide (reqType req = ActionDelete) then
        match filter (fun path => isCriticalPath w path = true) paths with
        | path :: _ => Some (Errorf ("blocked critical path: " ++ path))
        | [] => None
        end
      else None
  end.

(** The loop of [requireConfirmation] over the sources of a delete. *)
Fixpoint recursiveCheck (fs : Objects) (token : string) (paths : list string)
  : option error :=
  match paths with
  | [] => None
  | path :: rest =>
      match osLstat fs path with
      | inr info =>
          if isDirObj info && negb (String.eqb token "confirm-recursive")
          then Some (Errorf "recursive delete requires confirmation")
          else recursiveCheck fs token rest
      | inl _ => recursiveCheck fs token rest
      end
  end.

(** [requireConfirmation]. *)
Definition requireConfirmation (fs : Objects) (req : ActionRequest)
    (paths : list string) : option error :=
  if negb (bool_decide (reqType req = ActionDelete))
     && negb (bool_decide (reqType req = ActionMove))
  then None
  else if String.eqb (ConfirmToken req) "confirm" then None
  else if bool_decide (reqType req = ActionDelete) then
    match recursiveCheck fs (ConfirmToken req) paths with
    | Some err => Some err
    | None =>
        if String.eqb (ConfirmToken req) "confirm-recursive" then None
        else Some (Errorf "delete confirmation required")
    end
  else Some (Errorf "confirmation required").

(** [resolveDestination]. *)
Definition resolveDestination (w : ActionWorld) (fs : Objects)
    (destination : string) (sources : list string)
  : error + (string * bool) :=
  if String.eqb destination "" then inl (Errorf "destination required")
  else match actionAbs w destination with
       | inl err => inl err
       | inr abs =>
           match osLstat fs abs with
           | inr (ObjDir _ _) => inr (abs, true)
           | _ =>
               if (1 <? length sources)%nat
               then inl (Errorf "destination must be a directory for multiple sources")
               else inr (abs, false)
           end
       end.

(** ** Walking the actions' file system

    The directories are read from the current file system while the walk
    runs, so the recursion is bounded by [fuel]; [None] is "out of fuel". *)

Section ActionWalk.
Context {S : Type}.
Variable fsOf : S -> Objects.

Section WalkDirFn.
Variable fn : string -> WalkCall ActionEntry -> S -> WalkResult * S.

Fixpoint actionWalkDir (fuel : nat) (path : string) (d : ActionEntry)
    (st : S) : option (WalkResult * S) :=
  match fuel with
  | O => None
  | Datatypes.S fuel' =>
      match fn path (VisitEntry d) st with
      | (WalkSkipDir, st1) =>
          Some (if aeIsDir d then WalkOk else WalkSkipDir, st1)
      | (WalkErr e, st1) => Some (WalkErr e, st1)
      | (WalkOk, st1) =>
          if negb (aeIsDir d) then Some (WalkOk, st1)
          else
            let '(dirs, r2, st2) :=
              match osReadDir (fsOf st1) path with
              | inl e =>
                  let '(r, st') := fn path (VisitError (Some d) e) st1 in
                  ([], r, st')
              | inr dirs => (dirs, WalkOk, st1)
              end in
            match r2 with
            | WalkSkipDir => Some (WalkOk, st2)
            | WalkErr e => Some (WalkErr e, st2)
            | WalkOk =>
                (fix walkEntries (ds : list ActionEntry) (st : S)
                   : option (WalkResult * S) :=
                   match ds with
                   | [] => Some (WalkOk, st)
                   | d1 :: rest =>
                       match actionWalkDir fuel'
                               (Filepath.Join path (aeName d1)) d1 st with
                       | None => None
                       | Some (WalkOk, st') => walkEntries rest st'
                       | Some (WalkSkipDir, st') => Some (WalkOk, st')
                       | Some (WalkErr e, st') => Some (WalkErr e, st')
                       end
                   end) dirs st2
            end
      end
  end.

(** [filepath.WalkDir]. *)
Definition actionWalk (fuel : nat) (root : string) (st : S)
  : option (option error * S) :=
  let walked :=
    match osLstat (fsOf st) root with
    | inl e => Some (fn root (VisitError None e) st)
    | inr info =>
        actionWalkDir fuel root
          (mkActionEntry (Filepath.Base root) (isDirObj info)) st
    end in
  match walked with
  | None => None
  | Some (WalkErr e, st') => Some (Some e, st')
  | Some (_, st') => Some (None, st')
  end.
End WalkDirFn.

Section WalkFn.
(** The function of [filepath.Walk] gets the [os.FileInfo] (absent
    when [os.Lstat] failed) and an error. *)
Variable fn : string -> option FsObject -> option error -> S -> WalkResult * S.

Fixpoint legacyWalk (fuel : nat) (path : string) (info : FsObject) (st : S)
  : option (WalkResult * S) :=
  match fuel with
  | O => None
  | Datatypes.S fuel' =>
      if negb (isDirObj info) then Some (fn path (Some info) None st)
      else
        let names := osReadDir (fsOf st) path in
        let err := match names with inl e => Some e | inr _ => None end in
        match fn path (Some info) err st, names with
        | (WalkOk, st1), inr dirs =>
            (fix walkNames (ds : list ActionEntry) (st : S)
               : option (WalkResult * S) :=
               match ds with
               | [] => Some (WalkOk, st)
               | d1 :: rest =>
                   let filename := Filepath.Join path (aeName d1) in
                   match osLstat (fsOf st) filename with
                   | inl e =>
                       match fn filename None (Some e) st with
                       | (WalkErr e', st') => Some (WalkErr e', st')
                       | (_, st') => walkNames rest st'
                       end
                   | inr fileInfo =>
                       match legacyWalk fuel' filename fileInfo st with
                       | None => None
                       | Some (WalkOk, st') => walkNames rest st'
                       | Some (WalkSkipDir, st') =>
                           if isDirObj fileInfo then walkNames rest st'
                           else Some (WalkSkipDir, st')
                       | Some (WalkErr e, st') => Some (WalkErr e, st')
                       end
                   end
               end) dirs st1
        | (r, st1), _ => Some (r, st1)
        end
  end.

(** [filepath.Walk]. *)
Definition actionLegacyWalk (fuel : nat) (root : string) (st : S)
  : option (option error * S) :=
  let walked :=
    match osLstat (fsOf st) root with
    | inl e => Some (fn root None (Some e) st)
    | inr info => legacyWalk fuel root info st
    end in
  match walked with
  | None => None
  | Some (WalkErr e, st') => Some (Some e, st')
  | Some (_, st') => Some (None, st')
  end.
End WalkFn.
End ActionWalk.

(** ** Delete *)

(** The variables the walk function of [deleteDirectory] closes over. *)
Record DeleteState := mkDeleteState {
  dsDirs : list string;
  dsResult : ActionResult;
  dsEnv : Env
}.

Definition deleteVisit (ctx : ActionContext) (child : string)
    (call : WalkCall ActionEntry) (st : DeleteState) : WalkResult * DeleteState :=
  match call with
  | VisitError _ _ =>
      (WalkOk, mkDeleteState (dsDirs st) (failed (dsResult st)) (dsEnv st))
  | VisitEntry entry =>
      let '(cerr, env) := pollCtx ctx (dsEnv st) in
      match cerr with
      | Some e => (WalkErr e, mkDeleteState (dsDirs st) (dsResult st) env)
      | None =>
          if aeIsDir entry then
            (WalkOk, mkDeleteState (dsDirs st ++ [child]) (dsResult st) env)
          else
            match osRemove (envFs env) child with
            | inl err =>
                (WalkOk,
                 mkDeleteState (dsDirs st)
                   (addError (errorText err) (failed (dsResult st))) env)
            | inr fs' =>
                let result := succeeded (dsResult st) in
                (WalkOk,
                 mkDeleteState (dsDirs st) result
                   (reportItem ActionDelete child result (setFs fs' env)))
            end
      end
  end.

(** The second loop of [deleteDirectory]: the directories, last found
    first. *)
Fixpoint removeDirs (ctx : ActionContext) (dirs : list string)
    (result : ActionResult) (env : Env) : option error * ActionResult * Env :=
  match dirs with
  | [] => (None, result, env)
  | dir :: rest =>
      let '(cerr, env) := pollCtx ctx env in
      match cerr with
      | Some e => (Some e, result, env)
      | None =>
          match osRemove (envFs env) dir with
          | inl err =>
              removeDirs ctx rest (addError (errorText err) (failed result)) env
          | inr fs' =>
              let result := succeeded result in
              removeDirs ctx rest result
                         (reportItem ActionDelete dir result (setFs fs' env))
          end
      end
  end.

(** [deleteDirectory]. *)
Definition deleteDirectory (ctx : ActionContext) (fuel : nat) (path : string)
    (result : ActionResult) (env : Env)
  : option (option error * ActionResult * Env) :=
  match actionWalk (fun st => envFs (dsEnv st)) (deleteVisit ctx) fuel path
                   (mkDeleteState [] result env) with
  | None => None
  | Some (walkErr, st) =>
      match walkErr with
      | Some e =>
          if bool_decide (e = Canceled)
          then Some (removeDirs ctx (rev (dsDirs st)) (dsResult st) (dsEnv st))
          else Some (Some e, dsResult st, dsEnv st)
      | None => Some (removeDirs ctx (rev (dsDirs st)) (dsResult st) (dsEnv st))
      end
  end.

(** The loop of [deletePaths]. *)
Fixpoint deleteLoop (ctx : ActionContext) (fuel : nat) (paths : list string)
    (result : ActionResult) (env : Env) : option (ActionResult * Env) :=
  match paths with
  | [] => Some (withMessage "delete complete" result, env)
  | path :: rest =>
      let '(cerr, env) := pollCtx ctx env in
      match cerr with
      | Some _ => Some (withMessage "delete cancelled" result, env)
      | None =>
          match osLstat (envFs env) path with
          | inl err =>
              deleteLoop ctx fuel rest
                         (addError (errorText err) (failed result)) env
          | inr info =>
              if isDirObj info then
                match deleteDirectory ctx fuel path result env with
                | None => None
                | Some (Some err, result, env) =>
                    deleteLoop ctx fuel rest (addError (errorText err) result) env
                | Some (None, result, env) => deleteLoop ctx fuel rest result env
                end
              else
                match osRemove (envFs env) path with
                | inl err =>
                    deleteLoop ctx fuel rest
                               (addError (errorText err) (failed result)) env
                | inr fs' =>
                    let result := succeeded result in
                    deleteLoop ctx fuel rest result
                               (reportItem ActionDelete path result (setFs fs' env))
                end
          end
      end
  end.

(** [deletePaths]. *)
Definition deletePaths (ctx : ActionContext) (fuel : nat) (paths : list string)
    (env : Env) : option (ActionResult * Env) :=
  deleteLoop ctx fuel paths (emptyResult ActionDelete) env.

(** ** Copy and move *)

(** [copyFile]. *)
Definition copyFile (w : ActionWorld) (ctx : ActionContext)
    (source target : string) (info : FsObject) (actionType : ActionType)
    (env : Env) : option error * Env :=
  let '(cerr, env) := pollCtx ctx env in
  match cerr with
  | Some e => (Some e, env)
  | None =>
      match osMkdirAll (awNow w) (envFs env) (Filepath.Dir target) 493 with
      | inl err => (Some err, env)
      | inr fs1 =>
          let env := setFs fs1 env in
          match osLstat fs1 source with
          | inl err => (Some err, env)
          | inr (ObjDir _ _) =>
              (* the target is created, then reading the directory fails *)
              match osCreateExcl (awNow w) fs1 target (Bytes "") (modeOf info) with
              | inl err => (Some err, env)
              | inr fs2 => (Some (Errorf "is a directory"), setFs fs2 env)
              end
          | inr (ObjFile content _ _) =>
              match osCreateExcl (awNow w) fs1 target content (modeOf info) with
              | inl err => (Some err, env)
              | inr fs2 =>
                  let fs3 := osChtimes fs2 target (mtimeOf info) in
                  (None,
                   actionProgressNonBlocking
                     (mkActionProgress actionType target 0 0 false "")
                     (setFs fs3 env))
              end
          end
      end
  end.

(** The walk function of [copyDirectory]. *)
Definition copyVisit (w : ActionWorld) (ctx : ActionContext)
    (source target : string) (actionType : ActionType)
    (path : string) (call : WalkCall ActionEntry) (env : Env)
  : WalkResult * Env :=
  match call with
  | VisitError _ err => (WalkErr err, env)
  | VisitEntry entry =>
      let '(cerr, env) := pollCtx ctx env in
      match cerr with
      | Some e => (WalkErr e, env)
      | None =>
          match Filepath.Rel source path with
          | None => (WalkErr (Errorf "Rel: can't make path relative"), env)
          | Some rel =>
              if String.eqb rel "." then (WalkOk, env)
              else
                let outPath := Filepath.Join target rel in
                match osLstat (envFs env) path with
                | inl err => (WalkErr err, env)
                | inr info =>
                    if aeIsDir entry then
                      match osMkdirAll (awNow w) (envFs env) outPath (modeOf info) with
                      | inl err => (WalkErr err, env)
                      | inr fs' => (WalkOk, setFs fs' env)
                      end
                    else
                      match copyFile w ctx path outPath info actionType env with
                      | (Some err, env') => (WalkErr err, env')
                      | (None, env') => (WalkOk, env')
                      end
                end
          end
      end
  end.

(** [copyDirectory]. *)
Definition copyDirectory (w : ActionWorld) (ctx : ActionContext) (fuel : nat)
    (source target : string) (mode : Z) (actionType : ActionType) (env : Env)
  : option (option error * Env) :=
  match osMkdirAll (awNow w) (envFs env) target mode with
  | inl err => Some (Some err, env)
  | inr fs' =>
      actionWalk envFs (copyVisit w ctx source target actionType) fuel source
                 (setFs fs' env)
  end.

(** [copyPath]. *)
Definition copyPath (w : ActionWorld) (ctx : ActionContext) (fuel : nat)
    (source target : string) (actionType : ActionType) (env : Env)
  : option (option error * Env) :=
  match osLstat (envFs env) source with
  | inl err => Some (Some err, env)
  | inr info =>
      if isDirObj info
      then copyDirectory w ctx fuel source target (modeOf info) actionType env
      else Some (copyFile w ctx source target info actionType env)
  end.

Definition targetOf (resolvedDest : string) (destDir : bool) (source : string)
  : string :=
  if destDir then Filepath.Join resolvedDest (Filepath.Base source)
  else resolvedDest.

(** The loop of [movePaths]. *)
Fixpoint moveLoop (w : ActionWorld) (ctx : ActionContext) (fuel : nat)
    (resolvedDest : string) (destDir : bool) (paths : list string)
    (result : ActionResult) (env : Env) : option (ActionResult * Env) :=
  match paths with
  | [] => Some (withMessage "move complete" result, env)
  | source :: rest =>
      let '(cerr, env) := pollCtx ctx env in
      match cerr with
      | Some _ => Some (withMessage "move cancelled" result, env)
      | None =>
          let target := targetOf resolvedDest destDir source in
          if exists_ (envFs env) target then
            moveLoop w ctx fuel resolvedDest destDir rest
                     (addError ("target exists: " ++ target) (failed result)) env
          else
            match osRename (awCrossDevice w) (envFs env) source target with
            | inr fs' =>
                let result := succeeded result in
                moveLoop w ctx fuel resolvedDest destDir rest result
                         (reportItem ActionMove target result (setFs fs' env))
            | inl err =>
                if negb (bool_decide (err = EXDEV)) then
                  moveLoop w ctx fuel resolvedDest destDir rest
                           (addError (errorText err) (failed result)) env
                else
                  match copyPath w ctx fuel source target ActionMove env with
                  | None => None
                  | Some (Some cerr, env) =>
                      moveLoop w ctx fuel resolvedDest destDir rest
                               (addError (errorText cerr) (failed result)) env
                  | Some (None, env) =>
                      match deletePaths ctx fuel [source] env with
                      | None => None
                      | Some (_, env) =>
                          moveLoop w ctx fuel resolvedDest destDir rest
                                   (succeeded result) env
                      end
                  end
            end
      end
  end.

(** [movePaths]. *)
Definition movePaths (w : ActionWorld) (ctx : ActionContext) (fuel : nat)
    (paths : list string) (destination : string) (env : Env)
  : option (ActionResult * Env) :=
  let result := emptyResult ActionMove in
  match resolveDestination w (envFs env) destination paths with
  | inl err =>
      Some (withMessage "move failed" (addError (errorText err) result), env)
  | inr (resolvedDest, destDir) =>
      moveLoop w ctx fuel resolvedDest destDir paths result env
  end.

(** The loop of [copyPaths]. *)
Fixpoint copyLoop (w : ActionWorld) (ctx : ActionContext) (fuel : nat)
    (resolvedDest : string) (destDir : bool) (paths : list string)
    (result : ActionResult) (env : Env) : option (ActionResult * Env) :=
  match paths with
  | [] => Some (withMessage "copy complete" result, env)
  | source :: rest =>
      let '(cerr, env) := pollCtx ctx env in
      match cerr with
      | Some _ => Some (withMessage "copy cancelled" result, env)
      | None =>
          let target := targetOf resolvedDest destDir source in
          if exists_ (envFs env) target then
            copyLoop w ctx fuel resolvedDest destDir rest
                     (addError ("target exists: " ++ target) (failed result)) env
          else
            match copyPath w ctx fuel source target ActionCopy env with
            | None => None
            | Some (Some err, env) =>
                copyLoop w ctx fuel resolvedDest destDir rest
                         (addError (errorText err) (failed result)) env
            | Some (None, env) =>
                let result := succeeded result in
                copyLoop w ctx fuel resolvedDest destDir rest result
                         (reportItem ActionCopy target result env)
            end
      end
  end.

(** [copyPaths]. *)
Definition copyPaths (w : ActionWorld) (ctx : ActionContext) (fuel : nat)
    (paths : list string) (destination : string) (env : Env)
  : option (ActionResult * Env) :=
  let result := emptyResult ActionCopy in
  match resolveDestination w (envFs env) destination paths with
  | inl err =>
      Some (withMessage "copy failed" (addError (errorText err) result), env)
  | inr (resolvedDest, destDir) =>
      copyLoop w ctx fuel resolvedDest destDir paths result env
  end.

(** ** Backup *)

(** The loop of [backupCopy]. *)
Fixpoint backupCopyLoop (w : ActionWorld) (ctx : ActionContext) (fuel : nat)
    (backupRoot : string) (paths : list string) (result : ActionResult)
    (env : Env) : option (ActionResult * Env) :=
  match paths with
  | [] => Some (withMessage ("backup complete: " ++ backupRoot) result, env)
  | source :: rest =>
      let '(cerr, env) := pollCtx ctx env in
      match cerr with
      | Some _ => Some (withMessage "backup cancelled" result, env)
      | None =>
          let target := Filepath.Join backupRoot (Filepath.Base source) in
          match copyPath w ctx fuel source target ActionBackup env with
          | None => None
          | Some (Some err, env) =>
              backupCopyLoop w ctx fuel backupRoot rest
                             (addError (errorText err) (failed result)) env
          | Some (None, env) =>
              let result := succeeded result in
              backupCopyLoop w ctx fuel backupRoot rest result
                             (reportItem ActionBackup target result env)
          end
      end
  end.

Definition backupFailed (msg : string) : ActionResult :=
  withMessage "backup failed" (addError msg (emptyResult ActionBackup)).

(** [backupCopy]. *)
Definition backupCopy (w : ActionWorld) (ctx : ActionContext) (fuel : nat)
    (paths : list string) (destination : string) (env : Env)
  : option (ActionResult * Env) :=
  match actionAbs w destination with
  | inl err => Some (backupFailed (errorText err), env)
  | inr backupRoot =>
      if exists_ (envFs env) backupRoot
      then Some (backupFailed "backup destination exists", env)
      else
        match osMkdirAll (awNow w) (envFs env) backupRoot 493 with
        | inl err => Some (backupFailed (errorText err), env)
        | inr fs' =>
            backupCopyLoop w ctx fuel backupRoot paths
                           (emptyResult ActionBackup) (setFs fs' env)
        end
  end.

(** The tar writer and what the walk function of [addToArchive] closes
    over. *)
Record ArchiveState := mkArchiveState {
  asMembers : list (string * bool * Content);
  asResult : ActionResult;
  asEnv : Env
}.

Definition archiveFailure (err : error) (st : ArchiveState) : ArchiveState :=
  mkArchiveState (asMembers st)
                 (failed (addError (errorText err) (asResult st))) (asEnv st).

(** The walk function of [addToArchive]. *)
Definition archiveVisit (ctx : ActionContext) (source base : string)
    (path : string) (info : option FsObject) (err : option error)
    (st : ArchiveState) : WalkResult * ArchiveState :=
  match err, info with
  | Some e, _ => (WalkOk, archiveFailure e st)
  | None, None => (WalkOk, st)
  | None, Some info =>
      let '(cerr, env) := pollCtx ctx (asEnv st) in
      let st := mkArchiveState (asMembers st) (asResult st) env in
      match cerr with
      | Some e => (WalkErr e, st)
      | None =>
          match Filepath.Rel source path with
          | None =>
              (WalkOk, archiveFailure (Errorf "Rel: can't make path relative") st)
          | Some rel =>
              let name := Filepath.Join base rel in
              let name :=
                if isDirObj info && negb (Filepath.HasSuffix name "/")
                then name ++ "/" else name in
              match info with
              | ObjDir _ _ =>
                  (WalkOk,
                   mkArchiveState (asMembers st ++ [(name, true, Bytes "")])
                                  (asResult st) env)
              | ObjFile _ _ _ =>
                  let st1 :=
                    mkArchiveState (asMembers st) (asResult st) env in
                  match osLstat (envFs env) path with
                  | inl e =>
                      (WalkOk,
                       archiveFailure e
                         (mkArchiveState
                            (asMembers st ++ [(name, false, Bytes "")])
                            (asResult st) env))
                  | inr (ObjDir _ _) =>
                      (WalkOk,
                       archiveFailure (Errorf "is a directory")
                         (mkArchiveState
                            (asMembers st ++ [(name, false, Bytes "")])
                            (asResult st) env))
                  | inr (ObjFile content _ _) =>
                      let result := succeeded (asResult st) in
                      (WalkOk,
                       mkArchiveState
                         (asMembers st ++ [(name, false, content)]) result
                         (reportItem ActionBackup path result env))
                  end
              end
          end
      end
  end.

(** [addToArchive]. *)
Definition addToArchive (ctx : ActionContext) (fuel : nat)
    (source base : string) (st : ArchiveState)
  : option (option error * ArchiveState) :=
  actionLegacyWalk (fun st => envFs (asEnv st)) (archiveVisit ctx source base)
                   fuel source st.

(** The loop of [backupCompressed]. *)
Fixpoint archiveLoop (ctx : ActionContext) (fuel : nat) (archivePath : string)
    (paths : list string) (st : ArchiveState) : option ArchiveState :=
  match paths with
  | [] =>
      Some (mkArchiveState (asMembers st)
              (withMessage ("backup complete: " ++ archivePath) (asResult st))
              (asEnv st))
  | source :: rest =>
      let '(cerr, env) := pollCtx ctx (asEnv st) in
      let st := mkArchiveState (asMembers st) (asResult st) env in
      match cerr with
      | Some _ =>
          Some (mkArchiveState (asMembers st)
                  (withMessage "backup cancelled" (asResult st)) env)
      | None =>
          match addToArchive ctx fuel source (Filepath.Base source) st with
          | None => None
          | Some (Some err, st') =>
              archiveLoop ctx fuel archivePath rest
                (mkArchiveState (asMembers st')
                   (failed (addError (errorText err) (asResult st')))
                   (asEnv st'))
          | Some (None, st') => archiveLoop ctx fuel archivePath rest st'
          end
      end
  end.

(** The deferred [Close] calls: the archive file receives the members. *)
Definition closeArchive (archivePath : string) (st : ArchiveState) : Env :=
  let fs := envFs (asEnv st) in
  match fs !! archivePath with
  | Some (ObjFile _ mode mtime) =>
      setFs (<[archivePath := ObjFile (TarGz (asMembers st)) mode mtime]> fs)
            (asEnv st)
  | _ => asEnv st
  end.

(** [backupCompressed]. *)
Definition backupCompressed (w : ActionWorld) (ctx : ActionContext)
    (fuel : nat) (paths : list string) (destination : string) (env : Env)
  : option (ActionResult * Env) :=
  match actionAbs w destination with
  | inl err => Some (backupFailed (errorText err), env)
  | inr archivePath =>
      if exists_ (envFs env) archivePath
      then Some (backupFailed "backup archive exists", env)
      else
        match osMkdirAll (awNow w) (envFs env) (Filepath.Dir archivePath) 493 with
        | inl err => Some (backupFailed (errorText err), env)
        | inr fs1 =>
            match osCreate (awNow w) fs1 archivePath with
            | inl err => Some (backupFailed (errorText err), setFs fs1 env)
            | inr fs2 =>
                match archiveLoop ctx fuel archivePath paths
                        (mkArchiveState [] (emptyResult ActionBackup)
                                        (setFs fs2 env)) with
                | None => None
                | Some st => Some (asResult st, closeArchive archivePath st)
                end
            end
        end
  end.

(** [backupPaths]. *)
Definition backupPaths (w : ActionWorld) (ctx : ActionContext) (fuel : nat)
    (paths : list string) (destination : string) (env : Env)
  : option (ActionResult * Env) :=
  if String.eqb destination "" then
    Some (backupFailed "destination required", env)
  else if Filepath.HasSuffix destination ".tar.gz" then
    backupCompressed w ctx fuel paths destination env
  else backupCopy w ctx fuel paths destination env.

(** ** Execute *)

Definition setActionFs (fs : Objects) (w : ActionWorld) : ActionWorld :=
  mkActionWorld (awCwd w) (awHome w) (awCrossDevice w) (awNow w) (awElapsed w)
                (awReceiving w) fs.

(** [Execute].  [None] is "out of fuel"; otherwise the outcome of the
    call, the engine and the world after it. *)
Definition Execute (w : ActionWorld) (ctx : ActionContext) (fuel : nat)
    (req : ActionRequest) (actions : FSActions)
  : option (Outcome (ActionResult * option error) * FSActions * ActionWorld) :=
  let early (err : error) :=
    Some (Returned (emptyResult (reqType req), Some err), actions, w) in
  match normalizePaths w (SourcePaths req) with
  | inl err => early err
  | inr paths =>
      match validateRequest w req paths with
      | Some err => early err
      | None =>
          match requireConfirmation (awFs w) req paths with
          | Some err => early err
          | None =>
              let env := mkEnv (awFs w) (makeChan 64) 0 in
              let closed (env : Env) :=
                mkFSActions (Some (closeChan (envProgress env))) in
              let ran :=
                match reqType req with
                | ActionDelete => Some (deletePaths ctx fuel paths env)
                | ActionMove =>
                    Some (movePaths w ctx fuel paths (Destination req) env)
                | ActionCopy =>
                    Some (copyPaths w ctx fuel paths (Destination req) env)
                | ActionBackup =>
                    Some (backupPaths w ctx fuel paths (Destination req) env)
                | ActionUnknown _ => None
                end in
              match ran with
              | None =>
                  Some (Returned (emptyResult (reqType req),
                                  Some (Errorf "unsupported action")),
                        closed env, w)
              | Some None => None
              | Some (Some (result, env)) =>
                  let result := withDuration (awElapsed w) result in
                  let w' := setActionFs (envFs env) w in
                  match sendBlocking (awReceiving w) (envProgress env)
                          (mkActionProgress (reqType req) "" (processedOf result)
                                            0 true "") with
                  | None =>
                      Some (Blocked, mkFSActions (Some (envProgress env)), w')
                  | Some ch =>
                      Some (Returned (result, None),
                            mkFSActions (Some (closeChan ch)), w')
                  end
              end
          end
      end
  end.

(* ===================================================================== *)
(** * Properties of the scanner's cache *)
(* ===================================================================== *)

Lemma append_cons (c : ascii) (a b : string) :
  String c a ++ b = String c (a ++ b).
Proof. reflexivity. Qed.

Lemma append_assoc (a b c : string) : (a ++ b) ++ c = a ++ (b ++ c).
Proof.
  induction a as [|x a IH]; [reflexivity |].
  rewrite !append_cons. by rewrite IH.
Qed.

Lemma prefix_spec (p s : string) :
  String.prefix p s = true <-> exists rest, s = p ++ rest.
Proof.
  revert s. induction p as [|c p IH]; intros s.
  - destruct s; simpl; (split; [intros _; by eexists | done]).
  - destruct s as [|d s]; simpl.
    + split; [done | intros [rest H]; discriminate].
    + destruct (Ascii.ascii_dec c d) as [Heq|Hne].
      * subst d. rewrite IH. split; intros [rest H]; exists rest.
        -- rewrite append_cons. congruence.
        -- rewrite append_cons in H. congruence.
      * split; [done | intros [rest H]; rewrite append_cons in H; congruence].
Qed.

(** [isWithin] is the separator-bounded prefix match. *)
Lemma isWithin_spec (root path : string) :
  isWithin root path = true <->
  path = root \/ exists rest, path = root ++ "/" ++ rest.
Proof.
  unfold isWithin, Filepath.HasPrefix.
  destruct (String.eqb_spec root path) as [->|Hne].
  - split; auto.
  - rewrite prefix_spec. split.
    + intros [rest H]. right. exists rest. rewrite H.
      by rewrite append_assoc.
    + intros [H | [rest H]]; [congruence |].
      exists rest. rewrite H. by rewrite append_assoc.
Qed.

Lemma deleteWithin_lookup {A : Type} (root key : string) (m : gmap string A) :
  deleteWithin root m !! key = if isWithin root key then None else m !! key.
Proof.
  unfold deleteWithin.
  destruct (isWithin root key) eqn:Hw.
  - apply map_lookup_filter_None. right. intros x _. simpl. congruence.
  - destruct (m !! key) as [x|] eqn:Hm.
    + apply map_lookup_filter_Some. done.
    + apply map_lookup_filter_None. by left.
Qed.

(** [Invalidate(p)] removes from the cache (and from the set of scanned
    directories) exactly the keys that [isWithin] accepts for the
    normalised [p]: the keys that equal it or extend it by a separator
    and more; every other key keeps its node. *)
Theorem Invalidate_removes_exactly_the_subtree
    (w : World) (p : string) (s : FSScanner) (key : string) :
  let root := cleanPath w p in
  (isWithin root key = true <->
     key = root \/ exists rest, key = root ++ "/" ++ rest)
  /\ cache (Invalidate w p s) !! key
     = (if isWithin root key then None else cache s !! key)
  /\ scannedDirs (Invalidate w p s) !! key
     = (if isWithin root key then None else scannedDirs s !! key).
Proof.
  intros root. split; [apply isWithin_spec |].
  unfold Invalidate. simpl. fold root.
  split; apply deleteWithin_lookup.
Qed.

(** A sibling whose path merely extends the invalidated one as a string
    is kept. *)
Example Invalidate_keeps_string_sibling :
  let w := mkWorld (inr "/") (inr "/home/u/.cache") (fun _ => inl ErrNotExist)
                   DiskMissing (fun _ => true) 0 false in
  let node (path : string) (t : NodeType) :=
    mkNode path path path t 0 0 TimeZero "/root" [] 0 0 0 false in
  let s := setCaches
             (list_to_map [("/root/a", node "/root/a" NodeDir);
                           ("/root/a/f", node "/root/a/f" NodeFile);
                           ("/root/ab", node "/root/ab" NodeDir)])
             ∅ (NewFSScanner w) in
  cache (Invalidate w "/root/a" s) !! "/root/a" = None
  /\ cache (Invalidate w "/root/a" s) !! "/root/a/f" = None
  /\ cache (Invalidate w "/root/a" s) !! "/root/ab"
     = Some (node "/root/ab" NodeDir).
Proof. vm_compute. done. Qed.

(* ===================================================================== *)
(** * The order of the passes *)
(* ===================================================================== *)

Section SortFacts.
Context {A : Type}.
Variable less : A -> A -> bool.

Lemma sink_perm (x : A) (l : list A) : sink less x l ≡ₚ x :: l.
Proof.
  induction l as [|y l IH]; simpl; [done |].
  destruct (less x y); [| done].
  rewrite IH. apply perm_swap.
Qed.

Lemma insertionSort_perm (l : list A) : insertionSort less l ≡ₚ l.
Proof.
  unfold insertionSort.
  assert (H : forall acc, fold_left (fun acc x => sink less x acc) l acc
                          ≡ₚ rev l ++ acc).
  { induction l as [|x l IH]; intros acc; simpl; [done |].
    rewrite IH, sink_perm, <- app_assoc. done. }
  rewrite H, app_nil_r.
  rewrite <- (Permutation_rev (rev l)). symmetry. apply Permutation_rev.
Qed.
End SortFacts.

Lemma rangeKeys_perm {A : Type} (rt : Runtime) (loop : nat) (m : gmap string A) :
  rangeKeys rt loop m ≡ₚ (map_to_list m).*1.
Proof. apply insertionSort_perm. Qed.

Lemma elem_of_rangeKeys {A : Type} (rt : Runtime) (loop : nat)
    (m : gmap string A) (k : string) :
  k ∈ rangeKeys rt loop m <-> is_Some (m !! k).
Proof.
  rewrite rangeKeys_perm, list_elem_of_fmap. split.
  - intros [[k' v] [-> H]]. apply elem_of_map_to_list in H. by exists v.
  - intros [v H]. exists (k, v). split; [done |]. by apply elem_of_map_to_list.
Qed.

Lemma NoDup_rangeKeys {A : Type} (rt : Runtime) (loop : nat) (m : gmap string A) :
  NoDup (rangeKeys rt loop m).
Proof. rewrite rangeKeys_perm. apply NoDup_fst_map_to_list. Qed.

Lemma elem_of_sortedPaths (rt : Runtime) (loop : nat) (nodes : NodeMap)
    (k : string) :
  k ∈ sortedPaths rt loop nodes <-> is_Some (nodes !! k).
Proof.
  unfold sortedPaths. rewrite insertionSort_perm. apply elem_of_rangeKeys.
Qed.

Lemma NoDup_sortedPaths (rt : Runtime) (loop : nat) (nodes : NodeMap) :
  NoDup (sortedPaths rt loop nodes).
Proof.
  unfold sortedPaths. rewrite insertionSort_perm. apply NoDup_rangeKeys.
Qed.

(* ===================================================================== *)
(** * What a pass changes *)
(* ===================================================================== *)

(** Two indexes hold the same keys, with nodes related by [R]. *)
Definition related (R : Node -> Node -> Prop) (a b : NodeMap) : Prop :=
  forall k, option_Forall2 R (a !! k) (b !! k).

Section Related.
Variable R : Node -> Node -> Prop.
Hypothesis R_refl : forall n, R n n.
Hypothesis R_trans : forall a b c, R a b -> R b c -> R a c.

Lemma related_refl (a : NodeMap) : related R a a.
Proof. intros k. destruct (a !! k); constructor. apply R_refl. Qed.

Lemma related_trans (a b c : NodeMap) :
  related R a b -> related R b c -> related R a c.
Proof.
  intros Hab Hbc k. specialize (Hab k). specialize (Hbc k).
  destruct Hab; inversion Hbc; subst; constructor. eauto.
Qed.

Lemma related_insert (a : NodeMap) (k : string) (n n' : Node) :
  a !! k = Some n -> R n n' -> related R a (<[k := n']> a).
Proof.
  intros Hk HR j. destruct (decide (k = j)) as [<-|Hne].
  - rewrite lookup_insert_eq, Hk. by constructor.
  - rewrite lookup_insert_ne by done. apply related_refl.
Qed.

Lemma related_fold (step : NodeMap -> string -> NodeMap) :
  (forall nodes p, related R nodes (step nodes p)) ->
  forall paths nodes, related R nodes (fold_left step paths nodes).
Proof.
  intros Hstep paths. induction paths as [|p paths IH]; intros nodes; simpl.
  - apply related_refl.
  - eapply related_trans; [apply Hstep | apply IH].
Qed.
End Related.

(** The fields no pass writes. *)
Definition sameEntry (n n' : Node) : Prop :=
  ID n' = ID n /\ Path n' = Path n /\ Type_ n' = Type_ n
  /\ SizeBytes n' = SizeBytes n /\ ParentID n' = ParentID n.

(** What each pass leaves alone. *)
Definition keptByHierarchy (n n' : Node) : Prop :=
  sameEntry n n' /\ AccumBytes n' = AccumBytes n
  /\ FileCount n' = FileCount n /\ DirCount n' = DirCount n.

Definition keptByAccumulation (n n' : Node) : Prop :=
  sameEntry n n' /\ ChildrenIDs n' = ChildrenIDs n
  /\ FileCount n' = FileCount n /\ DirCount n' = DirCount n.

Definition keptByFileCounts (n n' : Node) : Prop :=
  sameEntry n n' /\ ChildrenIDs n' = ChildrenIDs n
  /\ AccumBytes n' = AccumBytes n /\ DirCount n' = DirCount n.

Definition keptByDirCounts (n n' : Node) : Prop :=
  sameEntry n n' /\ ChildrenIDs n' = ChildrenIDs n
  /\ AccumBytes n' = AccumBytes n /\ FileCount n' = FileCount n.

Ltac kept_solve :=
  unfold keptByHierarchy, keptByAccumulation, keptByFileCounts,
         keptByDirCounts, sameEntry in *;
  intuition (simpl; congruence).

Lemma hierarchyStep_related (nodes : NodeMap) (p : string) :
  related keptByHierarchy nodes (hierarchyStep nodes p).
Proof.
  unfold hierarchyStep.
  destruct (nodes !! p) as [node|]; [| apply related_refl; kept_solve].
  destruct (String.eqb (ParentID node) ""); [apply related_refl; kept_solve |].
  destruct (nodes !! ParentID node) as [parent|] eqn:Hp;
    [| apply related_refl; kept_solve].
  eapply related_insert; [kept_solve | exact Hp |].
  destruct (Type_ node); kept_solve.
Qed.

Lemma accumulationStep_related (nodes : NodeMap) (p : string) :
  related keptByAccumulation nodes (accumulationStep nodes p).
Proof.
  unfold accumulationStep.
  destruct (nodes !! p) as [node|] eqn:Hp; [| apply related_refl; kept_solve].
  destruct (Type_ node).
  - destruct (AccumBytes node =? 0); [| apply related_refl; kept_solve].
    eapply related_insert; [kept_solve | exact Hp | kept_solve].
  - eapply related_insert; [kept_solve | exact Hp | kept_solve].
Qed.

Lemma fileCountsStep_related (nodes : NodeMap) (p : string) :
  related keptByFileCounts nodes (fileCountsStep nodes p).
Proof.
  unfold fileCountsStep.
  destruct (nodes !! p) as [node|] eqn:Hp; [| apply related_refl; kept_solve].
  destruct (Type_ node);
    (eapply related_insert; [kept_solve | exact Hp | kept_solve]).
Qed.

Lemma dirCountsStep_related (nodes : NodeMap) (p : string) :
  related keptByDirCounts nodes (dirCountsStep nodes p).
Proof.
  unfold dirCountsStep.
  destruct (nodes !! p) as [node|] eqn:Hp; [| apply related_refl; kept_solve].
  destruct (Type_ node);
    (eapply related_insert; [kept_solve | exact Hp | kept_solve]).
Qed.

Lemma applyHierarchy_related (rt : Runtime) (nodes : NodeMap) :
  related keptByHierarchy nodes (applyHierarchy rt nodes).
Proof.
  apply related_fold; [kept_solve | kept_solve | apply hierarchyStep_related].
Qed.

Lemma applyAccumulation_related (rt : Runtime) (nodes : NodeMap) :
  related keptByAccumulation nodes (applyAccumulation rt nodes).
Proof.
  apply related_fold; [kept_solve | kept_solve | apply accumulationStep_related].
Qed.

Lemma applyFileCounts_related (rt : Runtime) (nodes : NodeMap) :
  related keptByFileCounts nodes (applyFileCounts rt nodes).
Proof.
  apply related_fold; [kept_solve | kept_solve | apply fileCountsStep_related].
Qed.

Lemma applyDirCounts_related (rt : Runtime) (nodes : NodeMap) :
  related keptByDirCounts nodes (applyDirCounts rt nodes).
Proof.
  apply related_fold; [kept_solve | kept_solve | apply dirCountsStep_related].
Qed.

(** A pass rewrites the node under the path it visits, and no other. *)
Lemma accumulationStep_other (nodes : NodeMap) (p k : string) :
  k <> p -> accumulationStep nodes p !! k = nodes !! k.
Proof.
  intros Hne. unfold accumulationStep.
  destruct (nodes !! p) as [node|]; [| done].
  destruct (Type_ node); [destruct (AccumBytes node =? 0) |];
    by rewrite ?lookup_insert_ne.
Qed.

Lemma fileCountsStep_other (nodes : NodeMap) (p k : string) :
  k <> p -> fileCountsStep nodes p !! k = nodes !! k.
Proof.
  intros Hne. unfold fileCountsStep.
  destruct (nodes !! p) as [node|]; [| done].
  destruct (Type_ node); by rewrite lookup_insert_ne.
Qed.

Lemma dirCountsStep_other (nodes : NodeMap) (p k : string) :
  k <> p -> dirCountsStep nodes p !! k = nodes !! k.
Proof.
  intros Hne. unfold dirCountsStep.
  destruct (nodes !! p) as [node|]; [| done].
  destruct (Type_ node); by rewrite lookup_insert_ne.
Qed.

Section Establish.
Variable step : NodeMap -> string -> NodeMap.
Variables P Q : Node -> Prop.
Hypothesis step_P : forall nodes p k n,
    nodes !! k = Some n -> P n -> exists n', step nodes p !! k = Some n' /\ P n'.
Hypothesis step_Q : forall nodes p k n,
    nodes !! k = Some n -> Q n -> exists n', step nodes p !! k = Some n' /\ Q n'.
Hypothesis step_sets : forall nodes k n,
    nodes !! k = Some n -> P n -> exists n', step nodes k !! k = Some n' /\ Q n'.

Lemma fold_keeps (paths : list string) (nodes : NodeMap) (k : string) (n : Node) :
  nodes !! k = Some n -> Q n ->
  exists n', fold_left step paths nodes !! k = Some n' /\ Q n'.
Proof.
  revert nodes n. induction paths as [|p paths IH]; intros nodes n Hk HQ; simpl.
  - eauto.
  - destruct (step_Q nodes p k n Hk HQ) as (n1 & Hk1 & HQ1). eauto.
Qed.

Lemma fold_establishes (paths : list string) (nodes : NodeMap) (k : string)
    (n : Node) :
  k ∈ paths -> nodes !! k = Some n -> P n ->
  exists n', fold_left step paths nodes !! k = Some n' /\ Q n'.
Proof.
  revert nodes n. induction paths as [|p paths IH]; intros nodes n Hin Hk HP.
  - by apply elem_of_nil in Hin.
  - simpl. destruct (decide (k = p)) as [->|Hne].
    + destruct (step_sets nodes p n Hk HP) as (n1 & Hk1 & HQ1).
      eapply fold_keeps; eauto.
    + apply elem_of_cons in Hin as [?|Hin]; [done |].
      destruct (step_P nodes p k n Hk HP) as (n1 & Hk1 & HP1). eauto.
Qed.
End Establish.

Lemma applyFileCounts_file (rt : Runtime) (nodes : NodeMap) (k : string) (n : Node) :
  nodes !! k = Some n -> Type_ n = NodeFile ->
  exists n', applyFileCounts rt nodes !! k = Some n'
             /\ Type_ n' = NodeFile /\ FileCount n' = 1.
Proof.
  intros Hk Hfile. unfold applyFileCounts.
  apply (fold_establishes fileCountsStep
           (fun n => Type_ n = NodeFile)
           (fun n => Type_ n = NodeFile /\ FileCount n = 1)) with (n := n);
    [| | | by apply elem_of_sortedPaths | done | done].
  - intros m p j x Hj Hx. pose proof (fileCountsStep_related m p j) as HR.
    rewrite Hj in HR. inversion HR as [? y Hxy |]; subst.
    exists y. split; [done |]. destruct Hxy as [(_ & _ & Ht & _) _]. congruence.
  - intros m p j x Hj [Hx1 Hx2]. destruct (decide (j = p)) as [->|Hne].
    + unfold fileCountsStep. rewrite Hj, Hx1, lookup_insert_eq. eauto.
    + rewrite fileCountsStep_other by done. eauto.
  - intros m j x Hj Hx. unfold fileCountsStep.
    rewrite Hj, Hx, lookup_insert_eq. eauto.
Qed.

Lemma applyDirCounts_file (rt : Runtime) (nodes : NodeMap) (k : string) (n : Node) :
  nodes !! k = Some n -> Type_ n = NodeFile ->
  exists n', applyDirCounts rt nodes !! k = Some n'
             /\ Type_ n' = NodeFile /\ DirCount n' = 0.
Proof.
  intros Hk Hfile. unfold applyDirCounts.
  apply (fold_establishes dirCountsStep
           (fun n => Type_ n = NodeFile)
           (fun n => Type_ n = NodeFile /\ DirCount n = 0)) with (n := n);
    [| | | by apply elem_of_sortedPaths | done | done].
  - intros m p j x Hj Hx. pose proof (dirCountsStep_related m p j) as HR.
    rewrite Hj in HR. inversion HR as [? y Hxy |]; subst.
    exists y. split; [done |]. destruct Hxy as [(_ & _ & Ht & _) _]. congruence.
  - intros m p j x Hj [Hx1 Hx2]. destruct (decide (j = p)) as [->|Hne].
    + unfold dirCountsStep. rewrite Hj, Hx1, lookup_insert_eq. eauto.
    + rewrite dirCountsStep_other by done. eauto.
  - intros m j x Hj Hx. unfold dirCountsStep.
    rewrite Hj, Hx, lookup_insert_eq. eauto.
Qed.

(** A node of the later index comes from a node of the earlier one. *)
Lemma related_back (R : Node -> Node -> Prop) (a b : NodeMap) (k : string)
    (n' : Node) :
  related R a b -> b !! k = Some n' -> exists n, a !! k = Some n /\ R n n'.
Proof.
  intros HR Hk. specialize (HR k). rewrite Hk in HR.
  inversion HR; subst. eauto.
Qed.

Lemma related_forth (R : Node -> Node -> Prop) (a b : NodeMap) (k : string)
    (n : Node) :
  related R a b -> a !! k = Some n -> exists n', b !! k = Some n' /\ R n n'.
Proof.
  intros HR Hk. specialize (HR k). rewrite Hk in HR.
  inversion HR; subst. eauto.
Qed.

(* ===================================================================== *)
(** * Example trees *)
(* ===================================================================== *)

(** The scenario of the specification: /root/a/f1 (10 bytes), /root/a/f2
    (20 bytes), /root/b/f3 (5 bytes). *)
Definition scenarioTree : FsEntry :=
  FsDir "root" (inr 100) None
    [ FsDir "a" (inr 200) None
        [ FsFile "f1" 201 (inr 10); FsFile "f2" 202 (inr 20) ];
      FsDir "b" (inr 300) None [ FsFile "f3" 301 (inr 5) ] ].

(** A world whose only tree is [tree], at [path], with the cache file
    [d]; nobody receives the progress messages. *)
Definition worldWith (path : string) (tree : FsEntry) (d : CacheDisk) : World :=
  mkWorld (inr "/") (inr "/home/user/.cache")
          (fun p => if String.eqb p path then inr tree else inl ErrNotExist)
          d (fun _ => true) 1 false.

Definition scenarioWorld : World := worldWith "/root" scenarioTree DiskMissing.

(** The runtime that yields every map in the order of its keys' encoding. *)
Definition plainRuntime : Runtime := mkRuntime (fun _ _ => 0%nat).

Definition scenarioScan : Outcome (ScanResult * option error) * FSScanner * World :=
  Scan plainRuntime scenarioWorld background (mkScanRequest "/root" false)
       (NewFSScanner scenarioWorld).

(** The aggregates of the specification's scenario. *)
Example scenario_aggregates :
  let s := scenarioScan.1.2 in
  AccumBytes <$> cache s !! "/root" = Some 35
  /\ AccumBytes <$> cache s !! "/root/a" = Some 30
  /\ AccumBytes <$> cache s !! "/root/b" = Some 5
  /\ FileCount <$> cache s !! "/root" = Some 3
  /\ DirCount <$> cache s !! "/root" = Some 2.
Proof. vm_compute. done. Qed.

(* ===================================================================== *)
(** * File nodes and the descendant counts *)
(* ===================================================================== *)


(** After the four passes every file node of the index has
    [FileCount = 1] (a file counts itself, which is what makes a
    directory's [FileCount] the number of files below it) and
    [DirCount = 0]. *)
Theorem file_nodes_count_one_file_and_no_directory
    (rt : Runtime) (nodes : NodeMap) (k : string) (n' : Node) :
  aggregate rt nodes !! k = Some n' ->
  Type_ n' = NodeFile ->
  FileCount n' = 1 /\ DirCount n' = 0.
Proof.
  unfold aggregate.
  set (a := applyAccumulation rt (applyHierarchy rt nodes)).
  set (f := applyFileCounts rt a).
  intros Hk Hfile.
  destruct (related_back _ _ _ _ _ (applyDirCounts_related rt f) Hk)
    as (nf & Hf & (_ & _ & Htf & _) & _ & _ & Hcount).
  destruct (related_back _ _ _ _ _ (applyFileCounts_related rt a) Hf)
    as (na & Ha & (_ & _ & Hta & _) & _).
  destruct (applyFileCounts_file rt a k na Ha ltac:(congruence))
    as (nf' & Hf' & _ & Hone).
  destruct (applyDirCounts_file rt f k nf Hf ltac:(congruence))
    as (nd & Hd & _ & Hzero).
  fold f in Hf'. rewrite Hf in Hf'. rewrite Hk in Hd.
  simplify_eq. split; [congruence | done].
Qed.

Lemma file_nodes_count_one_file_and_no_directory_witness :
  let n := mkNode "/root/a/f1" "f1" "/root/a/f1" NodeFile 10 10 TimeZero
                  "/root/a" [] 0 1 0 false in
  FileCount n = 1 /\ DirCount n = 0.
Proof.
  intros n.
  apply (file_nodes_count_one_file_and_no_directory plainRuntime
           {[ "/root/a/f1" :=
                mkNode "/root/a/f1" "f1" "/root/a/f1" NodeFile 10 10 TimeZero
                       "/root/a" [] 0 0 0 false ]}
           "/root/a/f1" n).
  - vm_compute. reflexivity.
  - reflexivity.
Defined.

(* ===================================================================== *)
(** * The exclusion set *)
(* ===================================================================== *)






(* ===================================================================== *)
(** * Aggregation at the file-system root *)
(* ===================================================================== *)

(** The file system root with one directory and one file of 10 bytes:
    /a/f. *)
Definition slashTree : FsEntry :=
  FsDir "/" (inr 100) None [ FsDir "a" (inr 200) None [ FsFile "f" 201 (inr 10) ] ].

Definition slashWorld : World := worldWith "/" slashTree DiskMissing.

(** A runtime whose [range] loops yield shorter keys first. *)
Definition shortestFirst : Runtime := mkRuntime (fun _ key => String.length key).

(** "/" and "/a" have the same [depth], so sorting by decreasing depth
    does not order them: here "/" is visited before "/a". *)
Example slash_is_as_deep_as_its_children :
  depth "/" = 1 /\ depth "/a" = 1
  /\ sortedPaths shortestFirst loopAccumulation
       (list_to_map [("/", rootNodeOf "/"); ("/a", rootNodeOf "/a");
                     ("/a/f", rootNodeOf "/a/f")])
     = ["/a/f"; "/"; "/a"].
Proof. by vm_compute. Qed.

(** C2.  [Scan("/")] on /a/f: the scan succeeds, "/" lists "/a" as its
    only child, "/a" accumulates 10 bytes, and "/" is left with 0
    accumulated bytes, because "/" was summed before "/a". *)
Theorem scan_of_slash_sums_root_before_its_child :
  let r := Scan shortestFirst slashWorld background (mkScanRequest "/" false)
                (NewFSScanner slashWorld) in
  r.1.1 = Returned (mkScanResult "/" 1, None)
  /\ ChildrenIDs <$> cache r.1.2 !! "/" = Some ["/a"]
  /\ AccumBytes <$> cache r.1.2 !! "/a" = Some 10
  /\ AccumBytes <$> cache r.1.2 !! "/" = Some 0
  /\ sumChildren AccumBytes (cache r.1.2) ["/a"] = 10.
Proof. by vm_compute. Qed.

(* ===================================================================== *)
(** * Cancellation *)
(* ===================================================================== *)

Definition oneFileTree : FsEntry :=
  FsDir "root" (inr 100) None [ FsFile "f" 101 (inr 10) ].

Definition oneFileWorld : World := worldWith "/root" oneFileTree DiskMissing.

(** The context is cancelled after the walk has visited its last entry
    and before a worker takes the first job. *)
Definition cancelledAfterWalk : Context :=
  mkContext (fun _ => None) (fun _ => Some Canceled).

(** The context is cancelled before the walk's second visit. *)
Definition cancelledDuringWalk : Context :=
  mkContext (fun n => if (n <? 1)%nat then None else Some Canceled)
            (fun _ => Some Canceled).

Lemma loadCache_keeps_cache (w : World) (s : FSScanner) :
  cache (loadCache w s).1 = cache s
  /\ scannedDirs (loadCache w s).1 = scannedDirs s
  /\ root (loadCache w s).1 = root s.
Proof.
  unfold loadCache.
  destruct (cacheLoaded s || String.eqb (cachePath s) ""); [done |].
  destruct (disk w) as [| | | | |f]; try done.
  by destruct (negb (cfVersion f =? cacheVersion)).
Qed.

(** When [Scan] returns an error, the in-memory cache, the set of scanned
    directories, the tracked root and the cache file are as before. *)
Lemma Scan_error_keeps_cache (rt : Runtime) (w : World) (ctx : Context)
    (req : ScanRequest) (s : FSScanner) (r : ScanResult) (e : error)
    (s' : FSScanner) (w' : World) :
  Scan rt w ctx req s = (Returned (r, Some e), s', w') ->
  cache s' = cache s /\ scannedDirs s' = scannedDirs s /\ root s' = root s
  /\ w' = w.
Proof.
  unfold Scan.
  pose proof (loadCache_keeps_cache w s) as (Hc & Hd & Hr).
  destruct (loadCache w s) as [s1 loadErr]. simpl in Hc, Hd, Hr.
  set (s2 := match loadErr, progress s1 with
             | Some err, Some ch => _
             | _, _ => s1
             end).
  assert (cache s2 = cache s /\ scannedDirs s2 = scannedDirs s /\ root s2 = root s)
    as (Hc2 & Hd2 & Hr2).
  { subst s2. destruct loadErr; [destruct (progress s1) |]; simpl; auto. }
  destruct (negb _); [intros [=] |].
  destruct (canReuseRoot w s2 _ _); [intros [=] |].
  destruct (isCached s2 _); [intros [=] |].
  unfold scanFull.
  destruct (scanWalk w ctx req s2 _ _) as [walkErr st].
  destruct walkErr as [err|].
  - intros [= <- <- <- <-]. simpl. auto.
  - destruct (sendBlocking _ _ _); intros [=].
Qed.

(** The walk polls the context: cancelled during the walk, the scan
    returns the context's error. *)
Example scan_cancelled_during_walk :
  let r := Scan plainRuntime oneFileWorld cancelledDuringWalk
                (mkScanRequest "/root" false) (NewFSScanner oneFileWorld) in
  r.1.1 = Returned (mkScanResult "/root" 1, Some Canceled)
  /\ cache r.1.2 = ∅.
Proof. by vm_compute. Qed.

(** C3.  Cancelled after the walk's last visit, while the job of /root/f
    is pending: the worker drops the job, [Scan] returns success, and the
    cache, empty before the scan, now holds the walked nodes, /root/f
    with size 0. *)
Theorem scan_cancelled_after_walk_returns_success_and_writes_cache :
  let s0 := NewFSScanner oneFileWorld in
  let r := Scan plainRuntime oneFileWorld cancelledAfterWalk
                (mkScanRequest "/root" false) s0 in
  cache s0 = ∅
  /\ r.1.1 = Returned (mkScanResult "/root" 1, None)
  /\ SizeBytes <$> cache r.1.2 !! "/root/f" = Some 0
  /\ is_Some (cache r.1.2 !! "/root")
  /\ scannedDirs r.1.2 !! "/root" = Some true.
Proof.
  repeat split; try by vm_compute. vm_compute. eauto.
Qed.

(* ===================================================================== *)
(** * Scanning twice *)
(* ===================================================================== *)

Definition dirEntry (path name : string) (mtime accum files : Z)
    (children : list string) (parent : string) : cacheEntry :=
  mkCacheEntry path name NodeDir mtime 0 accum files 0 0 children parent.

Definition fileEntry (path name : string) (size : Z) (parent : string)
  : cacheEntry :=
  mkCacheEntry path name NodeFile 0 size size 1 0 0 [] parent.

(** A cache file that records the subtree of /root/a of the scenario,
    with the directory's current modification time. *)
Definition subtreeCache : cacheFile :=
  mkCacheFile 1 false
    (Some (list_to_map
             [ ("/root/a",
                dirEntry "/root/a" "a" 200 30 2 ["/root/a/f1"; "/root/a/f2"] "/root");
               ("/root/a/f1", fileEntry "/root/a/f1" "f1" 10 "/root/a");
               ("/root/a/f2", fileEntry "/root/a/f2" "f2" 20 "/root/a") ])).

Definition cachedWorld : World :=
  worldWith "/root" scenarioTree (DiskFile subtreeCache).

(** The cached values are the ones the full walk computes. *)
Example subtreeCache_agrees_with_full_walk :
  let s := scenarioScan.1.2 in
  forall key entry,
    cfEntries subtreeCache ≫= (.!! key) = Some entry ->
    exists n, cache s !! key = Some n
              /\ Type_ n = ceType entry /\ SizeBytes n = ceSizeBytes entry
              /\ AccumBytes n = ceAccumBytes entry
              /\ FileCount n = ceFileCount entry /\ DirCount n = ceDirCount entry
              /\ ChildrenIDs n = ceChildren entry /\ ParentID n = ceParentID entry.
Proof.
  intros s key entry. simpl.
  repeat (rewrite lookup_insert; case_decide; [subst; intros [= <-]; vm_compute; eauto 10 |]).
  by rewrite lookup_empty.
Qed.

(** C7.  The same tree, root and flag, scanned three times: by a full
    walk (no cache file); by a process that finds [subtreeCache] and
    splices the subtree of /root/a in; and then again by a later process,
    which finds the cache file the second scan wrote and splices the
    subtree in once more.  The full walk gives /root/a 30 bytes and 2
    files; the first splice gives it 60 bytes and 4 files (its children
    are listed twice), the second 90 bytes and 6 files; /root gets 35,
    65 and 95 bytes. *)
Theorem spliced_subtree_is_counted_twice :
  let req := mkScanRequest "/root" false in
  let walked := Scan plainRuntime scenarioWorld background req
                     (NewFSScanner scenarioWorld) in
  let spliced := Scan plainRuntime cachedWorld background req
                      (NewFSScanner cachedWorld) in
  let again := Scan plainRuntime spliced.2 background req
                    (NewFSScanner spliced.2) in
  lstatTree cachedWorld = lstatTree scenarioWorld
  /\ lstatTree spliced.2 = lstatTree cachedWorld
  /\ walked.1.1 = Returned (mkScanResult "/root" 1, None)
  /\ spliced.1.1 = Returned (mkScanResult "/root" 1, None)
  /\ again.1.1 = Returned (mkScanResult "/root" 1, None)
  /\ AccumBytes <$> cache walked.1.2 !! "/root/a" = Some 30
  /\ AccumBytes <$> cache spliced.1.2 !! "/root/a" = Some 60
  /\ AccumBytes <$> cache again.1.2 !! "/root/a" = Some 90
  /\ FileCount <$> cache walked.1.2 !! "/root/a" = Some 2
  /\ FileCount <$> cache spliced.1.2 !! "/root/a" = Some 4
  /\ FileCount <$> cache again.1.2 !! "/root/a" = Some 6
  /\ AccumBytes <$> cache walked.1.2 !! "/root" = Some 35
  /\ AccumBytes <$> cache spliced.1.2 !! "/root" = Some 65
  /\ AccumBytes <$> cache again.1.2 !! "/root" = Some 95
  /\ ChildrenIDs <$> cache spliced.1.2 !! "/root/a"
     = Some ["/root/a/f1"; "/root/a/f2"; "/root/a/f1"; "/root/a/f2"].
Proof. repeat split; by vm_compute. Qed.

(* ===================================================================== *)
(** * Confirmation *)
(* ===================================================================== *)

(** /data holds a directory d (with a file and a subdirectory), a plain
    file f and an archive from an earlier backup. *)
Definition sampleFs : Objects :=
  list_to_map
    [ ("/", ObjDir 493 0); ("/home", ObjDir 493 0); ("/home/user", ObjDir 493 0);
      ("/data", ObjDir 493 0); ("/data/d", ObjDir 493 0);
      ("/data/d/x", ObjFile (Bytes "hi") 420 1);
      ("/data/d/sub", ObjDir 493 0);
      ("/data/d/sub/y", ObjFile (Bytes "yo") 420 1);
      ("/data/f", ObjFile (Bytes "f") 420 1);
      ("/data/out.tar.gz", ObjFile (Bytes "old") 420 1) ].

Definition sampleWorld : ActionWorld :=
  mkActionWorld (inr "/data") (inr "/home/user") (fun _ _ => false) 50 1 false
                sampleFs.

(** The token "confirm" passes the gate whatever the sources are: the
    directory check comes after it. *)
Lemma requireConfirmation_confirm (fs : Objects) (req : ActionRequest)
    (paths : list string) :
  ConfirmToken req = "confirm" -> requireConfirmation fs req paths = None.
Proof.
  intros Htok. unfold requireConfirmation. rewrite Htok. simpl.
  by destruct (negb _ && negb _).
Qed.

(** The token "confirm-recursive" passes the gate of a delete. *)
Lemma requireConfirmation_recursive (fs : Objects) (req : ActionRequest)
    (paths : list string) :
  reqType req = ActionDelete -> ConfirmToken req = "confirm-recursive" ->
  requireConfirmation fs req paths = None.
Proof.
  intros Htype Htok. unfold requireConfirmation. rewrite Htype, Htok. simpl.
  assert (recursiveCheck fs "confirm-recursive" paths = None) as ->; [| done].
  induction paths as [|p paths IH]; simpl; [done |].
  destruct (osLstat fs p) as [|info]; [done |].
  by rewrite andb_false_r.
Qed.

(** With any other token a delete that names a directory is refused. *)
Example delete_directory_without_token_is_refused :
  requireConfirmation sampleFs
    (mkActionRequest ActionDelete ["/data/d"] "" true "yes") ["/data/d"]
  = Some (Errorf "recursive delete requires confirmation")
  /\ requireConfirmation sampleFs
       (mkActionRequest ActionDelete ["/data/f"] "" true "yes") ["/data/f"]
     = Some (Errorf "delete confirmation required").
Proof. by vm_compute. Qed.

(** C1.  [Execute(delete, sources = [/data/d], token = "confirm")], where
    /data/d is a directory: the request passes the confirmation gate, no
    error is returned, and the directory is removed with everything in
    it (four removals). *)
Theorem directory_delete_passes_with_plain_confirm :
  let req := mkActionRequest ActionDelete ["/data/d"] "" true "confirm" in
  isDirObj <$> sampleFs !! "/data/d" = Some true
  /\ requireConfirmation sampleFs req ["/data/d"] = None
  /\ exists result actions w',
      Execute sampleWorld actionBackground 8 req NewFSActions
      = Some (Returned (result, None), actions, w')
      /\ SuccessCount result = 4 /\ FailureCount result = 0
      /\ awFs w' !! "/data/d" = None
      /\ awFs w' !! "/data/d/x" = None
      /\ awFs w' !! "/data/d/sub/y" = None.
Proof.
  split; [by vm_compute |]. split; [by vm_compute |].
  do 3 eexists. split; [vm_compute; reflexivity |]. by vm_compute.
Qed.

(* ===================================================================== *)
(** * Backup onto an existing destination *)
(* ===================================================================== *)

(** C4, as stated, fails: a backup onto the existing archive
    /data/out.tar.gz returns no error from [Execute]; the failure is in
    the result's message and error list. *)
Lemma backup_onto_existing_archive_returns_no_error :
  let req := mkActionRequest ActionBackup ["/data/d"] "/data/out.tar.gz"
                             true "" in
  exists_ sampleFs "/data/out.tar.gz" = true
  /\ exists result actions w',
      Execute sampleWorld actionBackground 8 req NewFSActions
      = Some (Returned (result, None), actions, w')
      /\ Errors result = ["backup archive exists"].
Proof.
  split; [by vm_compute |].
  do 3 eexists. split; [vm_compute; reflexivity |]. reflexivity.
Qed.

(** C4, amended.  For every backup request that passes validation and
    whose destination (archive file or plain directory) already exists,
    nothing is created, overwritten or written: the file system after
    [Execute] is the one before.  [Execute] returns no error; it returns a
    result with message "backup failed", exactly one entry in its error
    list ("backup archive exists" or "backup destination exists") and
    both counters at zero. *)
Theorem backup_onto_existing_destination_changes_nothing
    (w : ActionWorld) (ctx : ActionContext) (fuel : nat) (req : ActionRequest)
    (actions : FSActions) (paths : list string) (dest : string) :
  reqType req = ActionBackup ->
  normalizePaths w (SourcePaths req) = inr paths ->
  paths <> [] ->
  Destination req <> "" ->
  actionAbs w (Destination req) = inr dest ->
  exists_ (awFs w) dest = true ->
  exists msg,
    (msg = "backup archive exists" \/ msg = "backup destination exists")
    /\ Execute w ctx fuel req actions
       = Some (Returned (mkActionResult ActionBackup 0 0 (awElapsed w)
                                        "backup failed" [msg] 0, None),
               mkFSActions
                 (Some (mkChan [mkActionProgress ActionBackup "" 0 0 true ""]
                               64 true)),
               w).
Proof.
  intros Htype Hnorm Hpaths Hdest Habs Hexists.
  assert (String.eqb (Destination req) "" = false) as Hd
    by by apply String.eqb_neq.
  unfold Execute. rewrite Hnorm.
  unfold validateRequest, requireConfirmation. rewrite Htype, Hd.
  destruct paths as [|p paths]; [done |]. simpl.
  rewrite andb_false_r. simpl.
  unfold backupPaths, backupCompressed, backupCopy. rewrite Hd, Habs. simpl.
  rewrite Hexists.
  destruct (Filepath.HasSuffix (Destination req) ".tar.gz");
    [exists "backup archive exists" | exists "backup destination exists"];
    (split; [auto |]); by destruct w.
Qed.

Lemma backup_onto_existing_destination_changes_nothing_witness :
  exists msg,
    (msg = "backup archive exists" \/ msg = "backup destination exists")
    /\ Execute sampleWorld actionBackground 8
         (mkActionRequest ActionBackup ["/data/d"; "f"] "out.tar.gz" true "")
         NewFSActions
       = Some (Returned (mkActionResult ActionBackup 0 0 1
                                        "backup failed" [msg] 0, None),
               mkFSActions
                 (Some (mkChan [mkActionProgress ActionBackup "" 0 0 true ""]
                               64 true)),
               sampleWorld).
Proof.
  apply (backup_onto_existing_destination_changes_nothing sampleWorld
           actionBackground 8
           (mkActionRequest ActionBackup ["/data/d"; "f"] "out.tar.gz" true "")
           NewFSActions ["/data/d"; "/data/f"] "/data/out.tar.gz").
  - reflexivity.
  - vm_compute. reflexivity.
  - discriminate.
  - discriminate.
  - vm_compute. reflexivity.
  - vm_compute. reflexivity.
Defined.

(* ===================================================================== *)
(** * The completion sentinel *)
(* ===================================================================== *)

(** 64 distinct two-letter names. *)
Definition twoLetters (i : nat) : string :=
  String (ascii_of_nat (97 + i / 8)) (String (ascii_of_nat (97 + i mod 8)) "").

(** A root with 64 directories that cannot be read: each one makes the
    walk report a warning. *)
Definition lockedTree : FsEntry :=
  FsDir "root" (inr 100) None
    ((fun i => FsDir (twoLetters i) (inr 0) (Some ErrPermission) [])
       <$> seq 0 64).

Definition lockedWorld : World := worldWith "/root" lockedTree DiskMissing.

(** /data with 64 plain files. *)
Definition manyFiles : Objects :=
  list_to_map
    ([("/", ObjDir 493 0); ("/data", ObjDir 493 0)]
       ++ ((fun i => ("/data/" ++ twoLetters i, ObjFile (Bytes "x") 420 1))
             <$> seq 0 64)).

Definition manyWorld : ActionWorld :=
  mkActionWorld (inr "/") (inr "/home/user") (fun _ _ => false) 50 1 false
                manyFiles.

Definition deleteMany : ActionRequest :=
  mkActionRequest ActionDelete ((fun i => "/data/" ++ twoLetters i) <$> seq 0 64)
                  "" true "confirm".

(** The sends of [progressNonBlocking] never block: on a full channel the
    message is dropped. *)
Lemma sendNonBlocking_full {A : Type} (ch : Chan A) (msg : A) :
  chanFull ch = true -> sendNonBlocking ch msg = ch.
Proof. unfold sendNonBlocking. by intros ->. Qed.

(** The final send is a plain channel send: on a full channel that nobody
    receives from it blocks. *)
Lemma sendBlocking_full {A : Type} (ch : Chan A) (msg : A) :
  chanFull ch = true -> sendBlocking false ch msg = None.
Proof. unfold sendBlocking. by intros ->. Qed.

Lemma sendBlocking_received {A : Type} (ch : Chan A) (msg : A) :
  is_Some (sendBlocking true ch msg).
Proof. unfold sendBlocking. destruct (chanFull ch); eauto. Qed.

(** C9.  With nobody receiving, a scan that reports 64 warnings and a
    delete of 64 files both fill the 64-slot progress channel; the send
    of the completion sentinel then blocks and neither call returns.
    (The delete has removed every file by then.) *)
Theorem completion_sentinel_blocks_on_a_full_channel :
  (Scan plainRuntime lockedWorld background (mkScanRequest "/root" false)
        (NewFSScanner lockedWorld)).1.1 = Blocked
  /\ exists actions w',
      Execute manyWorld actionBackground 4 deleteMany NewFSActions
      = Some (Blocked, actions, w')
      /\ awFs w' = list_to_map [("/", ObjDir 493 0); ("/data", ObjDir 493 0)].
Proof.
  split; [by vm_compute |].
  do 2 eexists. split; [vm_compute; reflexivity |]. by vm_compute.
Qed.

(* ===================================================================== *)
(** * Further definitions: previews, paths and trees *)
(* ===================================================================== *)

(** A name as a directory holds it: not empty, not "." or "..", and
    without a separator. *)
Fixpoint noSep (s : string) : bool :=
  match s with
  | EmptyString => true
  | String c rest => negb (Ascii.eqb c "/") && noSep rest
  end.

Definition validName (name : string) : Prop :=
  noSep name = true /\ name <> "" /\ name <> "." /\ name <> "..".

(** The clean absolute path with the elements [cs]. *)
Definition absPath (cs : list string) : string := "/" ++ Filepath.joinSep cs.

(** The path followed by the separator that precedes its children. *)
Definition slashed (cs : list string) : string :=
  match cs with
  | [] => "/"
  | _ => absPath cs ++ "/"
  end.

(** The keys at or under a clean absolute path: the path itself, or the
    path, a separator, and more. *)
Definition inRegion (cs : list string) (k : string) : Prop :=
  k = absPath cs \/ exists rest, k = slashed cs ++ rest.

Definition nameOf (d : FsEntry) : string := deName (entryOf d).

(** The entries of a directory have valid, distinct names. *)
Inductive wfEntry : FsEntry -> Prop :=
| wfFile (name : string) (mtime : Z) (lstat : error + Z) :
    wfEntry (FsFile name mtime lstat)
| wfDir (name : string) (info : error + Z) (readDir : option error)
        (entries : list FsEntry) :
    NoDup (nameOf <$> entries) ->
    Forall (fun d => validName (nameOf d)) entries ->
    Forall wfEntry entries ->
    wfEntry (FsDir name info readDir entries).

(** The loop of [walkDir] over the entries of a directory. *)
Definition walkEntries {S : Type}
    (fn : string -> WalkCall DirEntry -> S -> WalkResult * S) (path : string)
  : list FsEntry -> S -> WalkResult * S :=
  fix go (ds : list FsEntry) (st : S) : WalkResult * S :=
    match ds with
    | [] => (WalkOk, st)
    | d1 :: rest =>
        match walkDir fn (Filepath.Join path (deName (entryOf d1))) d1 st with
        | (WalkOk, st') => go rest st'
        | (WalkSkipDir, st') => (WalkOk, st')
        | (WalkErr e, st') => (WalkErr e, st')
        end
    end.

Definition zeroFileAt (nodes : NodeMap) (p : string) : Prop :=
  exists n, nodes !! p = Some n /\ Type_ n = NodeFile
            /\ SizeBytes n = 0 /\ AccumBytes n = 0.

(** From [st] to [st'] only keys of the region [R] changed; the jobs
    added have distinct paths in [R], each with a fresh file node. *)
Definition walked (R : string -> Prop) (st st' : WalkState) : Prop :=
  (forall k, ~ R k -> wsNodes st' !! k = wsNodes st !! k)
  /\ exists new,
      wsJobs st' = (wsJobs st ++ new)%list
      /\ NoDup (jobPath <$> new)
      /\ forall job, job ∈ new ->
                     R (jobPath job) /\ zeroFileAt (wsNodes st') (jobPath job).

(** Walking [d] from a clean absolute path changes only the region of
    that path. *)
Definition walksWell (s : FSScanner) (ctx : Context) (req : ScanRequest)
    (root : string) (d : FsEntry) : Prop :=
  forall cs st, Forall validName cs ->
    walked (inRegion cs) st
           (walkDir (scanVisit s ctx req root) (absPath cs) d st).2.

Definition zeroIfFailed (lstat : error + Z) : error + Z :=
  match lstat with
  | inl _ => inr 0
  | inr size => inr size
  end.

Fixpoint zeroFailed (d : FsEntry) : FsEntry :=
  match d with
  | FsFile name mtime lstat => FsFile name mtime (zeroIfFailed lstat)
  | FsDir name info readDir entries =>
      FsDir name info readDir (map zeroFailed entries)
  end.

Definition zeroFailedWorld (w : World) : World :=
  mkWorld (cwd w) (userCacheDir w)
          (fun p => match lstatTree w p with
                    | inl e => inl e
                    | inr d => inr (zeroFailed d)
                    end)
          (disk w) (diskWritable w) (elapsed w) (receiving w).

Definition zeroFailedJob (job : fileJob) : fileJob :=
  mkFileJob (jobPath job) (zeroIfFailed (jobLstat job)).

Definition zeroFailedEntry (e : DirEntry) : DirEntry :=
  mkDirEntry (deName e) (deIsDir e) (deInfo e) (zeroIfFailed (deLstat e)).

Definition zeroFailedCall (call : WalkCall DirEntry) : WalkCall DirEntry :=
  match call with
  | VisitEntry e => VisitEntry (zeroFailedEntry e)
  | VisitError d err => VisitError (zeroFailedEntry <$> d) err
  end.

Definition zeroFailedState (st : WalkState) : WalkState :=
  mkWalkState (wsNodes st) (zeroFailedJob <$> wsJobs st) (wsScanned st)
              (wsProgress st) (wsPolls st).

(** A directory with a file that is gone by the time a worker stats it. *)
Definition goneTree : FsEntry :=
  FsDir "root" (inr 100) None
    [ FsFile "gone" 101 (inl ErrNotExist); FsFile "f" 102 (inr 10) ].

Definition goneWorld : World := worldWith "/root" goneTree DiskMissing.

(** An index of two nodes before the passes: /root and the file /root/f
    of 10 bytes. *)
Definition twoNodes : NodeMap :=
  {[ "/root" := mkNode "/root" "root" "/root" NodeDir 0 0 TimeZero "" [] 0 0 0 true;
     "/root/f" := mkNode "/root/f" "f" "/root/f" NodeFile 10 10 TimeZero
                         "/root" [] 0 0 0 false ]}.

(** What identifies a node and what the walk found out about it. *)
Definition sameNode (n n' : Node) : Prop :=
  ID n' = ID n /\ Name n' = Name n /\ Path n' = Path n /\ Type_ n' = Type_ n
  /\ SizeBytes n' = SizeBytes n /\ ModTime n' = ModTime n
  /\ ParentID n' = ParentID n /\ Scanned n' = Scanned n.

(** The loop of [normalizePaths], from any state of [seen] and [result]. *)
Fixpoint normalizeLoop (w : ActionWorld) (paths : list string)
    (seen : gset string) (result : list string) : error + list string :=
  match paths with
  | [] => inr result
  | path :: rest =>
      if String.eqb path "" then normalizeLoop w rest seen result
      else match actionAbs w path with
           | inl err => inl err
           | inr abs =>
               let clean := Filepath.Clean abs in
               if bool_decide (clean ∈ seen) then normalizeLoop w rest seen result
               else normalizeLoop w rest ({[ clean ]} ∪ seen)
                                  (result ++ [clean])%list
           end
  end.

(** A file system with the system directory /etc and a user's file. *)
Definition systemFs : Objects :=
  {[ "/" := ObjDir 493 1;
     "/etc" := ObjDir 493 2;
     "/etc/hosts" := ObjFile (Bytes "localhost") 420 3;
     "/data" := ObjDir 493 4;
     "/data/f" := ObjFile (Bytes "abc") 420 5 ]}.

Definition systemWorld : ActionWorld :=
  mkActionWorld (inr "/data") (inr "/home/user") (fun _ _ => false) 50 1 false
                systemFs.

(** [ActionPreview]. *)
Record ActionPreview := mkActionPreview {
  pvType : ActionType;
  Sources : list string;
  pvDestination : string;
  TotalFiles : Z;
  TotalDirs : Z;
  TotalBytes : Z;
  Samples : list string;
  Warnings : list string
}.

(** [preview.Warnings = append(preview.Warnings, msg)]. *)
Definition addWarning (msg : string) (pv : ActionPreview) : ActionPreview :=
  mkActionPreview (pvType pv) (Sources pv) (pvDestination pv) (TotalFiles pv)
                  (TotalDirs pv) (TotalBytes pv) (Samples pv)
                  (Warnings pv ++ [msg]).

(** [preview.TotalDirs++]. *)
Definition countDir (pv : ActionPreview) : ActionPreview :=
  mkActionPreview (pvType pv) (Sources pv) (pvDestination pv) (TotalFiles pv)
                  (add64 (TotalDirs pv) 1) (TotalBytes pv) (Samples pv)
                  (Warnings pv).

(** [preview.TotalFiles++] and the sample kept while there are fewer
    than five. *)
Definition countFile (path : string) (pv : ActionPreview) : ActionPreview :=
  mkActionPreview (pvType pv) (Sources pv) (pvDestination pv)
                  (add64 (TotalFiles pv) 1) (TotalDirs pv) (TotalBytes pv)
                  (if (length (Samples pv) <? 5)%nat
                   then (Samples pv ++ [path])%list else Samples pv)
                  (Warnings pv).

(** [preview.TotalBytes += size]. *)
Definition addBytes (size : Z) (pv : ActionPreview) : ActionPreview :=
  mkActionPreview (pvType pv) (Sources pv) (pvDestination pv) (TotalFiles pv)
                  (TotalDirs pv) (add64 (TotalBytes pv) size) (Samples pv)
                  (Warnings pv).

(** The function [Preview] passes to [filepath.WalkDir] for the source
    [path]; [sizeOf] is the size [os.FileInfo] reports. *)
Definition previewVisit (fs : Objects) (sizeOf : FsObject -> Z) (path : string)
    (child : string) (call : WalkCall ActionEntry) (pv : ActionPreview)
  : WalkResult * ActionPreview :=
  match call with
  | VisitError _ walkErr => (WalkOk, addWarning (errorText walkErr) pv)
  | VisitEntry entry =>
      if aeIsDir entry then
        (WalkOk, if negb (String.eqb child path) then countDir pv else pv)
      else
        let pv := countFile child pv in
        match osLstat fs child with
        | inr fileInfo => (WalkOk, addBytes (sizeOf fileInfo) pv)
        | inl _ => (WalkOk, pv)
        end
  end.

(** The loop of [Preview] over the sources; [polls] counts the polls of
    the context. *)
Fixpoint previewLoop (fs : Objects) (sizeOf : FsObject -> Z)
    (ctx : ActionContext) (fuel : nat) (paths : list string) (polls : nat)
    (pv : ActionPreview) : option (error + ActionPreview) :=
  match paths with
  | [] => Some (inr pv)
  | path :: rest =>
      match ctxErrAt ctx polls with
      | Some e => Some (inl e)
      | None =>
          match osLstat fs path with
          | inl err =>
              previewLoop fs sizeOf ctx fuel rest (Datatypes.S polls)
                          (addWarning (errorText err) pv)
          | inr info =>
              if isDirObj info then
                match actionWalk (fun _ => fs) (previewVisit fs sizeOf path)
                                 fuel path (countDir pv) with
                | None => None
                | Some (walkErr, pv1) =>
                    let pv2 :=
                      match walkErr with
                      | Some e =>
                          if negb (bool_decide (e = Canceled))
                          then addWarning (errorText e) pv1 else pv1
                      | None => pv1
                      end in
                    previewLoop fs sizeOf ctx fuel rest (Datatypes.S polls) pv2
                end
              else
                previewLoop fs sizeOf ctx fuel rest (Datatypes.S polls)
                            (addBytes (sizeOf info) (countFile path pv))
          end
      end
  end.

(** [Preview].  [None] is "out of fuel"; an error stands for the zero
    [ActionPreview] returned with it. *)
Definition Preview (w : ActionWorld) (sizeOf : FsObject -> Z)
    (ctx : ActionContext) (fuel : nat) (req : ActionRequest)
  : option (error + ActionPreview) :=
  match normalizePaths w (SourcePaths req) with
  | inl err => Some (inl err)
  | inr paths =>
      match validateRequest w req paths with
      | Some err => Some (inl err)
      | None =>
          previewLoop (awFs w) sizeOf ctx fuel paths 0
                      (mkActionPreview (reqType req) paths (Destination req)
                                       0 0 0 [] [])
      end
  end.

(** The size a file reports: the length of its bytes; an archive is
    taken as empty. *)
Definition byteSize (o : FsObject) : Z :=
  match o with
  | ObjFile (Bytes data) _ _ => Z.of_nat (String.length data)
  | _ => 0
  end.

(** What the loop of [Preview] never changes, and the bound on the
    samples. *)
Definition previewOf (req : ActionRequest) (paths : list string)
    (pv : ActionPreview) : Prop :=
  pvType pv = reqType req /\ Sources pv = paths
  /\ pvDestination pv = Destination req
  /\ (length (Samples pv) <= 5)%nat.

(* ===================================================================== *)
(** * Paths of a walk *)
(* ===================================================================== *)

Lemma split_nonempty (s : string) : Filepath.split s <> [].
Proof.
  destruct s as [|c s]; simpl; [done |].
  destruct (Ascii.eqb c "/"); [done |]. by destruct (Filepath.split s).
Qed.

Lemma split_noSep (s : string) : noSep s = true -> Filepath.split s = [s].
Proof.
  induction s as [|c s IH]; simpl; [done |].
  intros [Hc Hs]%andb_true_iff. apply negb_true_iff in Hc. rewrite Hc.
  by rewrite IH.
Qed.

Lemma split_app_sep (a b : string) :
  Filepath.split (a ++ "/" ++ b) = (Filepath.split a ++ Filepath.split b)%list.
Proof.
  induction a as [|c a IH].
  - reflexivity.
  - rewrite append_cons. simpl. destruct (Ascii.eqb c "/").
    + by rewrite IH.
    + rewrite IH. pose proof (split_nonempty a).
      by destruct (Filepath.split a).
Qed.

Lemma joinSep_cons (c : string) (cs : list string) :
  cs <> [] -> Filepath.joinSep (c :: cs) = c ++ "/" ++ Filepath.joinSep cs.
Proof. by destruct cs. Qed.

Lemma joinSep_snoc (cs : list string) (n : string) :
  cs <> [] -> Filepath.joinSep (cs ++ [n]) = Filepath.joinSep cs ++ "/" ++ n.
Proof.
  induction cs as [|c cs IH]; [done |]. intros _.
  destruct cs as [|c2 cs]; [reflexivity |].
  change ((c :: c2 :: cs) ++ [n])%list with (c :: ((c2 :: cs) ++ [n]))%list.
  rewrite joinSep_cons by done.
  rewrite IH by done. rewrite (joinSep_cons c (c2 :: cs)) by done.
  by rewrite !append_assoc.
Qed.

Lemma split_joinSep (cs : list string) :
  Forall (fun c => noSep c = true) cs -> cs <> [] ->
  Filepath.split (Filepath.joinSep cs) = cs.
Proof.
  induction cs as [|c cs IH]; [done |]. intros Hall _.
  inversion Hall as [|? ? Hc Hcs]; subst.
  destruct cs as [|c2 cs]; [by apply split_noSep |].
  rewrite joinSep_cons by done. rewrite split_app_sep, split_noSep by done.
  by rewrite IH.
Qed.

Lemma absPath_snoc (cs : list string) (n : string) :
  absPath (cs ++ [n]) = slashed cs ++ n.
Proof.
  unfold absPath, slashed. destruct cs as [|c cs]; [reflexivity |].
  rewrite joinSep_snoc by done. unfold absPath. by rewrite !append_assoc.
Qed.

Lemma validName_noSep (cs : list string) :
  Forall validName cs -> Forall (fun c => noSep c = true) cs.
Proof. apply Forall_impl. by intros c (? & _). Qed.

Lemma cleanStep_valid (rooted : bool) (out : list string) (n : string) :
  validName n -> Filepath.cleanStep rooted out n = n :: out.
Proof.
  intros (_ & H1 & H2 & H3). unfold Filepath.cleanStep.
  by rewrite (proj2 (String.eqb_neq _ _) H1), (proj2 (String.eqb_neq _ _) H2),
             (proj2 (String.eqb_neq _ _) H3).
Qed.

Lemma fold_cleanStep_valid (rooted : bool) (cs out : list string) :
  Forall validName cs ->
  fold_left (Filepath.cleanStep rooted) cs out = (rev cs ++ out)%list.
Proof.
  revert out. induction cs as [|c cs IH]; intros out Hall; simpl; [done |].
  inversion Hall as [|? ? Hc Hcs]; subst.
  rewrite cleanStep_valid, IH by done. by rewrite <- app_assoc.
Qed.

Lemma IsAbs_absPath (cs : list string) (t : string) :
  Filepath.IsAbs (absPath cs ++ t) = true.
Proof.
  apply prefix_spec. exists (Filepath.joinSep cs ++ t).
  unfold absPath. by rewrite append_assoc.
Qed.

Lemma IsAbs_absPath_only (cs : list string) :
  Filepath.IsAbs (absPath cs) = true.
Proof. apply prefix_spec. by exists (Filepath.joinSep cs). Qed.

(** The elements [Clean] sees in a clean absolute path, with or without
    a further name. *)
Lemma clean_elems (cs more : list string) :
  Forall validName cs -> Forall validName more ->
  rev (fold_left (Filepath.cleanStep true)
                 ("" :: match cs with [] => [""] | _ => cs end ++ more) [])
  = (cs ++ more)%list.
Proof.
  intros Hcs Hmore.
  change (fold_left ?f ("" :: ?l) []) with (fold_left f l []).
  destruct cs as [|c cs].
  - change (fold_left ?f ([""] ++ ?l) []) with (fold_left f l []).
    rewrite fold_cleanStep_valid, app_nil_r by done. apply rev_involutive.
  - rewrite fold_cleanStep_valid by by apply Forall_app.
    rewrite app_nil_r. apply rev_involutive.
Qed.

Lemma split_absPath (cs : list string) :
  Forall validName cs ->
  Filepath.split (absPath cs) = "" :: match cs with [] => [""] | _ => cs end.
Proof.
  intros Hcs. unfold absPath. change ("/" ++ ?s) with (String "/" s). simpl.
  destruct cs as [|c cs]; [done |].
  rewrite split_joinSep; [done | by apply validName_noSep | done].
Qed.

Lemma Clean_absPath (cs : list string) :
  Forall validName cs -> Filepath.Clean (absPath cs) = absPath cs.
Proof.
  intros Hcs. unfold Filepath.Clean.
  rewrite IsAbs_absPath_only, split_absPath by done.
  pose proof (clean_elems cs [] Hcs ltac:(constructor)) as H.
  rewrite !app_nil_r in H. by rewrite H.
Qed.

Lemma Join_absPath (cs : list string) (n : string) :
  Forall validName cs -> validName n ->
  Filepath.Join (absPath cs) n = absPath (cs ++ [n]).
Proof.
  intros Hcs Hn. unfold Filepath.Join. simpl.
  unfold Filepath.Clean.
  rewrite (IsAbs_absPath cs ("/" ++ n)).
  rewrite split_app_sep, split_absPath, (split_noSep n) by (done || apply Hn).
  pose proof (clean_elems cs [n] Hcs ltac:(by constructor)) as H.
  simpl in H. simpl. by rewrite H.
Qed.

Lemma slashed_snoc (cs : list string) (n : string) :
  slashed (cs ++ [n]) = slashed cs ++ n ++ "/".
Proof.
  transitivity (absPath (cs ++ [n]) ++ "/"); [by destruct cs |].
  by rewrite absPath_snoc, append_assoc.
Qed.

Lemma inRegion_self (cs : list string) : inRegion cs (absPath cs).
Proof. by left. Qed.

Lemma inRegion_snoc_form (cs : list string) (n k : string) :
  inRegion (cs ++ [n]) k ->
  exists t, k = slashed cs ++ n ++ t /\ (t = "" \/ exists r, t = "/" ++ r).
Proof.
  intros [-> | [rest ->]].
  - exists "". rewrite absPath_snoc. split; [| by left].
    f_equal. clear. induction n as [|c n IH]; [done |].
    by rewrite append_cons, <- IH.
  - exists ("/" ++ rest). rewrite slashed_snoc, !append_assoc. eauto.
Qed.

Lemma inRegion_child (cs : list string) (n k : string) :
  inRegion (cs ++ [n]) k -> inRegion cs k.
Proof.
  intros (t & -> & _)%inRegion_snoc_form. right. by exists (n ++ t).
Qed.

Lemma hasPathPrefix_spec (root path : string) :
  hasPathPrefix root path = true <->
  path = root \/ exists rest, path = root ++ "/" ++ rest.
Proof. apply isWithin_spec. Qed.

Lemma hasPathPrefix_inRegion (cs : list string) (k : string) :
  hasPathPrefix (absPath cs) k = true -> inRegion cs k.
Proof.
  intros [-> | [rest ->]]%hasPathPrefix_spec; [by left |]. right.
  destruct cs as [|c cs].
  - by exists ("/" ++ rest).
  - exists rest. unfold slashed. by rewrite append_assoc.
Qed.

Lemma noSep_head_unique (n1 n2 t1 t2 : string) :
  noSep n1 = true -> noSep n2 = true ->
  (t1 = "" \/ exists r, t1 = "/" ++ r) ->
  (t2 = "" \/ exists r, t2 = "/" ++ r) ->
  n1 ++ t1 = n2 ++ t2 -> n1 = n2.
Proof.
  revert n2. induction n1 as [|c n1 IH]; intros [|d n2] H1 H2 Ht1 Ht2 Heq.
  - done.
  - simpl in H2. apply andb_true_iff in H2 as [Hd _].
    rewrite append_cons in Heq. change ("" ++ t1) with t1 in Heq.
    destruct Ht1 as [-> | [r ->]]; [done |].
    change ("/" ++ r) with (String "/" r) in Heq.
    injection Heq as <- _. done.
  - simpl in H1. apply andb_true_iff in H1 as [Hc _].
    rewrite append_cons in Heq. change ("" ++ t2) with t2 in Heq.
    destruct Ht2 as [-> | [r ->]]; [done |].
    change ("/" ++ r) with (String "/" r) in Heq.
    injection Heq as -> _. done.
  - simpl in H1, H2.
    apply andb_true_iff in H1 as [_ H1]. apply andb_true_iff in H2 as [_ H2].
    rewrite !append_cons in Heq. injection Heq as -> Heq.
    f_equal. eauto.
Qed.

Lemma siblings_disjoint (cs : list string) (n1 n2 k : string) :
  validName n1 -> validName n2 -> n1 <> n2 ->
  inRegion (cs ++ [n1]) k -> inRegion (cs ++ [n2]) k -> False.
Proof.
  intros (H1 & _) (H2 & _) Hne (t1 & -> & Ht1)%inRegion_snoc_form
         (t2 & Heq & Ht2)%inRegion_snoc_form.
  apply (inj (String.append (slashed cs))) in Heq.
  by apply Hne, (noSep_head_unique n1 n2 t1 t2).
Qed.

(** ** Well-formed trees *)

Lemma wfEntry_ind_nested (P : FsEntry -> Prop) :
  (forall name mtime lstat, P (FsFile name mtime lstat)) ->
  (forall name info readDir entries,
      NoDup (nameOf <$> entries) ->
      Forall (fun d => validName (nameOf d)) entries ->
      Forall P entries ->
      P (FsDir name info readDir entries)) ->
  forall d, wfEntry d -> P d.
Proof.
  intros Hfile Hdir. fix IH 2. intros d [name mtime lstat | name info rd es Hnd Hval Hwf].
  - apply Hfile.
  - apply Hdir; [done | done |].
    induction Hwf as [|d' es' Hd' _ IHes]; constructor.
    + by apply IH.
    + apply IHes.
      * by inversion Hnd.
      * by inversion Hval.
Qed.

Lemma walkDir_dir {S : Type}
    (fn : string -> WalkCall DirEntry -> S -> WalkResult * S) (path : string)
    (name : string) (info : error + Z) (readDir : option error)
    (entries : list FsEntry) (st : S) :
  walkDir fn path (FsDir name info readDir entries) st
  = let d := FsDir name info readDir entries in
    match fn path (VisitEntry (entryOf d)) st with
    | (WalkSkipDir, st1) => (WalkOk, st1)
    | (WalkErr e, st1) => (WalkErr e, st1)
    | (WalkOk, st1) =>
        let '(r2, st2) :=
          match readDir with
          | Some e => fn path (VisitError (Some (entryOf d)) e) st1
          | None => (WalkOk, st1)
          end in
        match r2 with
        | WalkSkipDir => (WalkOk, st2)
        | WalkErr e => (WalkErr e, st2)
        | WalkOk => walkEntries fn path entries st2
        end
    end.
Proof. reflexivity. Qed.

(** ** What a walk leaves behind *)

Lemma walked_refl (R : string -> Prop) (st : WalkState) : walked R st st.
Proof.
  split; [done |]. exists []. rewrite app_nil_r.
  split; [done |]. split; [constructor |]. intros job Hin. by apply elem_of_nil in Hin.
Qed.

Lemma walked_weaken (R R' : string -> Prop) (st st' : WalkState) :
  (forall k, R k -> R' k) -> walked R st st' -> walked R' st st'.
Proof.
  intros Hsub (Hframe & new & Hjobs & Hnd & Hnew). split.
  - intros k Hk. apply Hframe. eauto.
  - exists new. repeat split; [done | done | |]; by apply Hnew || apply Hsub, Hnew.
Qed.

(** Two walks of disjoint regions, one after the other. *)
Lemma walked_seq (R1 R2 : string -> Prop) (st st1 st2 : WalkState) :
  (forall k, R1 k -> R2 k -> False) ->
  walked R1 st st1 -> walked R2 st1 st2 ->
  walked (fun k => R1 k \/ R2 k) st st2.
Proof.
  intros Hdisj (Hf1 & new1 & Hj1 & Hnd1 & Hn1) (Hf2 & new2 & Hj2 & Hnd2 & Hn2).
  split.
  - intros k Hk. rewrite Hf2, Hf1; tauto.
  - exists (new1 ++ new2)%list. split; [by rewrite Hj2, Hj1, app_assoc |]. split.
    + rewrite fmap_app. apply list.NoDup_app. split; [done |]. split; [| done].
      intros p (j1 & -> & Hin1)%list_elem_of_fmap (j2 & Heq & Hin2)%list_elem_of_fmap.
      apply (Hdisj (jobPath j1)); [by apply Hn1 |]. rewrite Heq. by apply Hn2.
    + intros job [Hin | Hin]%elem_of_app.
      * destruct (Hn1 job Hin) as (HR & n & Hn & Hrest). split; [by left |].
        exists n. split; [| done]. rewrite Hf2; [done |].
        intros HR2. by apply (Hdisj (jobPath job)).
      * destruct (Hn2 job Hin) as (HR & Hz). split; [by right | done].
Qed.

(** A step that changes only keys of the region and adds no job. *)
Lemma walked_quiet (R : string -> Prop) (st st1 st2 : WalkState) :
  (forall k, ~ R k -> wsNodes st1 !! k = wsNodes st !! k) ->
  wsJobs st1 = wsJobs st ->
  walked R st1 st2 -> walked R st st2.
Proof.
  intros Hframe Hjobs (Hf & new & Hj & Hnd & Hn). split.
  - intros k Hk. by rewrite Hf, Hframe.
  - exists new. by rewrite <- Hjobs.
Qed.

Lemma walked_nojob (R : string -> Prop) (st st' : WalkState) :
  (forall k, ~ R k -> wsNodes st' !! k = wsNodes st !! k) ->
  wsJobs st' = wsJobs st -> walked R st st'.
Proof.
  intros Hframe Hjobs. split; [done |]. exists []. rewrite app_nil_r.
  split; [done |]. split; [constructor |].
  intros job Hin. by apply elem_of_nil in Hin.
Qed.

Lemma cachedUnder_outside (root k : string) (entries : gmap string cacheEntry) :
  hasPathPrefix root k = false -> cachedUnder root entries !! k = None.
Proof.
  intros Hout. unfold cachedUnder. rewrite lookup_fmap.
  assert (filter (fun kv => hasPathPrefix root kv.1 = true) entries !! k = None)
    as ->; [| done].
  apply map_lookup_filter_None. right. intros x _. simpl. congruence.
Qed.

Lemma mergeCachedSubtree_outside (s : FSScanner) (cs : list string)
    (nodes : NodeMap) (k : string) :
  ~ inRegion cs k ->
  mergeCachedSubtree s (absPath cs) nodes !! k = nodes !! k.
Proof.
  intros Hout. unfold mergeCachedSubtree.
  destruct (cacheEntries s) as [entries|]; [| done].
  rewrite lookup_union, cachedUnder_outside; [by rewrite (left_id None _) |].
  destruct (hasPathPrefix (absPath cs) k) eqn:Hp; [| done].
  by apply hasPathPrefix_inRegion in Hp.
Qed.

Section WalkFacts.
Variables (s : FSScanner) (ctx : Context) (req : ScanRequest) (root : string).

(** One call of the walk function at a clean absolute path. *)
Lemma scanVisit_walked (cs : list string) (call : WalkCall DirEntry)
    (st : WalkState) :
  walked (inRegion cs) st (scanVisit s ctx req root (absPath cs) call st).2.
Proof.
  pose proof (inRegion_self cs) as Hself.
  unfold scanVisit. destruct call as [entry | d err].
  - destruct (errAtVisit ctx (wsPolls st)); [by apply walked_nojob |].
    repeat (match goal with
            | |- context [if ?b then _ else _] => destruct b
            end; try by apply walked_nojob).
    + apply walked_nojob; [| done]. simpl. intros k Hk.
      by apply mergeCachedSubtree_outside.
    + apply walked_nojob; [| done]. simpl. intros k Hk.
      apply lookup_insert_ne. by intros <-.
    + split.
      * simpl. intros k Hk. apply lookup_insert_ne. by intros <-.
      * exists [mkFileJob (absPath cs) (deLstat entry)]. simpl.
        split; [done |]. split; [apply NoDup_singleton |].
        intros job ->%list_elem_of_singleton. split; [done |].
        eexists. rewrite lookup_insert_eq. done.
  - destruct (isPermissionErr err); by apply walked_nojob.
Qed.

(** A call for a directory or for an error adds no job. *)
Lemma scanVisit_quiet (cs : list string) (call : WalkCall DirEntry)
    (st : WalkState) :
  match call with VisitEntry entry => deIsDir entry = true | _ => True end ->
  let st' := (scanVisit s ctx req root (absPath cs) call st).2 in
  (forall k, ~ inRegion cs k -> wsNodes st' !! k = wsNodes st !! k)
  /\ wsJobs st' = wsJobs st.
Proof.
  intros Hdir st'. split; [apply (scanVisit_walked cs call st) |].
  subst st'. unfold scanVisit. destruct call as [entry | d err].
  - rewrite Hdir. destruct (errAtVisit ctx (wsPolls st)); [done |].
    repeat (match goal with
            | |- context [if ?b then _ else _] => destruct b
            end; try done).
  - by destruct (isPermissionErr err).
Qed.

Lemma walkEntries_walked (cs : list string) (ds : list FsEntry) :
  Forall validName cs ->
  NoDup (nameOf <$> ds) ->
  Forall (fun d => validName (nameOf d)) ds ->
  Forall (walksWell s ctx req root) ds ->
  forall st,
    walked (fun k => exists d, d ∈ ds /\ inRegion (cs ++ [nameOf d]) k) st
           (walkEntries (scanVisit s ctx req root) (absPath cs) ds st).2.
Proof.
  intros Hcs. induction ds as [|d1 rest IH]; intros Hnd Hval Hwalk st.
  - apply walked_refl.
  - apply list.NoDup_cons in Hnd as [Hfresh Hnd].
    inversion Hval as [|? ? Hv1 Hval']; subst.
    inversion Hwalk as [|? ? Hw1 Hwalk']; subst.
    simpl. fold (nameOf d1). rewrite Join_absPath by done.
    specialize (Hw1 (cs ++ [nameOf d1])%list st
                    ltac:(apply Forall_app; split; [done | by constructor])).
    destruct (walkDir _ _ d1 st) as [r st1]. simpl in Hw1.
    assert (walked (fun k => exists d, d ∈ d1 :: rest
                                       /\ inRegion (cs ++ [nameOf d]) k) st st1)
      as Hone.
    { eapply walked_weaken; [| exact Hw1]. intros k Hk. exists d1.
      split; [apply list_elem_of_here | done]. }
    destruct r; [| exact Hone | exact Hone].
    specialize (IH Hnd Hval' Hwalk' st1).
    eapply walked_weaken; [| eapply walked_seq; [| exact Hw1 | exact IH]].
    + intros k [Hk | (d & Hd & Hk)].
      * exists d1. split; [apply list_elem_of_here | done].
      * exists d. split; [by apply list_elem_of_further | done].
    + intros k Hk1 (d & Hd & Hk2).
      apply (siblings_disjoint cs (nameOf d1) (nameOf d) k); try done.
      * rewrite list.Forall_forall in Hval'. by apply Hval'.
      * intros Heq. apply Hfresh. rewrite Heq. by apply list_elem_of_fmap_2.
Qed.

Lemma walkDir_walked (d : FsEntry) :
  wfEntry d -> walksWell s ctx req root d.
Proof.
  induction 1 as [name mtime lstat | name info rd es Hnd Hval IH]
    using wfEntry_ind_nested; intros cs st Hcs.
  - apply scanVisit_walked.
  - rewrite walkDir_dir. cbv zeta.
    set (d := FsDir name info rd es).
    pose proof (scanVisit_walked cs (VisitEntry (entryOf d)) st) as Hw1.
    pose proof (scanVisit_quiet cs (VisitEntry (entryOf d)) st eq_refl)
      as [Hf1 Hj1]. cbv zeta in Hf1, Hj1.
    destruct (scanVisit s ctx req root (absPath cs) (VisitEntry (entryOf d)) st)
      as [r1 st1]. simpl in Hw1, Hf1, Hj1.
    destruct r1; [| done | done].
    assert (exists r2 st2,
               match rd with
               | Some e => scanVisit s ctx req root (absPath cs)
                                     (VisitError (Some (entryOf d)) e) st1
               | None => (WalkOk, st1)
               end = (r2, st2)
               /\ (forall k, ~ inRegion cs k -> wsNodes st2 !! k = wsNodes st !! k)
               /\ wsJobs st2 = wsJobs st) as (r2 & st2 & -> & Hf2 & Hj2).
    { destruct rd as [e|]; [| by exists WalkOk, st1].
      pose proof (scanVisit_quiet cs (VisitError (Some (entryOf d)) e) st1 I)
        as [Hf Hj]. cbv zeta in Hf, Hj.
      destruct (scanVisit s ctx req root (absPath cs) _ st1) as [r2 st2].
      exists r2, st2. split; [done |]. simpl in Hf, Hj. split; [| congruence].
      intros k Hk. by rewrite Hf, Hf1. }
    destruct r2; [| by apply walked_nojob | by apply walked_nojob].
    eapply walked_quiet; [exact Hf2 | exact Hj2 |].
    eapply walked_weaken; [| by apply walkEntries_walked].
    intros k (d' & _ & Hk). by eapply inRegion_child.
Qed.

End WalkFacts.

(** After the walk of a well-formed tree from a clean absolute root, the
    jobs have distinct paths, and each path holds the file node that the
    walk made for it, with no size yet. *)
Lemma scanWalk_jobs (w : World) (ctx : Context) (req : ScanRequest)
    (s : FSScanner) (cs : list string) (progress : Chan ScanProgress) :
  Forall validName cs ->
  (forall tree, lstatTree w (absPath cs) = inr tree -> wfEntry tree) ->
  let st := (scanWalk w ctx req s (absPath cs) progress).2 in
  NoDup (jobPath <$> wsJobs st)
  /\ forall job, job ∈ wsJobs st ->
                 inRegion cs (jobPath job)
                 /\ zeroFileAt (wsNodes st) (jobPath job).
Proof.
  intros Hcs Hwf st. subst st. unfold scanWalk, WalkDir.
  set (st0 := mkWalkState _ _ _ _ _).
  assert (walked (inRegion cs) st0
            (match lstatTree w (absPath cs) with
             | inl e => scanVisit s ctx req (absPath cs) (absPath cs)
                                  (VisitError None e) st0
             | inr d => walkDir (scanVisit s ctx req (absPath cs)) (absPath cs) d st0
             end).2) as Hw.
  { destruct (lstatTree w (absPath cs)) as [e | tree] eqn:Htree.
    - apply scanVisit_walked.
    - by apply walkDir_walked; [apply Hwf |]. }
  destruct (match lstatTree w (absPath cs) with inl _ => _ | inr _ => _ end)
    as [r st]. simpl in Hw.
  destruct Hw as (_ & new & Hjobs & Hnd & Hnew). simpl in Hjobs.
  assert ((let '(r, st') := (r, st) in
           match r with WalkErr e => (Some e, st') | _ => (None, st') end).2 = st)
    as -> by by destruct r.
  rewrite Hjobs. by split.
Qed.

(** ** A failed stat *)

(** The collector writes only the node of the result's path. *)
Lemma collectResult_other (root : string) (co : Collector) (r : fileResult)
    (k : string) :
  k <> frPath r -> coNodes (collectResult root co r) !! k = coNodes co !! k.
Proof.
  intros Hne. unfold collectResult. simpl.
  destruct (coNodes co !! frPath r) as [node|]; [| done].
  destruct (frErr r); [done |]. by rewrite lookup_insert_ne.
Qed.

(** A result that carries an error changes no node. *)
Lemma collectResult_error (root : string) (co : Collector) (r : fileResult) :
  frErr r <> None -> coNodes (collectResult root co r) = coNodes co.
Proof.
  intros Herr. unfold collectResult. simpl.
  destruct (coNodes co !! frPath r) as [node|]; [| done].
  by destruct (frErr r).
Qed.

(** If every job for [p] fails its stat, the node of [p] is, after all
    results are in, the one the walk made. *)
Lemma collect_failed_untouched (root : string) (ctx : Context)
    (jobs : list fileJob) (p : string) :
  (forall job, job ∈ jobs -> jobPath job = p -> exists e, jobLstat job = inl e) ->
  forall (n : nat) (co : Collector),
    coNodes (fold_left (collectResult root) (worker ctx n jobs) co) !! p
    = coNodes co !! p.
Proof.
  induction jobs as [|job jobs IH]; intros Hfail n co; [done |].
  simpl. destruct (errAtJob ctx n).
  - apply IH. intros j Hj. apply Hfail. by apply list_elem_of_further.
  - simpl. rewrite IH by (intros j Hj; apply Hfail; by apply list_elem_of_further).
    destruct (decide (jobPath job = p)) as [Hp | Hp].
    + destruct (Hfail job (list_elem_of_here _ _) Hp) as [e He]. rewrite He.
      by rewrite collectResult_error.
    + apply collectResult_other. by destruct (jobLstat job).
Qed.

Lemma NoDup_fmap_eq {A B : Type} (f : A -> B) (l : list A) (x y : A) :
  NoDup (f <$> l) -> x ∈ l -> y ∈ l -> f x = f y -> x = y.
Proof.
  induction l as [|a l IH]; intros Hnd Hx Hy Heq.
  - by apply elem_of_nil in Hx.
  - rewrite fmap_cons in Hnd. apply list.NoDup_cons in Hnd as [Ha Hnd].
    apply elem_of_cons in Hx as [-> | Hx]; apply elem_of_cons in Hy as [-> | Hy].
    + done.
    + exfalso. apply Ha. rewrite Heq. by apply list_elem_of_fmap_2.
    + exfalso. apply Ha. rewrite <- Heq. by apply list_elem_of_fmap_2.
    + by apply IH.
Qed.

(** A file node without size keeps [AccumBytes = 0] in [applyAccumulation]. *)
Lemma applyAccumulation_zero_file (rt : Runtime) (nodes : NodeMap) (k : string) :
  zeroFileAt nodes k -> zeroFileAt (applyAccumulation rt nodes) k.
Proof.
  intros (n & Hk & Hn). unfold applyAccumulation, zeroFileAt.
  apply (fold_keeps accumulationStep
           (fun n => Type_ n = NodeFile /\ SizeBytes n = 0 /\ AccumBytes n = 0))
    with (n := n); [| done | done].
  intros m p j x Hj (Hx1 & Hx2 & Hx3). destruct (decide (j = p)) as [->|Hne].
  - unfold accumulationStep. rewrite Hj, Hx1, Hx3. simpl.
    rewrite lookup_insert_eq. eexists. split; [done |]. simpl. auto.
  - rewrite accumulationStep_other by done. eauto.
Qed.

(** After the four passes, a file node without size has no accumulated
    size either, counts one file and no directory. *)
Lemma aggregate_zero_file (rt : Runtime) (nodes : NodeMap) (k : string) :
  zeroFileAt nodes k ->
  exists n, aggregate rt nodes !! k = Some n
            /\ Type_ n = NodeFile /\ SizeBytes n = 0 /\ AccumBytes n = 0
            /\ FileCount n = 1 /\ DirCount n = 0.
Proof.
  intros (n0 & Hk0 & Ht0 & Hs0 & Ha0). unfold aggregate.
  destruct (related_forth _ _ _ _ _ (applyHierarchy_related rt nodes) Hk0)
    as (n1 & Hk1 & (_ & _ & Ht1 & Hs1 & _) & Ha1 & _).
  set (h := applyHierarchy rt nodes) in *.
  destruct (applyAccumulation_zero_file rt h k) as (n2 & Hk2 & Ht2 & Hs2 & Ha2).
  { exists n1. repeat split; congruence. }
  set (a := applyAccumulation rt h) in *.
  destruct (applyFileCounts_file rt a k n2 Hk2 Ht2) as (n3 & Hk3 & Ht3 & Hf3).
  destruct (related_forth _ _ _ _ _ (applyFileCounts_related rt a) Hk2)
    as (n3' & Hk3' & (_ & _ & _ & Hs3 & _) & _ & Ha3 & _).
  rewrite Hk3 in Hk3'. injection Hk3' as <-.
  set (f := applyFileCounts rt a) in *.
  destruct (applyDirCounts_file rt f k n3 Hk3 Ht3) as (n4 & Hk4 & Ht4 & Hd4).
  destruct (related_forth _ _ _ _ _ (applyDirCounts_related rt f) Hk3)
    as (n4' & Hk4' & (_ & _ & _ & Hs4 & _) & _ & Ha4 & Hf4).
  rewrite Hk4 in Hk4'. injection Hk4' as <-.
  exists n4. repeat split; congruence.
Qed.

(** ** The same tree with every failed stat answered as an empty file *)

Lemma FsEntry_ind_nested (P : FsEntry -> Prop) :
  (forall name mtime lstat, P (FsFile name mtime lstat)) ->
  (forall name info readDir entries,
      Forall P entries -> P (FsDir name info readDir entries)) ->
  forall d, P d.
Proof.
  intros Hfile Hdir. fix IH 1. intros [name mtime lstat | name info rd es].
  - apply Hfile.
  - apply Hdir. induction es as [|d es IHes]; constructor; [apply IH | apply IHes].
Qed.

Lemma entryOf_zeroFailed (d : FsEntry) :
  entryOf (zeroFailed d) = zeroFailedEntry (entryOf d).
Proof. by destruct d. Qed.

Section ZeroFailedWalk.
Variables (s : FSScanner) (ctx : Context) (req : ScanRequest) (root : string).

Lemma scanVisit_zeroFailed (path : string) (call : WalkCall DirEntry)
    (st : WalkState) :
  scanVisit s ctx req root path (zeroFailedCall call) (zeroFailedState st)
  = prod_map id zeroFailedState (scanVisit s ctx req root path call st).
Proof.
  unfold scanVisit. destruct call as [entry | d err]; simpl.
  - destruct (errAtVisit ctx (wsPolls st)); [done |].
    unfold skipOf, canReuseDir, countEntry. simpl.
    repeat (match goal with
            | |- context [if ?b then _ else _] => destruct b
            end; try done).
    all: unfold zeroFailedState; simpl; rewrite ?fmap_app; try done.
  - by destruct (isPermissionErr err).
Qed.

Lemma walkEntries_zeroFailed (path : string) (ds : list FsEntry) :
  Forall (fun d => forall path st,
              walkDir (scanVisit s ctx req root) path (zeroFailed d)
                      (zeroFailedState st)
              = prod_map id zeroFailedState
                         (walkDir (scanVisit s ctx req root) path d st)) ds ->
  forall st,
    walkEntries (scanVisit s ctx req root) path (map zeroFailed ds)
                (zeroFailedState st)
    = prod_map id zeroFailedState
               (walkEntries (scanVisit s ctx req root) path ds st).
Proof.
  induction 1 as [|d ds Hd _ IH]; intros st; [done |].
  simpl. rewrite entryOf_zeroFailed. simpl. rewrite Hd.
  destruct (walkDir _ _ d st) as [[| |e] st1]; simpl; [apply IH | done | done].
Qed.

Lemma walkDir_zeroFailed (d : FsEntry) (path : string) (st : WalkState) :
  walkDir (scanVisit s ctx req root) path (zeroFailed d) (zeroFailedState st)
  = prod_map id zeroFailedState (walkDir (scanVisit s ctx req root) path d st).
Proof.
  revert path st.
  induction d as [name mtime lstat | name info rd es IH] using FsEntry_ind_nested;
    intros path st.
  - apply (scanVisit_zeroFailed path (VisitEntry (entryOf (FsFile name mtime lstat)))).
  - change (zeroFailed (FsDir name info rd es))
      with (FsDir name info rd (map zeroFailed es)).
    rewrite !walkDir_dir. cbv zeta.
    change (VisitEntry (entryOf (FsDir name info rd (map zeroFailed es))))
      with (zeroFailedCall (VisitEntry (entryOf (FsDir name info rd es)))).
    rewrite scanVisit_zeroFailed.
    destruct (scanVisit s ctx req root path _ st) as [[| |e] st1]; simpl;
      [| done | done].
    destruct rd as [e|].
    + destruct (isPermissionErr e); [| done].
      exact (walkEntries_zeroFailed path es IH (mkWalkState _ _ _ _ _)).
    + by apply walkEntries_zeroFailed.
Qed.

End ZeroFailedWalk.

Lemma scanWalk_zeroFailed (w : World) (ctx : Context) (req : ScanRequest)
    (s : FSScanner) (root : string) (progress : Chan ScanProgress) :
  scanWalk (zeroFailedWorld w) ctx req s root progress
  = prod_map id zeroFailedState (scanWalk w ctx req s root progress).
Proof.
  unfold scanWalk, WalkDir.
  change (lstatTree (zeroFailedWorld w) root)
    with (match lstatTree w root with
          | inl e => inl e
          | inr d => inr (zeroFailed d)
          end).
  set (st0 := mkWalkState _ _ _ _ _).
  destruct (lstatTree w root) as [e | tree].
  - pose proof (scanVisit_zeroFailed s ctx req root root (VisitError None e) st0)
      as Hv.
    change (zeroFailedCall (VisitError None e)) with (@VisitError DirEntry None e)
      in Hv.
    change (zeroFailedState st0) with st0 in Hv.
    destruct (scanVisit s ctx req root root _ st0) as [r st1].
    injection Hv as Hst. by destruct r; simpl; rewrite <- Hst.
  - pose proof (walkDir_zeroFailed s ctx req root tree root st0) as Hw.
    change (zeroFailedState st0) with st0 in Hw.
    destruct (walkDir (scanVisit s ctx req root) root tree st0) as [r st1].
    simpl in Hw. rewrite Hw. by destruct r.
Qed.

Lemma collectResult_zero (root : string) (co : Collector) (p : string)
    (e : error) :
  zeroFileAt (coNodes co) p ->
  collectResult root co (mkFileResult p 0 None)
  = collectResult root co (mkFileResult p 0 (Some e)).
Proof.
  intros (n & Hp & _ & Hs & Ha). unfold collectResult. simpl. rewrite Hp.
  f_equal. apply insert_id. rewrite Hp. f_equal.
  destruct n; simpl in *; by subst.
Qed.

(** With distinct job paths and sizeless nodes, the collector ends in the
    same state whether failed stats are errors or empty files. *)
Lemma collect_zeroFailed (root : string) (ctx : Context) (jobs : list fileJob) :
  NoDup (jobPath <$> jobs) ->
  forall (n : nat) (co : Collector),
    (forall job, job ∈ jobs -> zeroFileAt (coNodes co) (jobPath job)) ->
    fold_left (collectResult root) (worker ctx n (zeroFailedJob <$> jobs)) co
    = fold_left (collectResult root) (worker ctx n jobs) co.
Proof.
  induction jobs as [|job jobs IH]; intros Hnd n co Hzero; [done |].
  rewrite fmap_cons in Hnd. apply list.NoDup_cons in Hnd as [Hfresh Hnd].
  simpl. destruct (errAtJob ctx n).
  - apply IH; [done |]. intros j Hj. apply Hzero. by apply list_elem_of_further.
  - simpl.
    assert (collectResult root co
              match zeroIfFailed (jobLstat job) with
              | inl err => mkFileResult (jobPath job) 0 (Some err)
              | inr size => mkFileResult (jobPath job) size None
              end
            = collectResult root co
                match jobLstat job with
                | inl err => mkFileResult (jobPath job) 0 (Some err)
                | inr size => mkFileResult (jobPath job) size None
                end) as ->.
    { destruct (jobLstat job) as [e | size]; [| done]. simpl.
      apply collectResult_zero, Hzero, list_elem_of_here. }
    apply IH; [done |]. intros j Hj.
    destruct (Hzero j (list_elem_of_further _ _ _ Hj)) as (x & Hx & Hrest).
    exists x. split; [| done]. rewrite collectResult_other; [done |].
    intros Heq. apply Hfresh.
    replace (jobPath job) with (jobPath j)
      by (rewrite Heq; by destruct (jobLstat job)).
    by apply list_elem_of_fmap_2.
Qed.

Lemma statModTime_zeroFailed (w : World) (path : string) :
  statModTime (zeroFailedWorld w) path = statModTime w path.
Proof.
  unfold statModTime. simpl. destruct (lstatTree w path) as [e | d]; [done |].
  by destruct d.
Qed.

(** [replaceCache] stores every node of the scan; only the children list
    of the root's parent may be extended. *)
Lemma replaceCache_lookup (root : string) (nodes : NodeMap) (s : FSScanner)
    (k : string) (n : Node) :
  nodes !! k = Some n ->
  exists n', cache (replaceCache root nodes s) !! k = Some n'
             /\ Type_ n' = Type_ n /\ SizeBytes n' = SizeBytes n
             /\ AccumBytes n' = AccumBytes n
             /\ FileCount n' = FileCount n /\ DirCount n' = DirCount n.
Proof.
  intros Hk. unfold replaceCache. simpl.
  set (cache1 := nodes ∪ _).
  assert (cache1 !! k = Some n) as H1 by (by apply lookup_union_Some_l).
  destruct (String.eqb _ root); [eauto 10 |].
  destruct (cache1 !! Filepath.Dir root) as [p|] eqn:Hp; [| eauto 10].
  destruct (containsID _ root); [eauto 10 |].
  destruct (decide (k = Filepath.Dir root)) as [-> | Hne].
  - rewrite lookup_insert_eq. rewrite H1 in Hp. injection Hp as <-.
    eexists. split; [done |]. by simpl.
  - rewrite lookup_insert_ne by done. eauto 10.
Qed.

(** From the walk on, a scan cannot tell a failed stat from the stat of an
    empty file. *)
Lemma scanFull_zeroFailed (rt : Runtime) (w : World) (ctx : Context)
    (req : ScanRequest) (s1 : FSScanner) (cs : list string) :
  Forall validName cs ->
  (forall tree, lstatTree w (absPath cs) = inr tree -> wfEntry tree) ->
  (scanFull rt (zeroFailedWorld w) ctx req s1 (absPath cs)).1
  = (scanFull rt w ctx req s1 (absPath cs)).1
  /\ disk (scanFull rt (zeroFailedWorld w) ctx req s1 (absPath cs)).2
     = disk (scanFull rt w ctx req s1 (absPath cs)).2.
Proof.
  intros Hcs Hwf.
  destruct (scanWalk_jobs w ctx req s1 cs (makeChan 64) Hcs Hwf) as [Hnd Hjobs].
  unfold scanFull. rewrite scanWalk_zeroFailed.
  destruct (scanWalk w ctx req s1 (absPath cs) (makeChan 64)) as [walkErr st].
  simpl in Hnd, Hjobs. cbn [prod_map fst snd id].
  unfold collect. cbn [zeroFailedState wsJobs wsNodes wsProgress wsScanned].
  rewrite collect_zeroFailed
    by (try done; intros job Hjob; by apply Hjobs).
  destruct walkErr as [err|]; [done |].
  change (receiving (zeroFailedWorld w)) with (receiving w).
  change (elapsed (zeroFailedWorld w)) with (elapsed w).
  destruct (sendBlocking (receiving w) _ _); cbn [fst snd];
    (split; [done |]); unfold saveCache;
    (destruct (String.eqb _ ""); [done |]);
    change (diskWritable (zeroFailedWorld w)) with (diskWritable w);
    by destruct (diskWritable w _).
Qed.

Lemma Scan_zeroFailed (rt : Runtime) (w : World) (ctx : Context)
    (req : ScanRequest) (s : FSScanner) (cs : list string) :
  cleanPath w (RootPath req) = absPath cs ->
  Forall validName cs ->
  (forall tree, lstatTree w (absPath cs) = inr tree -> wfEntry tree) ->
  (Scan rt (zeroFailedWorld w) ctx req s).1 = (Scan rt w ctx req s).1
  /\ disk (Scan rt (zeroFailedWorld w) ctx req s).2
     = disk (Scan rt w ctx req s).2.
Proof.
  intros Hroot Hcs Hwf. unfold Scan.
  change (cleanPath (zeroFailedWorld w) (RootPath req))
    with (cleanPath w (RootPath req)).
  change (loadCache (zeroFailedWorld w) s) with (loadCache w s).
  change (elapsed (zeroFailedWorld w)) with (elapsed w).
  rewrite Hroot.
  destruct (loadCache w s) as [s1 loadErr].
  destruct (negb _); [done |].
  unfold canReuseRoot. rewrite statModTime_zeroFailed.
  fold (canReuseRoot w
          match loadErr, progress s1 with
          | Some err, Some ch =>
              setProgress
                (Some (progressNonBlocking ch
                         (mkScanProgress (absPath cs) 0 false (errorText err) "")))
                s1
          | _, _ => s1
          end (absPath cs) (ShowHidden req)).
  destruct (canReuseRoot w _ (absPath cs) (ShowHidden req)); [done |].
  destruct (isCached _ (absPath cs)); [done |].
  by apply scanFull_zeroFailed.
Qed.

(** A stat that fails in a worker does not fail the scan, and the file is
    treated as an empty file.  For a clean absolute root over a tree
    whose directories hold valid, distinct names, and a context that no
    worker finds done (a worker that does stops answering jobs):
    - the scan's outcome, the scanner it leaves and the cache file it
      writes are the ones of the same scan over the tree in which every
      failed stat is answered with size 0 (so the file is counted in every
      [FileCount] exactly as an empty file is);
    - when the walk returns no error, the scan returns a nil error (or,
      with nobody receiving, waits on its last send), and the node of
      every job whose stat fails is a file node with [SizeBytes = 0] and
      [AccumBytes = 0] (it adds nothing to a sum of [AccumBytes]), with
      [FileCount = 1] and [DirCount = 0]. *)
Theorem failed_stat_counts_as_an_empty_file
    (rt : Runtime) (w : World) (ctx : Context) (req : ScanRequest)
    (s : FSScanner) (cs : list string) :
  cleanPath w (RootPath req) = absPath cs ->
  Forall validName cs ->
  (forall tree, lstatTree w (absPath cs) = inr tree -> wfEntry tree) ->
  (forall n, errAtJob ctx n = None) ->
  ((Scan rt (zeroFailedWorld w) ctx req s).1 = (Scan rt w ctx req s).1
   /\ disk (Scan rt (zeroFailedWorld w) ctx req s).2
      = disk (Scan rt w ctx req s).2)
  /\ forall (s1 : FSScanner) (job : fileJob) (err : error),
      let walk := scanWalk w ctx req s1 (absPath cs) (makeChan 64) in
      let run := scanFull rt w ctx req s1 (absPath cs) in
      walk.1 = None ->
      job ∈ wsJobs walk.2 ->
      jobLstat job = inl err ->
      (run.1.1 = Returned (mkScanResult (absPath cs) (elapsed w), None)
       \/ (receiving w = false /\ run.1.1 = Blocked))
      /\ exists n, cache run.1.2 !! jobPath job = Some n
                   /\ Type_ n = NodeFile
                   /\ SizeBytes n = 0 /\ AccumBytes n = 0
                   /\ FileCount n = 1 /\ DirCount n = 0.
Proof.
  intros Hroot Hcs Hwf _. split; [by apply (Scan_zeroFailed rt w ctx req s cs) |].
  intros s1 job err walk run Hwalk Hjob Herr. subst walk run.
  destruct (scanWalk_jobs w ctx req s1 cs (makeChan 64) Hcs Hwf) as [Hnd Hjobs].
  unfold scanFull.
  destruct (scanWalk w ctx req s1 (absPath cs) (makeChan 64)) as [walkErr st].
  simpl in Hwalk, Hjob, Hnd, Hjobs. subst walkErr.
  set (co := collect (absPath cs) (worker ctx 0 (wsJobs st)) (wsNodes st)
                     (wsProgress st)).
  assert (zeroFileAt (coNodes co) (jobPath job)) as Hzero.
  { unfold zeroFileAt, co, collect.
    rewrite (collect_failed_untouched (absPath cs) ctx (wsJobs st) (jobPath job)).
    - by apply Hjobs.
    - intros job' Hjob' Hpath. exists err.
      by rewrite (NoDup_fmap_eq jobPath (wsJobs st) job' job Hnd Hjob' Hjob Hpath). }
  destruct (aggregate_zero_file rt (coNodes co) (jobPath job) Hzero)
    as (n & Hn & Ht & Hs & Ha & Hf & Hd).
  destruct (replaceCache_lookup (absPath cs) (aggregate rt (coNodes co)) s1
              (jobPath job) n Hn) as (n' & Hn' & Ht' & Hs' & Ha' & Hf' & Hd').
  assert (exists m, cache (replaceCache (absPath cs) (aggregate rt (coNodes co)) s1)
                      !! jobPath job = Some m
                    /\ Type_ m = NodeFile /\ SizeBytes m = 0 /\ AccumBytes m = 0
                    /\ FileCount m = 1 /\ DirCount m = 0) as Hnode.
  { exists n'. repeat split; congruence. }
  unfold sendBlocking.
  destruct (chanFull (coProgress co)); [destruct (receiving w) eqn:Hrecv |];
    cbn [fst snd]; (split; [| exact Hnode]).
  - left. reflexivity.
  - right. split; reflexivity.
  - left. reflexivity.
Qed.

Lemma failed_stat_counts_as_an_empty_file_witness :
  exists n,
    cache (scanFull plainRuntime goneWorld background
                    (mkScanRequest "/root" false) (NewFSScanner goneWorld)
                    "/root").1.2 !! "/root/gone" = Some n
    /\ Type_ n = NodeFile /\ SizeBytes n = 0 /\ AccumBytes n = 0
    /\ FileCount n = 1 /\ DirCount n = 0.
Proof.
  refine (proj2 (proj2 (failed_stat_counts_as_an_empty_file
                          plainRuntime goneWorld background
                          (mkScanRequest "/root" false) (NewFSScanner goneWorld)
                          ["root"] _ _ _ _)
                   (NewFSScanner goneWorld)
                   (mkFileJob "/root/gone" (inl ErrNotExist)) ErrNotExist _ _ _)).
  - reflexivity.
  - repeat constructor; discriminate.
  - intros tree Htree. vm_compute in Htree. injection Htree as <-.
    constructor.
    + vm_compute. repeat constructor; set_solver.
    + repeat constructor; discriminate.
    + repeat constructor.
  - reflexivity.
  - reflexivity.
  - vm_compute. repeat constructor.
  - reflexivity.
Defined.

(* ===================================================================== *)
(** * Deepest first: the sums of a directory *)
(* ===================================================================== *)

Section SinkSorted.
Context {A : Type}.
Variable key : A -> Z.

(** The sorted prefix, held last element first, stays ordered by
    increasing key when an element sinks into it. *)
Lemma sink_sorted (x : A) (acc : list A) :
  StronglySorted (fun a b => key a <= key b) acc ->
  StronglySorted (fun a b => key a <= key b)
                 (sink (fun a b => key a >? key b) x acc).
Proof.
  induction acc as [|y rest IH]; intros Hs; simpl.
  - repeat constructor.
  - inversion Hs as [|? ? Hrest Hy]; subst.
    destruct (key x >? key y) eqn:Hless.
    + constructor; [by apply IH |].
      apply list.Forall_forall. intros z Hz.
      rewrite sink_perm in Hz. apply elem_of_cons in Hz as [-> | Hz].
      * lia.
      * rewrite list.Forall_forall in Hy. by apply Hy.
    + constructor; [done |]. constructor; [lia |].
      eapply list.Forall_impl; [exact Hy |]. simpl. intros z Hz. lia.
Qed.

Lemma sorted_before (R : A -> A -> Prop) (a b : list A) (k : A) :
  StronglySorted R (a ++ k :: b)%list -> Forall (fun x => R x k) a.
Proof.
  induction a as [|x a IH]; simpl; intros Hs; [constructor |].
  inversion Hs as [|? ? Hrest Hx]; subst. constructor; [| by apply IH].
  rewrite list.Forall_forall in Hx. apply Hx.
  apply elem_of_app. right. apply list_elem_of_here.
Qed.

(** In a slice sorted by decreasing key, what comes after an element is
    not above it. *)
Lemma insertionSort_later (l l1 l2 : list A) (k : A) :
  insertionSort (fun a b => key a >? key b) l = (l1 ++ k :: l2)%list ->
  Forall (fun x => key x <= key k) l2.
Proof.
  unfold insertionSort.
  assert (forall acc,
             StronglySorted (fun a b => key a <= key b) acc ->
             StronglySorted (fun a b => key a <= key b)
               (fold_left (fun acc x => sink (fun a b => key a >? key b) x acc)
                          l acc)) as Hsorted.
  { induction l as [|x l IH]; intros acc Hacc; simpl; [done |].
    by apply IH, sink_sorted. }
  intros Hsplit. specialize (Hsorted [] ltac:(constructor)).
  apply (f_equal (@rev A)) in Hsplit. rewrite rev_involutive in Hsplit.
  rewrite Hsplit, rev_app_distr in Hsorted. simpl in Hsorted.
  rewrite <- app_assoc in Hsorted. simpl in Hsorted.
  apply sorted_before in Hsorted.
  apply list.Forall_forall. intros x Hx.
  rewrite list.Forall_forall in Hsorted. apply Hsorted.
  apply list_elem_of_In, in_rev. rewrite rev_involutive.
  by apply list_elem_of_In.
Qed.
End SinkSorted.

Lemma sumChildren_ext (f : Node -> Z) (a b : NodeMap) (ids : list string) :
  (forall c, c ∈ ids -> a !! c = b !! c) ->
  sumChildren f a ids = sumChildren f b ids.
Proof.
  unfold sumChildren. generalize 0.
  induction ids as [|c ids IH]; intros total Hext; simpl; [done |].
  rewrite (Hext c) by apply list_elem_of_here.
  apply IH. intros c' Hc'. apply Hext. by apply list_elem_of_further.
Qed.

Lemma sumDirCounts_ext (a b : NodeMap) (ids : list string) :
  (forall c, c ∈ ids -> a !! c = b !! c) ->
  sumDirCounts a ids = sumDirCounts b ids.
Proof.
  unfold sumDirCounts. generalize 0.
  induction ids as [|c ids IH]; intros total Hext; simpl; [done |].
  rewrite (Hext c) by apply list_elem_of_here.
  apply IH. intros c' Hc'. apply Hext. by apply list_elem_of_further.
Qed.

(** A sum over the children reads one field: indexes that agree on it
    give the same sum. *)
Lemma sumChildren_related (R : Node -> Node -> Prop) (f : Node -> Z)
    (a b : NodeMap) (ids : list string) :
  (forall n n', R n n' -> f n' = f n) ->
  related R a b -> sumChildren f a ids = sumChildren f b ids.
Proof.
  intros Hf HR. unfold sumChildren. generalize 0.
  induction ids as [|c ids IH]; intros total; simpl; [done |].
  specialize (HR c). destruct HR as [n n' Hn |]; [| apply IH].
  rewrite (Hf n n' Hn). apply IH.
Qed.

Section PassOrder.
Variable step : NodeMap -> string -> NodeMap.
Variable field : Node -> Z.
Variable total : NodeMap -> list string -> Z.
Hypothesis step_other : forall nodes p k,
    k <> p -> step nodes p !! k = nodes !! k.
Hypothesis step_keeps : forall nodes p,
    related (fun n n' => Type_ n' = Type_ n /\ ChildrenIDs n' = ChildrenIDs n)
            nodes (step nodes p).
Hypothesis step_dir : forall nodes k n,
    nodes !! k = Some n -> Type_ n = NodeDir ->
    exists n', step nodes k !! k = Some n'
               /\ field n' = total nodes (ChildrenIDs n).
Hypothesis total_ext : forall a b ids,
    (forall c, c ∈ ids -> a !! c = b !! c) -> total a ids = total b ids.

Lemma fold_step_other (paths : list string) (nodes : NodeMap) (k : string) :
  k ∉ paths -> fold_left step paths nodes !! k = nodes !! k.
Proof.
  revert nodes. induction paths as [|p paths IH]; intros nodes Hk; [done |].
  simpl. apply not_elem_of_cons in Hk as [Hne Hk].
  rewrite IH by done. by apply step_other.
Qed.

Lemma fold_step_keeps (paths : list string) (nodes : NodeMap) :
  related (fun n n' => Type_ n' = Type_ n /\ ChildrenIDs n' = ChildrenIDs n)
          nodes (fold_left step paths nodes).
Proof.
  apply related_fold; [done | | done].
  intros a b c [? ?] [? ?]. split; congruence.
Qed.

(** A pass over paths sorted by decreasing depth gives a directory whose
    listed children are all deeper the total over those children, as
    the index holds them when the pass ends. *)
Lemma pass_sums_deeper_children (rt : Runtime) (loop : nat) (nodes : NodeMap)
    (k : string) (n : Node) :
  nodes !! k = Some n -> Type_ n = NodeDir ->
  Forall (fun c => is_Some (nodes !! c) -> depth k < depth c) (ChildrenIDs n) ->
  let final := fold_left step (sortedPaths rt loop nodes) nodes in
  exists n', final !! k = Some n'
             /\ field n' = total final (ChildrenIDs n).
Proof.
  intros Hk Hdir Hdeep final. subst final.
  pose proof (NoDup_sortedPaths rt loop nodes) as Hnd.
  assert (k ∈ sortedPaths rt loop nodes) as Hin
      by (apply elem_of_sortedPaths; eauto).
  apply list_elem_of_split in Hin as (l1 & l2 & Hsplit).
  pose proof (insertionSort_later depth _ l1 l2 k Hsplit) as Hlater.
  rewrite Hsplit in Hnd |- *.
  apply list.NoDup_app in Hnd as (_ & _ & Hnd).
  apply list.NoDup_cons in Hnd as [Hk2 _].
  rewrite fold_left_app. simpl.
  set (m1 := fold_left step l1 nodes).
  destruct (related_forth _ _ _ _ _ (fold_step_keeps l1 nodes) Hk)
    as (n1 & Hk1 & Ht1 & Hc1). fold m1 in Hk1.
  destruct (step_dir m1 k n1 Hk1 ltac:(congruence)) as (n2 & Hk2' & Hf2).
  exists n2. split; [by rewrite fold_step_other |].
  rewrite Hf2, Hc1. apply total_ext. intros c Hc.
  rewrite list.Forall_forall in Hdeep. specialize (Hdeep c Hc).
  destruct (nodes !! c) as [nc|] eqn:Hnc.
  - specialize (Hdeep ltac:(eauto)).
    assert (c <> k) as Hne by (intros ->; lia).
    assert (c ∉ l2) as Hc2.
    { intros Hc2. rewrite list.Forall_forall in Hlater.
      specialize (Hlater c Hc2). lia. }
    rewrite fold_step_other by done. by rewrite step_other.
  - pose proof (fold_step_keeps l1 nodes c) as H1. fold m1 in H1.
    rewrite Hnc in H1. inversion H1 as [| Hn1 Hm1]. symmetry in Hm1.
    pose proof (fold_step_keeps (k :: l2) m1 c) as H2. simpl in H2.
    rewrite Hm1 in H2. inversion H2 as [| Hn2 Hm2]. done.
Qed.
End PassOrder.

Lemma related_weaken (R R' : Node -> Node -> Prop) (a b : NodeMap) :
  (forall n n', R n n' -> R' n n') -> related R a b -> related R' a b.
Proof.
  intros Himp HR k. specialize (HR k). destruct HR; constructor. by apply Himp.
Qed.

Lemma related_is_Some (R : Node -> Node -> Prop) (a b : NodeMap) (k : string) :
  related R a b -> is_Some (a !! k) <-> is_Some (b !! k).
Proof.
  intros HR. specialize (HR k).
  destruct HR; split; intros Hs; eauto; by apply is_Some_None in Hs.
Qed.

Lemma accumulationStep_keeps (m : NodeMap) (p : string) :
  related (fun n n' => Type_ n' = Type_ n /\ ChildrenIDs n' = ChildrenIDs n)
          m (accumulationStep m p).
Proof.
  eapply related_weaken; [| apply accumulationStep_related]. kept_solve.
Qed.

Lemma fileCountsStep_keeps (m : NodeMap) (p : string) :
  related (fun n n' => Type_ n' = Type_ n /\ ChildrenIDs n' = ChildrenIDs n)
          m (fileCountsStep m p).
Proof.
  eapply related_weaken; [| apply fileCountsStep_related]. kept_solve.
Qed.

Lemma dirCountsStep_keeps (m : NodeMap) (p : string) :
  related (fun n n' => Type_ n' = Type_ n /\ ChildrenIDs n' = ChildrenIDs n)
          m (dirCountsStep m p).
Proof.
  eapply related_weaken; [| apply dirCountsStep_related]. kept_solve.
Qed.

Lemma accumulationStep_dir (m : NodeMap) (k : string) (n : Node) :
  m !! k = Some n -> Type_ n = NodeDir ->
  exists n', accumulationStep m k !! k = Some n'
             /\ AccumBytes n' = sumChildren AccumBytes m (ChildrenIDs n).
Proof.
  intros Hk Hdir. unfold accumulationStep.
  rewrite Hk, Hdir, lookup_insert_eq. eauto.
Qed.

Lemma fileCountsStep_dir (m : NodeMap) (k : string) (n : Node) :
  m !! k = Some n -> Type_ n = NodeDir ->
  exists n', fileCountsStep m k !! k = Some n'
             /\ FileCount n' = sumChildren FileCount m (ChildrenIDs n).
Proof.
  intros Hk Hdir. unfold fileCountsStep.
  rewrite Hk, Hdir, lookup_insert_eq. eauto.
Qed.

Lemma dirCountsStep_dir (m : NodeMap) (k : string) (n : Node) :
  m !! k = Some n -> Type_ n = NodeDir ->
  exists n', dirCountsStep m k !! k = Some n'
             /\ DirCount n' = sumDirCounts m (ChildrenIDs n).
Proof.
  intros Hk Hdir. unfold dirCountsStep.
  rewrite Hk, Hdir, lookup_insert_eq. eauto.
Qed.

(** After the four passes, a directory whose listed children are all
    strictly deeper than itself holds the sums over those children:
    [AccumBytes] is the sum of their [AccumBytes], [FileCount] the sum of
    their [FileCount], and [DirCount] the number of directories among
    them plus the sum of their [DirCount]; this for every order in which
    the runtime yields the keys of the index. *)
Theorem directory_sums_its_deeper_children (rt : Runtime) (nodes : NodeMap)
    (k : string) (n : Node) :
  let final := aggregate rt nodes in
  final !! k = Some n ->
  Type_ n = NodeDir ->
  Forall (fun c => is_Some (final !! c) -> depth k < depth c) (ChildrenIDs n) ->
  AccumBytes n = sumChildren AccumBytes final (ChildrenIDs n)
  /\ FileCount n = sumChildren FileCount final (ChildrenIDs n)
  /\ DirCount n = sumDirCounts final (ChildrenIDs n).
Proof.
  intros final. subst final. unfold aggregate.
  set (h := applyHierarchy rt nodes).
  set (a := applyAccumulation rt h).
  set (f := applyFileCounts rt a).
  set (d := applyDirCounts rt f).
  intros Hk Hdir Hdeep.
  pose proof (applyAccumulation_related rt h) as Ra. fold a in Ra.
  pose proof (applyFileCounts_related rt a) as Rf. fold f in Rf.
  pose proof (applyDirCounts_related rt f) as Rd. fold d in Rd.
  destruct (related_back _ _ _ _ _ Rd Hk) as (nf & Hf & Hnf).
  destruct (related_back _ _ _ _ _ Rf Hf) as (na & Ha & Hna).
  destruct (related_back _ _ _ _ _ Ra Ha) as (nh & Hh & Hnh).
  assert (ChildrenIDs nf = ChildrenIDs n /\ ChildrenIDs na = ChildrenIDs n
          /\ ChildrenIDs nh = ChildrenIDs n) as (Hcf & Hca & Hch)
      by (repeat split; kept_solve).
  assert (Type_ nf = NodeDir /\ Type_ na = NodeDir /\ Type_ nh = NodeDir)
    as (Htf & Hta & Hth) by (repeat split; kept_solve).
  assert (forall c, is_Some (f !! c) -> is_Some (d !! c)) as Sfd
      by (intros c; apply (related_is_Some _ _ _ c Rd)).
  assert (forall c, is_Some (a !! c) -> is_Some (f !! c)) as Saf
      by (intros c; apply (related_is_Some _ _ _ c Rf)).
  assert (forall c, is_Some (h !! c) -> is_Some (a !! c)) as Sha
      by (intros c; apply (related_is_Some _ _ _ c Ra)).
  (* the accumulated size *)
  destruct (pass_sums_deeper_children accumulationStep AccumBytes
              (sumChildren AccumBytes) accumulationStep_other
              accumulationStep_keeps accumulationStep_dir
              (sumChildren_ext AccumBytes)
              rt loopAccumulation h k nh Hh Hth) as (na' & Ha' & Hsa).
  { rewrite Hch. eapply list.Forall_impl; [exact Hdeep |]. simpl. auto. }
  fold (applyAccumulation rt h) in Ha', Hsa. fold a in Ha', Hsa.
  rewrite Ha in Ha'. injection Ha' as <-.
  (* the number of files *)
  destruct (pass_sums_deeper_children fileCountsStep FileCount
              (sumChildren FileCount) fileCountsStep_other
              fileCountsStep_keeps fileCountsStep_dir
              (sumChildren_ext FileCount)
              rt loopFileCounts a k na Ha Hta) as (nf' & Hf' & Hsf).
  { rewrite Hca. eapply list.Forall_impl; [exact Hdeep |]. simpl. auto. }
  fold (applyFileCounts rt a) in Hf', Hsf. fold f in Hf', Hsf.
  rewrite Hf in Hf'. injection Hf' as <-.
  (* the number of directories *)
  destruct (pass_sums_deeper_children dirCountsStep DirCount
              sumDirCounts dirCountsStep_other
              dirCountsStep_keeps dirCountsStep_dir
              sumDirCounts_ext
              rt loopDirCounts f k nf Hf Htf) as (nd' & Hd' & Hsd).
  { rewrite Hcf. eapply list.Forall_impl; [exact Hdeep |]. simpl. auto. }
  fold (applyDirCounts rt f) in Hd', Hsd. fold d in Hd', Hsd.
  rewrite Hk in Hd'. injection Hd' as <-.
  rewrite Hch in Hsa. rewrite Hca in Hsf. rewrite Hcf in Hsd.
  split; [| split].
  - rewrite <- (sumChildren_related keptByDirCounts AccumBytes f d)
      by (done || kept_solve).
    rewrite <- (sumChildren_related keptByFileCounts AccumBytes a f)
      by (done || kept_solve).
    rewrite <- Hsa. kept_solve.
  - rewrite <- (sumChildren_related keptByDirCounts FileCount f d)
      by (done || kept_solve).
    rewrite <- Hsf. kept_solve.
  - done.
Qed.

Lemma directory_sums_its_deeper_children_witness :
  exists n, aggregate plainRuntime twoNodes !! "/root" = Some n
            /\ AccumBytes n = 10 /\ FileCount n = 1 /\ DirCount n = 0.
Proof.
  eexists. split; [vm_compute; reflexivity |].
  refine (directory_sums_its_deeper_children plainRuntime twoNodes "/root" _ _ _ _).
  - vm_compute. reflexivity.
  - reflexivity.
  - repeat constructor.
Defined.

(* ===================================================================== *)
(** * What a scan leaves alone *)
(* ===================================================================== *)

(** The walk makes nodes at or under the root only. *)
Lemma scanWalk_outside (w : World) (ctx : Context) (req : ScanRequest)
    (s : FSScanner) (cs : list string) (progress : Chan ScanProgress)
    (k : string) :
  Forall validName cs ->
  (forall tree, lstatTree w (absPath cs) = inr tree -> wfEntry tree) ->
  ~ inRegion cs k ->
  wsNodes (scanWalk w ctx req s (absPath cs) progress).2 !! k = None.
Proof.
  intros Hcs Hwf Hout. unfold scanWalk, WalkDir.
  set (st0 := mkWalkState _ _ _ _ _).
  assert (walked (inRegion cs) st0
            (match lstatTree w (absPath cs) with
             | inl e => scanVisit s ctx req (absPath cs) (absPath cs)
                                  (VisitError None e) st0
             | inr d => walkDir (scanVisit s ctx req (absPath cs)) (absPath cs) d st0
             end).2) as Hw.
  { destruct (lstatTree w (absPath cs)) as [e | tree] eqn:Htree.
    - apply scanVisit_walked.
    - by apply walkDir_walked; [apply Hwf |]. }
  destruct (match lstatTree w (absPath cs) with inl _ => _ | inr _ => _ end)
    as [r st]. simpl in Hw.
  destruct Hw as (Hframe & _).
  assert ((let '(r, st') := (r, st) in
           match r with WalkErr e => (Some e, st') | _ => (None, st') end).2 = st)
    as -> by by destruct r.
  rewrite Hframe by done. subst st0. simpl.
  apply lookup_singleton_ne. intros <-. apply Hout, inRegion_self.
Qed.

(** The collector writes sizes into nodes that exist; it adds none. *)
Lemma collect_outside (root : string) (results : list fileResult)
    (co : Collector) (k : string) :
  coNodes co !! k = None ->
  coNodes (fold_left (collectResult root) results co) !! k = None.
Proof.
  revert co. induction results as [|r results IH]; intros co Hk; [done |].
  simpl. apply IH. destruct (decide (k = frPath r)) as [-> | Hne].
  - unfold collectResult. simpl. by rewrite Hk.
  - by rewrite collectResult_other.
Qed.

Lemma aggregate_related (rt : Runtime) (nodes : NodeMap) :
  related sameEntry nodes (aggregate rt nodes).
Proof.
  unfold aggregate.
  eapply related_trans; [kept_solve | |].
  { eapply related_weaken; [| apply applyHierarchy_related]. kept_solve. }
  eapply related_trans; [kept_solve | |].
  { eapply related_weaken; [| apply applyAccumulation_related]. kept_solve. }
  eapply related_trans; [kept_solve | |].
  { eapply related_weaken; [| apply applyFileCounts_related]. kept_solve. }
  eapply related_weaken; [| apply applyDirCounts_related]. kept_solve.
Qed.

Lemma replaceCache_outside (root : string) (nodes : NodeMap) (s : FSScanner)
    (k : string) :
  nodes !! k = None -> isWithin root k = false -> k <> Filepath.Dir root ->
  cache (replaceCache root nodes s) !! k = cache s !! k
  /\ scannedDirs (replaceCache root nodes s) !! k = scannedDirs s !! k.
Proof.
  intros Hk Hout Hparent. unfold replaceCache. cbn [cache scannedDirs setRoot setCaches].
  split.
  - set (cache1 := nodes ∪ _).
    assert (cache1 !! k = cache s !! k) as H1.
    { subst cache1. rewrite lookup_union, Hk, (left_id None _).
      by rewrite deleteWithin_lookup, Hout. }
    destruct (String.eqb _ root); [done |].
    destruct (cache1 !! Filepath.Dir root) as [p|]; [| done].
    destruct (containsID _ root); [done |].
    by rewrite lookup_insert_ne.
  - rewrite lookup_union, lookup_fmap.
    assert (filter (fun kv : string * Node => Type_ kv.2 = NodeDir) nodes !! k = None)
      as -> by (apply map_lookup_filter_None; by left).
    by rewrite (left_id None _).
Qed.

(** A scan that walks writes the in-memory cache at or under its root
    only, apart from the children list of the root's parent directory:
    every other entry of the cache, and of the set of scanned
    directories, is as before, whatever the outcome of the scan. *)
Theorem full_scan_touches_only_its_subtree (rt : Runtime) (w : World)
    (ctx : Context) (req : ScanRequest) (s1 : FSScanner) (cs : list string)
    (k : string) :
  Forall validName cs ->
  (forall tree, lstatTree w (absPath cs) = inr tree -> wfEntry tree) ->
  ~ inRegion cs k ->
  k <> Filepath.Dir (absPath cs) ->
  cache (scanFull rt w ctx req s1 (absPath cs)).1.2 !! k = cache s1 !! k
  /\ scannedDirs (scanFull rt w ctx req s1 (absPath cs)).1.2 !! k
     = scannedDirs s1 !! k.
Proof.
  intros Hcs Hwf Hout Hparent.
  pose proof (scanWalk_outside w ctx req s1 cs (makeChan 64) k Hcs Hwf Hout)
    as Hwalk.
  unfold scanFull.
  destruct (scanWalk w ctx req s1 (absPath cs) (makeChan 64)) as [walkErr st].
  cbn [snd] in Hwalk.
  destruct walkErr as [err|]; [done |].
  set (co := collect (absPath cs) (worker ctx 0 (wsJobs st)) (wsNodes st)
                     (wsProgress st)).
  assert (aggregate rt (coNodes co) !! k = None) as Hnone.
  { pose proof (aggregate_related rt (coNodes co) k) as HR.
    assert (coNodes co !! k = None) as Hco by by apply collect_outside.
    rewrite Hco in HR. by inversion HR. }
  assert (isWithin (absPath cs) k = false) as Hwithin.
  { destruct (isWithin (absPath cs) k) eqn:Hin; [| done].
    exfalso. by apply Hout, hasPathPrefix_inRegion. }
  pose proof (replaceCache_outside (absPath cs) (aggregate rt (coNodes co)) s1 k
                Hnone Hwithin Hparent) as Hrep.
  destruct (sendBlocking (receiving w) (coProgress co) _); exact Hrep.
Qed.

Lemma full_scan_touches_only_its_subtree_witness :
  let s1 := setCaches {[ "/other" := rootNodeOf "/other" ]} ∅
                      (NewFSScanner scenarioWorld) in
  cache (scanFull plainRuntime scenarioWorld background
                  (mkScanRequest "/root" false) s1 "/root").1.2 !! "/other"
  = Some (rootNodeOf "/other").
Proof.
  intros s1.
  refine (proj1 (full_scan_touches_only_its_subtree plainRuntime scenarioWorld
                   background (mkScanRequest "/root" false) s1 ["root"]
                   "/other" _ _ _ _)).
  - repeat constructor; discriminate.
  - intros tree Htree. vm_compute in Htree. injection Htree as <-.
    repeat (constructor; try (vm_compute; set_solver); try discriminate).
  - intros [Heq | [rest Heq]]; vm_compute in Heq; discriminate.
  - vm_compute. discriminate.
Defined.

(* ===================================================================== *)
(** * The nodes through the passes *)
(* ===================================================================== *)

Lemma sameNode_refl (n : Node) : sameNode n n.
Proof. by repeat split. Qed.

Lemma sameNode_trans (a b c : Node) : sameNode a b -> sameNode b c -> sameNode a c.
Proof. unfold sameNode. intuition congruence. Qed.

Lemma pass_sameNode (step : NodeMap -> string -> NodeMap) (paths : list string)
    (nodes : NodeMap) :
  (forall m p, related sameNode m (step m p)) ->
  related sameNode nodes (fold_left step paths nodes).
Proof.
  intros Hstep. apply related_fold;
    [apply sameNode_refl | apply sameNode_trans | done].
Qed.

Lemma hierarchyStep_sameNode (m : NodeMap) (p : string) :
  related sameNode m (hierarchyStep m p).
Proof.
  unfold hierarchyStep.
  destruct (m !! p) as [node|];
    [| apply related_refl, sameNode_refl].
  destruct (String.eqb (ParentID node) "");
    [apply related_refl, sameNode_refl |].
  destruct (m !! ParentID node) as [parent|] eqn:Hp;
    [| apply related_refl, sameNode_refl].
  eapply related_insert; [apply sameNode_refl | exact Hp |].
  by destruct (Type_ node).
Qed.

Lemma accumulationStep_sameNode (m : NodeMap) (p : string) :
  related sameNode m (accumulationStep m p).
Proof.
  unfold accumulationStep.
  destruct (m !! p) as [node|] eqn:Hp;
    [| apply related_refl, sameNode_refl].
  destruct (Type_ node) eqn:Ht.
  - destruct (AccumBytes node =? 0); [| apply related_refl, sameNode_refl].
    eapply related_insert; [apply sameNode_refl | exact Hp |]. by repeat split.
  - eapply related_insert; [apply sameNode_refl | exact Hp |]. by repeat split.
Qed.

Lemma fileCountsStep_sameNode (m : NodeMap) (p : string) :
  related sameNode m (fileCountsStep m p).
Proof.
  unfold fileCountsStep.
  destruct (m !! p) as [node|] eqn:Hp;
    [| apply related_refl, sameNode_refl].
  destruct (Type_ node) eqn:Ht;
    (eapply related_insert; [apply sameNode_refl | exact Hp |]; by repeat split).
Qed.

Lemma dirCountsStep_sameNode (m : NodeMap) (p : string) :
  related sameNode m (dirCountsStep m p).
Proof.
  unfold dirCountsStep.
  destruct (m !! p) as [node|] eqn:Hp;
    [| apply related_refl, sameNode_refl].
  destruct (Type_ node) eqn:Ht;
    (eapply related_insert; [apply sameNode_refl | exact Hp |]; by repeat split).
Qed.

(** The four passes neither add nor drop a node, and they change no
    node's ID, name, path, type, own size, modification time, parent or
    scanned flag: they write the children lists, the accumulated size and
    the counts only. *)
Theorem aggregate_keeps_every_node (rt : Runtime) (nodes : NodeMap) (k : string) :
  match nodes !! k, aggregate rt nodes !! k with
  | Some n, Some n' => sameNode n n'
  | None, None => True
  | _, _ => False
  end.
Proof.
  assert (related sameNode nodes (aggregate rt nodes)) as HR.
  { unfold aggregate, applyDirCounts, applyFileCounts, applyAccumulation,
      applyHierarchy.
    eapply related_trans;
      [apply sameNode_trans | apply pass_sameNode, hierarchyStep_sameNode |].
    eapply related_trans;
      [apply sameNode_trans | apply pass_sameNode, accumulationStep_sameNode |].
    eapply related_trans;
      [apply sameNode_trans | apply pass_sameNode, fileCountsStep_sameNode |].
    apply pass_sameNode, dirCountsStep_sameNode. }
  specialize (HR k). by destruct HR.
Qed.

(** After the four passes the accumulated size of a file node is its own
    size, when the node came in with no accumulated size, or with its own
    size as accumulated size. *)
Theorem file_node_accumulates_its_own_size (rt : Runtime) (nodes : NodeMap)
    (k : string) (n0 : Node) :
  nodes !! k = Some n0 ->
  Type_ n0 = NodeFile ->
  AccumBytes n0 = 0 \/ AccumBytes n0 = SizeBytes n0 ->
  exists n, aggregate rt nodes !! k = Some n
            /\ Type_ n = NodeFile
            /\ SizeBytes n = SizeBytes n0
            /\ AccumBytes n = SizeBytes n0.
Proof.
  intros Hk Hfile Haccum. unfold aggregate.
  destruct (related_forth _ _ _ _ _ (applyHierarchy_related rt nodes) Hk)
    as (n1 & Hk1 & Hn1).
  set (h := applyHierarchy rt nodes) in *.
  set (size := SizeBytes n0).
  assert (exists n2, applyAccumulation rt h !! k = Some n2
                     /\ Type_ n2 = NodeFile /\ SizeBytes n2 = size
                     /\ AccumBytes n2 = size) as (n2 & Hk2 & Ht2 & Hs2 & Ha2).
  { unfold applyAccumulation.
    apply (fold_establishes accumulationStep
             (fun n => Type_ n = NodeFile /\ SizeBytes n = size
                       /\ (AccumBytes n = 0 \/ AccumBytes n = size))
             (fun n => Type_ n = NodeFile /\ SizeBytes n = size
                       /\ AccumBytes n = size)) with (n := n1).
    - intros m p j x Hj (Hx1 & Hx2 & Hx3).
      destruct (decide (j = p)) as [-> | Hne].
      + unfold accumulationStep. rewrite Hj, Hx1.
        destruct (AccumBytes x =? 0) eqn:Hz.
        * rewrite lookup_insert_eq. eexists. split; [done |]. simpl. auto.
        * exists x. split; [done |]. auto.
      + rewrite accumulationStep_other by done. eauto.
    - intros m p j x Hj (Hx1 & Hx2 & Hx3).
      destruct (decide (j = p)) as [-> | Hne].
      + unfold accumulationStep. rewrite Hj, Hx1.
        destruct (AccumBytes x =? 0) eqn:Hz.
        * rewrite lookup_insert_eq. eexists. split; [done |]. simpl. auto.
        * exists x. split; [done |]. auto.
      + rewrite accumulationStep_other by done. eauto.
    - intros m j x Hj (Hx1 & Hx2 & Hx3).
      unfold accumulationStep. rewrite Hj, Hx1.
      destruct (AccumBytes x =? 0) eqn:Hz.
      + rewrite lookup_insert_eq. eexists. split; [done |]. simpl. auto.
      + exists x. split; [done |]. repeat split; try done.
        destruct Hx3 as [Hx3 | Hx3]; [| done]. rewrite Hx3 in Hz. done.
    - apply elem_of_sortedPaths. eauto.
    - done.
    - subst size. kept_solve. }
  set (a := applyAccumulation rt h) in *.
  destruct (related_forth _ _ _ _ _ (applyFileCounts_related rt a) Hk2)
    as (n3 & Hk3 & Hn3).
  set (f := applyFileCounts rt a) in *.
  destruct (related_forth _ _ _ _ _ (applyDirCounts_related rt f) Hk3)
    as (n4 & Hk4 & Hn4).
  exists n4. split; [done |]. subst size. kept_solve.
Qed.

Lemma file_node_accumulates_its_own_size_witness :
  exists n, aggregate plainRuntime twoNodes !! "/root/f" = Some n
            /\ Type_ n = NodeFile /\ SizeBytes n = 10 /\ AccumBytes n = 10.
Proof.
  refine (file_node_accumulates_its_own_size plainRuntime twoNodes "/root/f"
            (mkNode "/root/f" "f" "/root/f" NodeFile 10 10 TimeZero
                    "/root" [] 0 0 0 false) _ _ _).
  - vm_compute. reflexivity.
  - reflexivity.
  - right. reflexivity.
Defined.

(* ===================================================================== *)
(** * Hidden entries, and how a scan ends *)
(* ===================================================================== *)

(** When the request's [ShowHidden] is false, an entry other than the
    root whose name starts with a dot is skipped, a directory with
    everything below it: walking it adds no node and no job, counts
    nothing and reports nothing, and the walk goes on (or ends with the
    context's error if the context is done at that visit). *)
Theorem hidden_entry_is_skipped
    (s : FSScanner) (ctx : Context) (req : ScanRequest) (root path : string)
    (d : FsEntry) (st : WalkState) :
  ShowHidden req = false ->
  isHidden (nameOf d) = true ->
  path <> root ->
  let r := walkDir (scanVisit s ctx req root) path d st in
  wsNodes r.2 = wsNodes st /\ wsJobs r.2 = wsJobs st
  /\ wsScanned r.2 = wsScanned st /\ wsProgress r.2 = wsProgress st
  /\ (r.1 = WalkOk
      \/ exists e, errAtVisit ctx (wsPolls st) = Some e /\ r.1 = WalkErr e).
Proof.
  intros Hhidden Hname Hroot.
  assert (String.eqb path root = false) as Hne by by apply String.eqb_neq.
  destruct d as [name mtime lstat | name info readDir entries];
    unfold nameOf in Hname; simpl in Hname; simpl;
    (destruct (errAtVisit ctx (wsPolls st)) as [e|] eqn:Hctx; simpl;
     [repeat split; eauto |]);
    rewrite Hne, Hhidden, Hname; simpl; repeat split; auto.
Qed.

Lemma hidden_entry_is_skipped_witness :
  let st := mkWalkState {[ "/root" := rootNodeOf "/root" ]} [] 1
                        (makeChan 64) 1 in
  let r := walkDir (scanVisit (NewFSScanner scenarioWorld) background
                              (mkScanRequest "/root" false) "/root")
                   "/root/.config"
                   (FsDir ".config" (inr 110) None [ FsFile "rc" 111 (inr 7) ])
                   st in
  wsNodes r.2 = wsNodes st /\ wsJobs r.2 = wsJobs st
  /\ wsScanned r.2 = wsScanned st /\ wsProgress r.2 = wsProgress st
  /\ (r.1 = WalkOk
      \/ exists e, errAtVisit background (wsPolls st) = Some e /\ r.1 = WalkErr e).
Proof.
  intros st.
  apply (hidden_entry_is_skipped (NewFSScanner scenarioWorld) background
           (mkScanRequest "/root" false) "/root" "/root/.config"
           (FsDir ".config" (inr 110) None [ FsFile "rc" 111 (inr 7) ]) st).
  - reflexivity.
  - reflexivity.
  - discriminate.
Defined.

(** Every [Scan] that returns has closed the progress channel it made
    ([defer close(progress)]), and its result names the cleaned root;
    after a nil error the scanner's root is that path. *)
Theorem Scan_closes_its_progress_channel (rt : Runtime) (w : World)
    (ctx : Context) (req : ScanRequest) (s : FSScanner) (r : ScanResult)
    (e : option error) (s' : FSScanner) (w' : World) :
  Scan rt w ctx req s = (Returned (r, e), s', w') ->
  srRootPath r = cleanPath w (RootPath req)
  /\ (exists ch, progress s' = Some ch /\ chClosed ch = true)
  /\ (e = None -> root s' = cleanPath w (RootPath req)).
Proof.
  unfold Scan.
  destruct (loadCache w s) as [s1 loadErr].
  set (s2 := match loadErr, progress s1 with
             | Some err, Some ch => _
             | _, _ => s1
             end).
  clearbody s2.
  destruct (negb _); [intros [=] |].
  destruct (canReuseRoot w s2 _ _).
  { set (nodes := cachedTree s2 _). clearbody nodes.
    intros H. injection H as <- <- <- <-.
    split; [reflexivity |]. split; [| intros _; reflexivity].
    eexists. split; reflexivity. }
  destruct (isCached s2 _).
  { intros H. injection H as <- <- <- <-.
    split; [reflexivity |]. split; [| intros _; reflexivity].
    eexists. split; reflexivity. }
  unfold scanFull.
  destruct (scanWalk w ctx req s2 _ _) as [walkErr st].
  set (co := collect _ _ _ _). clearbody co.
  set (nodes := aggregate rt _). clearbody nodes.
  set (w2 := saveCache _ _ _ _). clearbody w2.
  destruct walkErr as [err|].
  - intros H. injection H as <- <- <- <-.
    split; [reflexivity |]. split; [| done].
    eexists. split; reflexivity.
  - destruct (sendBlocking _ _ _) as [ch|]; intros H; [| discriminate].
    injection H as <- <- <- <-.
    split; [reflexivity |]. split; [| intros _; reflexivity].
    exists (closeChan ch). split; reflexivity.
Qed.

Lemma Scan_closes_its_progress_channel_witness :
  srRootPath (mkScanResult "/root" 1) = "/root"
  /\ (exists ch, progress scenarioScan.1.2 = Some ch /\ chClosed ch = true)
  /\ (@None error = None -> root scenarioScan.1.2 = "/root").
Proof.
  refine (Scan_closes_its_progress_channel plainRuntime scenarioWorld background
            (mkScanRequest "/root" false) (NewFSScanner scenarioWorld)
            (mkScanResult "/root" 1) None scenarioScan.1.2 scenarioScan.2 _).
  vm_compute. reflexivity.
Defined.

(** When [Scan] returns an error, the cache is as it was: checked on the
    scan that is cancelled during its walk. *)
Lemma Scan_error_keeps_cache_witness :
  let s := NewFSScanner oneFileWorld in
  let run := Scan plainRuntime oneFileWorld cancelledDuringWalk
                  (mkScanRequest "/root" false) s in
  cache run.1.2 = cache s /\ scannedDirs run.1.2 = scannedDirs s
  /\ root run.1.2 = root s /\ run.2 = oneFileWorld.
Proof.
  intros s run.
  refine (Scan_error_keeps_cache plainRuntime oneFileWorld cancelledDuringWalk
            (mkScanRequest "/root" false) s (mkScanResult "/root" 1) Canceled
            run.1.2 run.2 _).
  vm_compute. reflexivity.
Defined.

(* ===================================================================== *)
(** * Invalidation and the paths it is given *)
(* ===================================================================== *)

(** C6.  [Invalidate("/")], after a scan of "/" that cached "/", "/a" and
    "/a/f": the separator appended to the root "/" gives "//", which is
    a prefix of no cached path, so only the node of "/" is removed;
    "/a" and "/a/f", which lie under "/", stay in the cache, and "/a"
    stays a scanned directory. *)
Theorem Invalidate_of_slash_removes_the_root_only :
  let s := (Scan plainRuntime slashWorld background (mkScanRequest "/" false)
                 (NewFSScanner slashWorld)).1.2 in
  let s' := Invalidate slashWorld "/" s in
  cleanPath slashWorld "/" = "/"
  /\ is_Some (cache s !! "/") /\ is_Some (cache s !! "/a")
  /\ is_Some (cache s !! "/a/f")
  /\ isWithin "/" "/a" = false /\ isWithin "/" "/a/f" = false
  /\ cache s' !! "/" = None
  /\ cache s' !! "/a" = cache s !! "/a"
  /\ cache s' !! "/a/f" = cache s !! "/a/f"
  /\ scannedDirs s' !! "/a" = Some true.
Proof.
  intros s s'.
  repeat match goal with |- _ /\ _ => split end;
    vm_compute; first [reflexivity | eauto].
Qed.

Lemma Clean_trailing_separator (cs : list string) :
  Forall validName cs -> cs <> [] ->
  Filepath.Clean (absPath cs ++ "/") = absPath cs.
Proof.
  intros Hcs Hne. unfold Filepath.Clean.
  rewrite (IsAbs_absPath cs "/").
  change (absPath cs ++ "/") with (absPath cs ++ "/" ++ "").
  rewrite split_app_sep, split_absPath by done.
  destruct cs as [|c cs]; [done |].
  change (("" :: c :: cs) ++ Filepath.split "")%list
    with ("" :: ((c :: cs) ++ [""]))%list.
  change (fold_left ?f ("" :: ?l) []) with (fold_left f l []).
  rewrite fold_left_app, (fold_cleanStep_valid true (c :: cs) []) by done.
  change (fold_left ?f [""] ?out) with out.
  by rewrite app_nil_r, rev_involutive.
Qed.

(** [cleanPath] leaves a clean absolute path as it is, and removes a
    trailing separator. *)
Lemma cleanPath_absPath (w : World) (cs : list string) :
  Forall validName cs -> cleanPath w (absPath cs) = absPath cs.
Proof.
  intros Hcs. unfold cleanPath, Abs.
  rewrite !Clean_absPath, IsAbs_absPath_only by done.
  by destruct cs.
Qed.

Lemma cleanPath_trailing_separator (w : World) (cs : list string) :
  Forall validName cs -> cs <> [] ->
  cleanPath w (absPath cs ++ "/") = absPath cs.
Proof.
  intros Hcs Hne. unfold cleanPath, Abs.
  rewrite Clean_trailing_separator, Clean_absPath, IsAbs_absPath_only by done.
  by destruct cs.
Qed.

(** For every clean absolute path [p] other than "/", given as it is or
    with a trailing separator, [Invalidate] removes from the cache and
    from the set of scanned directories exactly the keys that are [p] or
    [p], a separator and more, and leaves every other key as it was. *)
Theorem Invalidate_removes_the_subtree_of_a_clean_path
    (w : World) (cs : list string) (given : string) (s : FSScanner)
    (k : string) :
  Forall validName cs -> cs <> [] ->
  given = absPath cs \/ given = absPath cs ++ "/" ->
  let under := k = absPath cs \/ exists rest, k = absPath cs ++ "/" ++ rest in
  (under ->
   cache (Invalidate w given s) !! k = None
   /\ scannedDirs (Invalidate w given s) !! k = None)
  /\ (~ under ->
      cache (Invalidate w given s) !! k = cache s !! k
      /\ scannedDirs (Invalidate w given s) !! k = scannedDirs s !! k).
Proof.
  intros Hcs Hne Hgiven under.
  assert (cleanPath w given = absPath cs) as Hclean.
  { destruct Hgiven as [-> | ->];
      [by apply cleanPath_absPath | by apply cleanPath_trailing_separator]. }
  unfold Invalidate. rewrite Hclean.
  cbn [cache scannedDirs setCaches]. rewrite !deleteWithin_lookup.
  pose proof (isWithin_spec (absPath cs) k) as Hspec.
  split; intros Hk.
  - assert (isWithin (absPath cs) k = true) as -> by (apply Hspec; exact Hk).
    done.
  - destruct (isWithin (absPath cs) k); [| done].
    exfalso. apply Hk, Hspec. done.
Qed.

Lemma Invalidate_removes_the_subtree_of_a_clean_path_witness :
  let s := scenarioScan.1.2 in
  cache (Invalidate scenarioWorld "/root/a/" s) !! "/root/a/f1" = None
  /\ scannedDirs (Invalidate scenarioWorld "/root/a/" s) !! "/root/a/f1" = None.
Proof.
  intros s.
  refine (proj1 (Invalidate_removes_the_subtree_of_a_clean_path scenarioWorld
                   ["root"; "a"] "/root/a/" s "/root/a/f1" _ _ _) _).
  - repeat constructor; discriminate.
  - discriminate.
  - right. reflexivity.
  - right. exists "f1". reflexivity.
Defined.

(* ===================================================================== *)
(** * File nodes of a scan that walks *)
(* ===================================================================== *)




(** A scan answered from the persisted cache copies the counts of the
    cache file's entries as they are: here the entry of the file
    /root/f carries [FileCount = 0] and [DirCount = 3]. *)
Example reused_root_copies_the_cached_counts :
  let entries : gmap string cacheEntry :=
    {[ "/root" := mkCacheEntry "/root" "root" NodeDir 100 0 10 1 0 0
                               ["/root/f"] "";
       "/root/f" := mkCacheEntry "/root/f" "f" NodeFile 101 10 10 0 3 0
                                 [] "/root" ]} in
  let w := worldWith "/root" oneFileTree
                     (DiskFile (mkCacheFile 1 false (Some entries))) in
  let r := Scan plainRuntime w background (mkScanRequest "/root" false)
                (NewFSScanner w) in
  r.1.1 = Returned (mkScanResult "/root" 1, None)
  /\ FileCount <$> cache r.1.2 !! "/root/f" = Some 0
  /\ DirCount <$> cache r.1.2 !! "/root/f" = Some 3.
Proof. by vm_compute. Qed.

(* ===================================================================== *)
(** * The gates of [Execute] *)
(* ===================================================================== *)

Lemma normalizePaths_loop (w : ActionWorld) (paths : list string) :
  normalizePaths w paths = normalizeLoop w paths ∅ [].
Proof.
  unfold normalizePaths.
  match goal with |- ?f paths ∅ [] = _ => set (loop := f) end.
  generalize (∅ : gset string) (@nil string). subst loop.
  induction paths as [|p paths IH]; intros seen result; [done |].
  simpl. destruct (String.eqb p ""); [apply IH |].
  destruct (actionAbs w p); [done |].
  destruct (bool_decide _); apply IH.
Qed.

Lemma normalizeLoop_inv (w : ActionWorld) (paths : list string) :
  forall (seen : gset string) (result out : list string),
    NoDup result ->
    (forall x, x ∈ result <-> x ∈ seen) ->
    normalizeLoop w paths seen result = inr out ->
    NoDup out
    /\ forall x, x ∈ out ->
                 x ∈ result
                 \/ exists p abs, p ∈ paths /\ p <> "" /\ actionAbs w p = inr abs
                                  /\ x = Filepath.Clean abs.
Proof.
  induction paths as [|p paths IH]; intros seen result out Hnd Hseen; simpl.
  - intros [= <-]. split; [done | auto].
  - destruct (String.eqb_spec p "") as [-> | Hp].
    + intros Hout. destruct (IH _ _ _ Hnd Hseen Hout) as [Hnd' Hin].
      split; [done |]. intros x Hx.
      destruct (Hin x Hx) as [? | (q & abs & Hq & ?)]; [by left |].
      right. exists q, abs. split; [by apply list_elem_of_further | done].
    + destruct (actionAbs w p) as [err | abs] eqn:Habs; [done |].
      destruct (bool_decide (Filepath.Clean abs ∈ seen)) eqn:Hdup.
      * intros Hout. destruct (IH _ _ _ Hnd Hseen Hout) as [Hnd' Hin].
        split; [done |]. intros x Hx.
        destruct (Hin x Hx) as [? | (q & abs' & Hq & ?)]; [by left |].
        right. exists q, abs'. split; [by apply list_elem_of_further | done].
      * apply bool_decide_eq_false in Hdup. intros Hout.
        destruct (IH ({[ Filepath.Clean abs ]} ∪ seen)
                     (result ++ [Filepath.Clean abs])%list out) as [Hnd' Hin].
        { apply list.NoDup_app. split; [done |]. split; [| apply NoDup_singleton].
          intros x Hx ->%list_elem_of_singleton. by apply Hdup, Hseen. }
        { intros x. rewrite elem_of_app, list_elem_of_singleton, elem_of_union,
            elem_of_singleton, Hseen. tauto. }
        { done. }
        split; [done |]. intros x Hx.
        destruct (Hin x Hx) as [Hres | (q & abs' & Hq & ?)].
        -- apply elem_of_app in Hres as [? | ->%list_elem_of_singleton];
             [by left |].
           right. exists p, abs. split; [apply list_elem_of_here | done].
        -- right. exists q, abs'. split; [by apply list_elem_of_further | done].
Qed.

(** The sources [Execute] and [Preview] work on hold no path twice, and
    each is the cleaned absolute form of a non-empty source of the
    request. *)
Theorem normalizePaths_are_distinct (w : ActionWorld) (paths out : list string) :
  normalizePaths w paths = inr out ->
  NoDup out
  /\ forall x, x ∈ out ->
               exists p abs, p ∈ paths /\ p <> "" /\ actionAbs w p = inr abs
                             /\ x = Filepath.Clean abs.
Proof.
  rewrite normalizePaths_loop. intros Hout.
  destruct (normalizeLoop_inv w paths ∅ [] out) as [Hnd Hin];
    [constructor | set_solver | done |].
  split; [done |]. intros x Hx.
  destruct (Hin x Hx) as [Hnil | ?]; [by apply elem_of_nil in Hnil | done].
Qed.

Lemma normalizePaths_are_distinct_witness :
  NoDup ["/data/f"; "/etc"].
Proof.
  refine (proj1 (normalizePaths_are_distinct systemWorld
                   ["f"; "/data//f"; ""; "/etc/"; "./f"] ["/data/f"; "/etc"] _)).
  vm_compute. reflexivity.
Defined.

(** When [Execute] returns an error, it has changed nothing: the file
    system is as before and the result is the empty result of the
    request's type. *)
Theorem Execute_error_changes_nothing (w : ActionWorld) (ctx : ActionContext)
    (fuel : nat) (req : ActionRequest) (actions : FSActions)
    (res : ActionResult) (err : error) (actions' : FSActions)
    (w' : ActionWorld) :
  Execute w ctx fuel req actions
  = Some (Returned (res, Some err), actions', w') ->
  w' = w /\ res = emptyResult (reqType req).
Proof.
  unfold Execute.
  destruct (normalizePaths w (SourcePaths req)) as [e | paths];
    [by intros [= <- <- <- <-] |].
  destruct (validateRequest w req paths); [by intros [= <- <- <- <-] |].
  destruct (requireConfirmation (awFs w) req paths);
    [by intros [= <- <- <- <-] |].
  set (env := mkEnv (awFs w) (makeChan 64) 0). clearbody env.
  destruct (reqType req) as [| | | |name].
  - destruct (deletePaths ctx fuel paths env) as [[result env']|]; [| done].
    by destruct (sendBlocking _ _ _).
  - destruct (movePaths w ctx fuel paths (Destination req) env)
      as [[result env']|]; [| done].
    by destruct (sendBlocking _ _ _).
  - destruct (copyPaths w ctx fuel paths (Destination req) env)
      as [[result env']|]; [| done].
    by destruct (sendBlocking _ _ _).
  - destruct (backupPaths w ctx fuel paths (Destination req) env)
      as [[result env']|]; [| done].
    by destruct (sendBlocking _ _ _).
  - by intros [= <- <- <- <-].
Qed.

Lemma Execute_error_changes_nothing_witness :
  systemWorld = systemWorld
  /\ emptyResult ActionDelete = emptyResult ActionDelete.
Proof.
  refine (Execute_error_changes_nothing systemWorld actionBackground 8
            (mkActionRequest ActionDelete ["/data/f"] "" true "")
            NewFSActions (emptyResult ActionDelete)
            (Errorf "delete confirmation required") NewFSActions systemWorld _).
  vm_compute. reflexivity.
Defined.

Lemma requireConfirmation_passed (fs : Objects) (req : ActionRequest)
    (paths : list string) :
  requireConfirmation fs req paths = None ->
  reqType req = ActionDelete \/ reqType req = ActionMove ->
  ConfirmToken req = "confirm"
  \/ (reqType req = ActionDelete /\ ConfirmToken req = "confirm-recursive").
Proof.
  unfold requireConfirmation. intros Hpass Htype.
  destruct (String.eqb_spec (ConfirmToken req) "confirm") as [? | Hne];
    [by left |].
  destruct Htype as [Ht | Ht]; rewrite Ht in Hpass; simpl in Hpass; [| done].
  destruct (recursiveCheck fs (ConfirmToken req) paths); [done |].
  destruct (String.eqb_spec (ConfirmToken req) "confirm-recursive"); [| done].
  right. done.
Qed.

(** No delete and no move changes the file system without a
    confirmation token: if [Execute] of a delete or a move leaves a file
    system other than the one it found, the request carried "confirm",
    or it was a delete that carried "confirm-recursive"; this with safe
    mode on or off. *)
Theorem no_delete_or_move_without_a_token (w : ActionWorld)
    (ctx : ActionContext) (fuel : nat) (req : ActionRequest)
    (actions : FSActions)
    (out : Outcome (ActionResult * option error)) (actions' : FSActions)
    (w' : ActionWorld) :
  Execute w ctx fuel req actions = Some (out, actions', w') ->
  reqType req = ActionDelete \/ reqType req = ActionMove ->
  awFs w' <> awFs w ->
  ConfirmToken req = "confirm"
  \/ (reqType req = ActionDelete /\ ConfirmToken req = "confirm-recursive").
Proof.
  unfold Execute. intros Hrun Htype Hchanged.
  destruct (normalizePaths w (SourcePaths req)) as [e | paths];
    [by injection Hrun as <- <- <- |].
  destruct (validateRequest w req paths); [by injection Hrun as <- <- <- |].
  destruct (requireConfirmation (awFs w) req paths) eqn:Hgate;
    [by injection Hrun as <- <- <- |].
  by apply (requireConfirmation_passed (awFs w) req paths).
Qed.

Lemma no_delete_or_move_without_a_token_witness :
  "confirm" = "confirm"
  \/ (ActionDelete = ActionDelete /\ "confirm" = "confirm-recursive").
Proof.
  pose (req := mkActionRequest ActionDelete ["/data/f"] "" true "confirm").
  pose (run := Execute systemWorld actionBackground 8 req NewFSActions).
  refine (no_delete_or_move_without_a_token systemWorld actionBackground 8 req
            NewFSActions (default (Blocked, NewFSActions, systemWorld) run).1.1
            (default (Blocked, NewFSActions, systemWorld) run).1.2
            (default (Blocked, NewFSActions, systemWorld) run).2 _ _ _).
  - vm_compute. reflexivity.
  - left. reflexivity.
  - intros Heq. apply (f_equal (fun m : Objects => m !! "/data/f")) in Heq.
    vm_compute in Heq. discriminate.
Defined.



(* ===================================================================== *)
(** * What the operations never do to the file system *)
(* ===================================================================== *)

Section WalkInvariant.
Context {S : Type}.
Variable fsOf : S -> Objects.
Variable P : S -> Prop.

(** A property of the state that every call of the walk function keeps
    holds when [filepath.WalkDir] returns. *)
Lemma actionWalkDir_keeps
    (fn : string -> WalkCall ActionEntry -> S -> WalkResult * S) :
  (forall path call st, P st -> P (fn path call st).2) ->
  forall fuel path d st r st',
    P st -> actionWalkDir fsOf fn fuel path d st = Some (r, st') -> P st'.
Proof.
  intros Hfn. induction fuel as [|fuel IH]; intros path d st r st' HP;
    simpl; [done |].
  pose proof (Hfn path (VisitEntry d) st HP) as H1.
  destruct (fn path (VisitEntry d) st) as [[| |e] st1]; simpl in H1.
  - destruct (negb (aeIsDir d)); [by intros [= <- <-] |].
    assert (exists dirs r2 st2,
               match osReadDir (fsOf st1) path with
               | inl e =>
                   let '(r, st') := fn path (VisitError (Some d) e) st1 in
                   ([], r, st')
               | inr dirs => (dirs, WalkOk, st1)
               end = (dirs, r2, st2) /\ P st2) as (dirs & r2 & st2 & -> & H2).
    { destruct (osReadDir (fsOf st1) path) as [e | dirs].
      - pose proof (Hfn path (VisitError (Some d) e) st1 H1) as H2.
        destruct (fn path (VisitError (Some d) e) st1) as [r2 st2].
        by exists [], r2, st2.
      - by exists dirs, WalkOk, st1. }
    destruct r2 as [| |e]; [| by intros [= <- <-] | by intros [= <- <-]].
    clear H1 HP. revert st2 H2.
    induction dirs as [|d1 rest IHd]; intros st2 H2; [by intros [= <- <-] |].
    destruct (actionWalkDir fsOf fn fuel (Filepath.Join path (aeName d1)) d1 st2)
      as [[[| |e] st3]|] eqn:Hd1; [| | | done].
    + apply IHd. by eapply IH.
    + intros [= <- <-]. by eapply IH.
    + intros [= <- <-]. by eapply IH.
  - by intros [= <- <-].
  - by intros [= <- <-].
Qed.

Lemma actionWalk_keeps
    (fn : string -> WalkCall ActionEntry -> S -> WalkResult * S) :
  (forall path call st, P st -> P (fn path call st).2) ->
  forall fuel root st err st',
    P st -> actionWalk fsOf fn fuel root st = Some (err, st') -> P st'.
Proof.
  intros Hfn fuel root st err st' HP. unfold actionWalk.
  destruct (osLstat (fsOf st) root) as [e | info].
  - pose proof (Hfn root (VisitError None e) st HP) as H1.
    destruct (fn root (VisitError None e) st) as [[| |e'] st1];
      by intros [= <- <-].
  - destruct (actionWalkDir fsOf fn fuel root _ st) as [[r st1]|] eqn:Hw;
      [| done].
    pose proof (actionWalkDir_keeps fn Hfn fuel root _ st r st1 HP Hw) as H1.
    destruct r; by intros [= <- <-].
Qed.


End WalkInvariant.

(** ** Delete only removes *)








(** ** Copy and backup only add *)















(* ===================================================================== *)
(** * fs_actions.go: Preview *)
(* ===================================================================== *)

Lemma previewVisit_keeps (req : ActionRequest) (paths : list string)
    (fs : Objects) (sizeOf : FsObject -> Z) (path child : string)
    (call : WalkCall ActionEntry) (pv : ActionPreview) :
  previewOf req paths pv ->
  previewOf req paths (previewVisit fs sizeOf path child call pv).2.
Proof.
  intros (Ht & Hs & Hd & Hn). unfold previewVisit, previewOf.
  destruct call as [entry | d err]; [| done].
  destruct (aeIsDir entry).
  - by destruct (negb (String.eqb child path)).
  - assert (length (if (length (Samples pv) <? 5)%nat
                    then (Samples pv ++ [child])%list else Samples pv) <= 5)%nat
      as Hn'.
    { destruct (Nat.ltb_spec (length (Samples pv)) 5); [| done].
      rewrite length_app. simpl. lia. }
    by destruct (osLstat fs child).
Qed.

Lemma previewLoop_keeps (req : ActionRequest) (all : list string)
    (fs : Objects) (sizeOf : FsObject -> Z) (ctx : ActionContext) (fuel : nat)
    (paths : list string) :
  forall (polls : nat) (pv pv' : ActionPreview),
    previewOf req all pv ->
    previewLoop fs sizeOf ctx fuel paths polls pv = Some (inr pv') ->
    previewOf req all pv'.
Proof.
  induction paths as [|path rest IH]; intros polls pv pv' Hpv; simpl.
  - by intros [= <-].
  - destruct (ctxErrAt ctx polls); [done |].
    destruct (osLstat fs path) as [err | info].
    + apply IH. destruct Hpv as (? & ? & ? & ?). by repeat split.
    + destruct (isDirObj info).
      * destruct (actionWalk _ (previewVisit fs sizeOf path) fuel path
                             (countDir pv)) as [[walkErr pv1]|] eqn:Hwalk;
          [| done].
        assert (previewOf req all pv1) as H1.
        { apply (actionWalk_keeps (fun _ : ActionPreview => fs)
                   (previewOf req all) (previewVisit fs sizeOf path)
                   (fun child call p =>
                      previewVisit_keeps req all fs sizeOf path child call p)
                   fuel path (countDir pv) walkErr pv1); [| exact Hwalk].
          destruct Hpv as (? & ? & ? & ?). by repeat split. }
        apply IH. destruct walkErr as [e|]; [| done].
        destruct (negb (bool_decide (e = Canceled))); [| done].
        destruct H1 as (? & ? & ? & ?). by repeat split.
      * apply IH. destruct Hpv as (Ht & Hs & Hd & Hn). repeat split; try done.
        simpl. destruct (Nat.ltb_spec (length (Samples pv)) 5); [| done].
        rewrite length_app. simpl. lia.
Qed.

(** A preview that succeeds is the preview of a request that passes the
    checks [Execute] starts with: it names the request's type and
    destination and the normalised sources, and it holds at most five
    sample paths, however many files the sources hold. *)
Theorem Preview_names_the_request (w : ActionWorld) (sizeOf : FsObject -> Z)
    (ctx : ActionContext) (fuel : nat) (req : ActionRequest)
    (pv : ActionPreview) :
  Preview w sizeOf ctx fuel req = Some (inr pv) ->
  exists paths,
    normalizePaths w (SourcePaths req) = inr paths
    /\ validateRequest w req paths = None
    /\ pvType pv = reqType req /\ Sources pv = paths
    /\ pvDestination pv = Destination req
    /\ (length (Samples pv) <= 5)%nat.
Proof.
  unfold Preview.
  destruct (normalizePaths w (SourcePaths req)) as [e | paths]; [done |].
  destruct (validateRequest w req paths) eqn:Hvalid; [done |].
  intros Hloop. exists paths. split; [done |]. split; [done |].
  apply (previewLoop_keeps req paths (awFs w) sizeOf ctx fuel paths 0 _ pv)
    in Hloop; [done |].
  repeat split. simpl. lia.
Qed.

Lemma Preview_names_the_request_witness :
  exists paths,
    normalizePaths sampleWorld ["/data/d"] = inr paths
    /\ validateRequest sampleWorld
         (mkActionRequest ActionDelete ["/data/d"] "" true "") paths = None
    /\ ActionDelete = ActionDelete /\ ["/data/d"] = paths
    /\ "" = "" /\ (2 <= 5)%nat.
Proof.
  pose (req := mkActionRequest ActionDelete ["/data/d"] "" true "").
  refine (Preview_names_the_request sampleWorld byteSize actionBackground 8 req
            (mkActionPreview ActionDelete ["/data/d"] "" 2 2 4
                             ["/data/d/sub/y"; "/data/d/x"] []) _).
  vm_compute. reflexivity.
Defined.

Lemma previewLoop_no_error (fs : Objects) (sizeOf : FsObject -> Z)
    (ctx : ActionContext) (fuel : nat) (paths : list string) :
  (forall n, ctxErrAt ctx n = None) ->
  forall (polls : nat) (pv : ActionPreview) (err : error),
    previewLoop fs sizeOf ctx fuel paths polls pv <> Some (inl err).
Proof.
  intros Hctx. induction paths as [|path rest IH]; intros polls pv err; simpl.
  - done.
  - rewrite Hctx. destruct (osLstat fs path) as [e | info]; [apply IH |].
    destruct (isDirObj info); [| apply IH].
    destruct (actionWalk _ _ fuel path (countDir pv)) as [[walkErr pv1]|];
      [apply IH | done].
Qed.

(** With a context that is never done, [Preview] fails only where
    [Execute] fails before doing anything: the error of a preview is the
    error [Execute] returns for the same request, with the file system
    untouched. *)
Theorem Preview_error_is_Execute_error (w : ActionWorld)
    (sizeOf : FsObject -> Z) (ctx ctx' : ActionContext) (fuel fuel' : nat)
    (req : ActionRequest) (actions : FSActions) (err : error) :
  (forall n, ctxErrAt ctx n = None) ->
  Preview w sizeOf ctx fuel req = Some (inl err) ->
  Execute w ctx' fuel' req actions
  = Some (Returned (emptyResult (reqType req), Some err), actions, w).
Proof.
  intros Hctx. unfold Preview, Execute.
  destruct (normalizePaths w (SourcePaths req)) as [e | paths];
    [by intros [= <-] |].
  destruct (validateRequest w req paths); [by intros [= <-] |].
  intros Hloop. by apply previewLoop_no_error in Hloop.
Qed.

Lemma Preview_error_is_Execute_error_witness :
  Execute sampleWorld actionBackground 8
          (mkActionRequest ActionCopy ["/data/d"] "" true "") NewFSActions
  = Some (Returned (emptyResult ActionCopy,
                    Some (Errorf "destination required")),
          NewFSActions, sampleWorld).
Proof.
  refine (Preview_error_is_Execute_error sampleWorld byteSize actionBackground
            actionBackground 8 8
            (mkActionRequest ActionCopy ["/data/d"] "" true "") NewFSActions
            (Errorf "destination required") _ _).
  - reflexivity.
  - vm_compute. reflexivity.
Defined.

(** ** Many sources, one destination *)

(** A copy or a (confirmed) move of more than one source onto a
    destination that is not an existing directory does nothing: the file
    system after [Execute] is the one before, no error is returned, and
    the result carries the message "copy failed" or "move failed", the
    one error "destination must be a directory for multiple sources" and
    both counters at zero. *)
Theorem many_sources_need_a_directory (w : ActionWorld) (ctx : ActionContext)
    (fuel : nat) (req : ActionRequest) (actions : FSActions)
    (paths : list string) (dest : string) :
  reqType req = ActionCopy
  \/ (reqType req = ActionMove /\ ConfirmToken req = "confirm") ->
  normalizePaths w (SourcePaths req) = inr paths ->
  (1 < length paths)%nat ->
  Destination req <> "" ->
  actionAbs w (Destination req) = inr dest ->
  (forall mode mtime, awFs w !! dest <> Some (ObjDir mode mtime)) ->
  Execute w ctx fuel req actions
  = Some (Returned (mkActionResult (reqType req) 0 0 (awElapsed w)
                      (match reqType req with
                       | ActionMove => "move failed"
                       | _ => "copy failed"
                       end)
                      ["destination must be a directory for multiple sources"]
                      0, None),
          mkFSActions
            (Some (mkChan [mkActionProgress (reqType req) "" 0 0 true ""]
                          64 true)),
          w).
Proof.
  intros Htype Hnorm Hmany Hdest Habs Hnodir.
  assert (String.eqb (Destination req) "" = false) as Hd
    by by apply String.eqb_neq.
  assert (resolveDestination w (awFs w) (Destination req) paths
          = inl (Errorf "destination must be a directory for multiple sources"))
    as Hres.
  { unfold resolveDestination. rewrite Hd, Habs. unfold osLstat.
    destruct (awFs w !! dest) as [[c m t | m t]|] eqn:Hlook.
    - by apply Nat.ltb_lt in Hmany as ->.
    - by destruct (Hnodir m t).
    - by apply Nat.ltb_lt in Hmany as ->. }
  unfold Execute. rewrite Hnorm.
  unfold validateRequest, requireConfirmation.
  destruct paths as [|p paths]; [simpl in Hmany; lia |].
  destruct Htype as [Ht | [Ht Htok]]; rewrite Ht, ?Htok, Hd; simpl;
    rewrite ?andb_false_r; simpl.
  - unfold copyPaths. simpl. rewrite Hres. simpl. by destruct w.
  - unfold movePaths. simpl. rewrite Hres. simpl. by destruct w.
Qed.

Lemma many_sources_need_a_directory_witness :
  Execute sampleWorld actionBackground 8
          (mkActionRequest ActionCopy ["/data/d"; "/data/f"] "/data/new" true "")
          NewFSActions
  = Some (Returned (mkActionResult ActionCopy 0 0 1 "copy failed"
                      ["destination must be a directory for multiple sources"]
                      0, None),
          mkFSActions
            (Some (mkChan [mkActionProgress ActionCopy "" 0 0 true ""] 64 true)),
          sampleWorld).
Proof.
  refine (many_sources_need_a_directory sampleWorld actionBackground 8
            (mkActionRequest ActionCopy ["/data/d"; "/data/f"] "/data/new" true "")
            NewFSActions ["/data/d"; "/data/f"] "/data/new" _ _ _ _ _ _).
  - left. reflexivity.
  - vm_compute. reflexivity.
  - simpl. lia.
  - discriminate.
  - vm_compute. reflexivity.
  - intros mode mtime. vm_compute. discriminate.
Defined.
